(** * JsoncInstance: an addressable, annotatable view over a JSONC syntax tree

    A shallow embedding of [language-server/src/jsonc-instance.js]: the
    [JsoncInstance] class and the [pointerSegments] generator, together
    with the parts of the JavaScript run time and of the collaborating
    libraries that the class calls.

    - JavaScript strings are lists of 8-bit characters ([jsstring]);
      numbers used as indices and offsets are [Z].
    - A call that may throw returns a [result]; a generator is the finite
      trace [Gen] of what it yields, ending normally or by a throw.
    - The syntax tree is a heap of nodes ([Store]) addressed by node
      identifiers, because [asEmbedded] overwrites a slot of a node that
      other Instances still reach.
    - The annotations object is a finite map from pointers to finite maps
      from keyword identifiers to lists of values. *)

From stdpp Require Import gmap strings list.
From Stdlib Require Import Ascii ZArith DecimalString.
From Equations Require Import Equations.

Local Open Scope char_scope.

(** ** JavaScript strings, errors and generators *)

Abbreviation jsstring := (list ascii).

Definition js (s : string) : jsstring := String.list_ascii_of_string s.

(** JSON source text written with apostrophes in place of double quotes. *)
Definition json_text (s : string) : jsstring :=
  (fun c => if decide (c = "'") then "034" else c) <$> js s.

(** What a call can throw: the built-in errors, the two [Error]s that the
    module raises itself, named after their messages, and [OutOfModel] for
    a computation that leaves what the embedding represents (a number that
    is not an integer, a character above 8 bits, a node identifier outside
    the heap). *)
Inductive JsError :=
| TypeError
| SyntaxError
| URIError
| NoJsonDocumentFound (uri : jsstring)
| InvalidJsonPointer (pointer : jsstring)
| OutOfModel.

Inductive result (A : Type) :=
| Ok (a : A)
| Throw (e : JsError).
Arguments Ok {A} a.
Arguments Throw {A} e.

#[global] Instance result_ret : MRet result := fun A a => Ok a.
#[global] Instance result_bind : MBind result := fun A B f m =>
  match m with
  | Ok a => f a
  | Throw e => Throw e
  end.
#[global] Instance result_fmap : FMap result := fun A B f m =>
  match m with
  | Ok a => Ok (f a)
  | Throw e => Throw e
  end.

(** The trace of a generator: the values it yields, in order, until it
    returns ([Done]) or throws ([Raise]). *)
Inductive Gen (A : Type) :=
| Done
| Yield (a : A) (rest : Gen A)
| Raise (e : JsError).
Arguments Done {A}.
Arguments Yield {A} a rest.
Arguments Raise {A} e.

(** A generator body that throws before its first [yield]. *)
Definition run {A} (m : result (Gen A)) : Gen A :=
  match m with
  | Ok g => g
  | Throw e => Raise e
  end.

(** The spread [[...g]]: drain the generator into an array. *)
Fixpoint collect {A} (g : Gen A) : result (list A) :=
  match g with
  | Done => Ok []
  | Yield a rest => l ← collect rest; Ok (a :: l)
  | Raise e => Throw e
  end.

(** [find] and [some] of @hyperjump/pact: pull items until the predicate
    holds; items after the first hit are never produced. *)
Fixpoint find {A} (fn : A → result bool) (g : Gen A) : result (option A) :=
  match g with
  | Done => Ok None
  | Yield a rest => b ← fn a; if b : bool then Ok (Some a) else find fn rest
  | Raise e => Throw e
  end.

Fixpoint some {A} (fn : A → result bool) (g : Gen A) : result bool :=
  match g with
  | Done => Ok false
  | Yield a rest => b ← fn a; if b : bool then Ok true else some fn rest
  | Raise e => Throw e
  end.

(** *** String primitives *)

Definition js_length (s : jsstring) : Z := Z.of_nat (length s).

Fixpoint index_from (c : ascii) (s : jsstring) (i : Z) : Z :=
  match s with
  | [] => (-1)%Z
  | d :: t => if decide (d = c) then i else index_from c t (i + 1)%Z
  end.

(** [s.indexOf(c, position)] for a one-character search string. *)
Definition indexOf (s : jsstring) (c : ascii) (position : Z) : Z :=
  let start := Z.min (Z.max position 0) (js_length s) in
  index_from c (drop (Z.to_nat start) s) start.

(** [s.slice(start, stop)], negative arguments counting from the end. *)
Definition slice (s : jsstring) (start stop : Z) : jsstring :=
  let len := js_length s in
  let from := if (start <? 0)%Z then Z.max (len + start) 0 else Z.min start len in
  let to := if (stop <? 0)%Z then Z.max (len + stop) 0 else Z.min stop len in
  take (Z.to_nat (Z.max (to - from) 0)) (drop (Z.to_nat from) s).

(** [s.replace(/c/g, r)] for a one-character pattern. *)
Definition replace_char (c : ascii) (r : jsstring) (s : jsstring) : jsstring :=
  s ≫= (fun d => if decide (d = c) then r else [d]).

(** [s.replace(/ab/g, r)] for a two-character pattern: matches are taken
    left to right and do not overlap. *)
Fixpoint replace_pair (a b : ascii) (r : jsstring) (s : jsstring) : jsstring :=
  match s with
  | [] => []
  | c :: t =>
      match t with
      | d :: t' =>
          if decide (c = a ∧ d = b) then r ++ replace_pair a b r t'
          else c :: replace_pair a b r t
      | [] => [c]
      end
  end.

(** ** JSON values and [JSON.parse] *)

(** Numbers are the integers; an object is the list of its own properties
    in creation order, with distinct names. *)
#[warnings="-register-all"] Inductive JsValue :=
| JNull
| JBool (b : bool)
| JNum (n : Z)
| JStr (s : jsstring)
| JArr (items : list JsValue)
| JObj (members : list (jsstring * JsValue)).

(** [obj[k]] on the own properties of an object. *)
Fixpoint get_member (members : list (jsstring * JsValue)) (k : jsstring) : option JsValue :=
  match members with
  | [] => None
  | (k', v) :: rest => if decide (k' = k) then Some v else get_member rest k
  end.

(** Defining a property: an existing name keeps its place and takes the
    new value, a new name goes last. *)
Fixpoint set_member (k : jsstring) (v : JsValue) (members : list (jsstring * JsValue))
  : list (jsstring * JsValue) :=
  match members with
  | [] => [(k, v)]
  | (k', v') :: rest =>
      if decide (k' = k) then (k', v) :: rest else (k', v') :: set_member k v rest
  end.

Module Json.

Definition is_ws (c : ascii) : bool :=
  bool_decide (c = " " ∨ c = "009" ∨ c = "010" ∨ c = "013").

Fixpoint skip_ws (s : jsstring) : jsstring :=
  match s with
  | c :: t => if is_ws c then skip_ws t else s
  | [] => []
  end.

Definition digit (c : ascii) : option Z :=
  let n := Z.of_nat (nat_of_ascii c) in
  if decide (48 ≤ n ≤ 57)%Z then Some (n - 48)%Z else None.

Definition hex (c : ascii) : option Z :=
  let n := Z.of_nat (nat_of_ascii c) in
  if decide (48 ≤ n ≤ 57)%Z then Some (n - 48)%Z
  else if decide (65 ≤ n ≤ 70)%Z then Some (n - 55)%Z
  else if decide (97 ≤ n ≤ 102)%Z then Some (n - 87)%Z
  else None.

Definition char_of (n : Z) : ascii := ascii_of_nat (Z.to_nat n).

(** The characters of a string literal after its opening quote
    (character 034). A [\uXXXX] escape above [\u00FF] has no 8-bit
    character. *)
Fixpoint string_body (s : jsstring) (acc : jsstring) : result (jsstring * jsstring) :=
  match s with
  | [] => Throw SyntaxError
  | "034" :: r => Ok (reverse acc, r)
  | "\" :: e :: r =>
      match e with
      | "034" => string_body r ("034" :: acc)
      | "\" => string_body r ("\" :: acc)
      | "/" => string_body r ("/" :: acc)
      | "b" => string_body r ("008" :: acc)
      | "f" => string_body r ("012" :: acc)
      | "n" => string_body r ("010" :: acc)
      | "r" => string_body r ("013" :: acc)
      | "t" => string_body r ("009" :: acc)
      | "u" =>
          match r with
          | h1 :: h2 :: h3 :: h4 :: r' =>
              match hex h1, hex h2, hex h3, hex h4 with
              | Some a, Some b, Some c, Some d =>
                  if decide (a = 0 ∧ b = 0)%Z
                  then string_body r' (char_of (16 * c + d) :: acc)
                  else Throw OutOfModel
              | _, _, _, _ => Throw SyntaxError
              end
          | _ => Throw SyntaxError
          end
      | _ => Throw SyntaxError
      end
  | "\" :: [] => Throw SyntaxError
  | c :: r =>
      if decide (nat_of_ascii c < 32)%nat then Throw SyntaxError
      else string_body r (c :: acc)
  end.

Fixpoint digits (s : jsstring) (acc : Z) : Z * jsstring :=
  match s with
  | c :: t =>
      match digit c with
      | Some d => digits t (10 * acc + d)%Z
      | None => (acc, s)
      end
  | [] => (acc, [])
  end.

(** An integer literal (an optional minus sign, then a single zero or a
    non-zero digit followed by digits) within the safe range. Fractions,
    exponents and larger magnitudes are not represented. *)
Definition number (s : jsstring) : result (JsValue * jsstring) :=
  let '(negative, s1) :=
    match s with
    | "-" :: t => (true, t)
    | _ => (false, s)
    end in
  match s1 with
  | c :: t =>
      match digit c with
      | Some d =>
          let '(n, rest) := if decide (d = 0)%Z then (0%Z, t) else digits t d in
          match rest with
          | "." :: _ | "e" :: _ | "E" :: _ => Throw OutOfModel
          | _ =>
              if decide (n ≤ 9007199254740991)%Z
              then Ok (JNum (if negative : bool then - n else n)%Z, rest)
              else Throw OutOfModel
          end
      | None => Throw SyntaxError
      end
  | [] => Throw SyntaxError
  end.

Fixpoint value (fuel : nat) (s : jsstring) : result (JsValue * jsstring) :=
  match fuel with
  | O => Throw OutOfModel
  | S fuel =>
      match skip_ws s with
      | "n" :: "u" :: "l" :: "l" :: r => Ok (JNull, r)
      | "t" :: "r" :: "u" :: "e" :: r => Ok (JBool true, r)
      | "f" :: "a" :: "l" :: "s" :: "e" :: r => Ok (JBool false, r)
      | "034" :: r => '(str, r') ← string_body r []; Ok (JStr str, r')
      | "[" :: r =>
          match skip_ws r with
          | "]" :: r' => Ok (JArr [], r')
          | _ => '(items, r') ← elements fuel r; Ok (JArr items, r')
          end
      | "{" :: r =>
          match skip_ws r with
          | "}" :: r' => Ok (JObj [], r')
          | _ =>
              '(pairs, r') ← members fuel r;
              Ok (JObj (foldl (fun acc kv => set_member kv.1 kv.2 acc) [] pairs), r')
          end
      | r => number r
      end
  end
with elements (fuel : nat) (s : jsstring) : result (list JsValue * jsstring) :=
  match fuel with
  | O => Throw OutOfModel
  | S fuel =>
      '(v, r) ← value fuel s;
      match skip_ws r with
      | "," :: r' => '(vs, r'') ← elements fuel r'; Ok (v :: vs, r'')
      | "]" :: r' => Ok ([v], r')
      | _ => Throw SyntaxError
      end
  end
with members (fuel : nat) (s : jsstring)
  : result (list (jsstring * JsValue) * jsstring) :=
  match fuel with
  | O => Throw OutOfModel
  | S fuel =>
      match skip_ws s with
      | "034" :: r =>
          '(k, r1) ← string_body r [];
          match skip_ws r1 with
          | ":" :: r2 =>
              '(v, r3) ← value fuel r2;
              match skip_ws r3 with
              | "," :: r4 => '(kvs, r5) ← members fuel r4; Ok ((k, v) :: kvs, r5)
              | "}" :: r4 => Ok ([(k, v)], r4)
              | _ => Throw SyntaxError
              end
          | _ => Throw SyntaxError
          end
      | _ => Throw SyntaxError
      end
  end.

(** [JSON.parse(text)]: one value, surrounded by white space only. The
    fuel bounds the depth of the recursion; every recursive call is made
    after a character of the text was consumed. *)
Definition parse (text : jsstring) : result JsValue :=
  '(v, r) ← value (2 * length text + 2) text;
  match skip_ws r with
  | [] => Ok v
  | _ => Throw SyntaxError
  end.

End Json.

(** ** JSON Pointer codec *)

Module JsonPointer.

(** Modelled from the spec: [escape] of @hyperjump/json-pointer, which is
    not part of the sources. Every [~] becomes [~0], then every [/]
    becomes [~1]. *)
Definition escape (segment : jsstring) : jsstring :=
  replace_char "/" (js "~1") (replace_char "~" (js "~0") segment).

(** Modelled from the spec: [append] of @hyperjump/json-pointer, which is
    not part of the sources. The pointer is extended by [/] and the
    escaped segment. *)
Definition append (segment pointer : jsstring) : jsstring :=
  pointer ++ "/" :: escape segment.

(** The pointer of a whole path: [path.reduce((pointer, segment) =>
    append(segment, pointer), "")]. *)
Definition encode (path : list jsstring) : jsstring :=
  foldl (fun pointer segment => append segment pointer) [] path.

End JsonPointer.

(** The progress measure of the loop of [pointerSegments]: after one turn
    [segmentStart] is [segmentEnd + 1], and from then on [segmentEnd] grows. *)
Definition loop_measure (len segmentStart segmentEnd : Z) : nat :=
  ((if decide (segmentEnd < segmentStart)%Z then 0 else S (Z.to_nat len))
   + Z.to_nat (len - segmentEnd)%Z)%nat.

(** The [while] loop of [pointerSegments], from the values of its two
    variables at the loop test. *)
Equations? segments_loop (pointer : jsstring) (segmentStart segmentEnd : Z)
  : Gen jsstring
  by wf (loop_measure (js_length pointer) segmentStart segmentEnd) lt :=
  segments_loop pointer segmentStart segmentEnd
    with decide (segmentEnd < js_length pointer)%Z => {
    | right _ := Done
    | left _ :=
        let position := indexOf pointer "/" segmentStart in
        let segmentEnd' :=
          if decide (position = -1)%Z then js_length pointer else position in
        let segment := slice pointer segmentStart segmentEnd' in
        let segmentStart' := (segmentEnd' + 1)%Z in
        Yield (replace_pair "~" "0" (js "~") (replace_pair "~" "1" (js "/") segment))
              (segments_loop pointer segmentStart' segmentEnd')
  }.
Proof.
  assert (Hfrom : ∀ s i, index_from "/" s i = (-1)%Z
                         ∨ (i ≤ index_from "/" s i < i + js_length s)%Z).
  { induction s as [|d t IH]; intros i; simpl; [by left|].
    unfold js_length in *; simpl length. case_decide; [right; lia|].
    destruct (IH (i + 1)%Z) as [->|?]; [by left|right; lia]. }
  subst segmentStart' segmentEnd' position.
  unfold loop_measure, indexOf.
  set (start := Z.min (Z.max segmentStart 0) (js_length pointer)).
  destruct (Hfrom (drop (Z.to_nat start) pointer) start) as [->|Hr].
  - repeat case_decide; unfold js_length in *; lia.
  - unfold js_length in *. rewrite length_drop in Hr.
    repeat case_decide; lia.
Qed.

Definition pointerSegments (pointer : jsstring) : Gen jsstring :=
  if decide ((js_length pointer > 0)%Z ∧ pointer !! 0%nat ≠ Some "/")
  then Raise (InvalidJsonPointer pointer)
  else segments_loop pointer 1 0.

(** ** The syntax tree of jsonc-parser *)

Definition NodeId := nat.

Inductive NodeType :=
| NObject | NArray | NProperty | NString | NNumber | NBoolean | NNull.

#[global] Instance NodeType_eq_dec : EqDecision NodeType.
Proof. solve_decision. Defined.

Definition type_name (t : NodeType) : jsstring :=
  match t with
  | NObject => js "object"
  | NArray => js "array"
  | NProperty => js "property"
  | NString => js "string"
  | NNumber => js "number"
  | NBoolean => js "boolean"
  | NNull => js "null"
  end.

(** A node [{type, offset, length, value?, children?, parent?}]. An absent
    property is [None]; an array of children may have holes. *)
Record Node := {
  node_type : NodeType;
  node_offset : Z;
  node_length : Z;
  node_value : option JsValue;
  node_children : option (list (option NodeId));
  node_parent : option NodeId
}.

(** The heap of nodes; a node identifier is an index in it. *)
Definition Store := list Node.

(** A path segment of jsonc-parser: a property name or an array index. *)
Inductive Segment :=
| SegStr (s : jsstring)
| SegNum (n : nat).

Definition decimal (n : nat) : jsstring :=
  js (NilEmpty.string_of_uint (Nat.to_uint n)).

Definition segment_string (s : Segment) : jsstring :=
  match s with
  | SegStr s => s
  | SegNum n => decimal n
  end.

Record Position := { line : Z; character : Z }.

Record TextDocument := { getText : jsstring }.

(** The collaborators of the class that live outside the sources: built-in
    functions of the run time, jsonc-parser, the keyword registry of
    @hyperjump/json-schema, the text document and [./util.js]. *)
Class Externals := {
  JSON_parse : jsstring → result JsValue;
  (** [None] when [decodeURI] throws its [URIError] *)
  decodeURI : jsstring → option jsstring;
  getKeywordId : jsstring → jsstring → jsstring;
  toAbsoluteUri : jsstring → jsstring;
  findNodeAtLocation : Store → option NodeId → list Segment → option NodeId
}.

(** The collaborators of the position methods: jsonc-parser's offset
    lookup and the line index of the text document. *)
Class Positions := {
  findNodeAtOffset : Store → option NodeId → Z → option NodeId;
  getNodePath : Store → NodeId → list Segment;
  positionAt : TextDocument → Z → Position;
  offsetAt : TextDocument → Position → Z
}.

(** ** The class [JsoncInstance] *)

(** A property read on [undefined] throws a [TypeError]. *)
Definition defined {A} (x : option A) : result A :=
  match x with
  | Some a => Ok a
  | None => Throw TypeError
  end.

(** Following a node reference. References of a running program never
    dangle; an identifier outside the heap has no JavaScript meaning. *)
Definition deref (σ : Store) (n : NodeId) : result Node :=
  match σ !! n with
  | Some nd => Ok nd
  | None => Throw OutOfModel
  end.

(** [children[index]]: [undefined] past the end and at a hole. *)
Definition child (children : list (option NodeId)) (index : nat) : option NodeId :=
  mjoin (children !! index).

(** [v === s] for a string [s]. *)
Definition same_string (v : option JsValue) (s : jsstring) : bool :=
  match v with
  | Some (JStr t) => bool_decide (t = s)
  | _ => false
  end.

(** The name cached in a key node, as a pointer segment. The parser caches
    the decoded name of every key; other values are not represented. *)
Definition segment_of (v : option JsValue) : result jsstring :=
  match v with
  | Some (JStr s) => Ok s
  | _ => Throw OutOfModel
  end.

(** [children.findIndex((node) => node === n)] *)
Fixpoint findIndex_from (n : NodeId) (children : list (option NodeId)) (i : Z) : Z :=
  match children with
  | [] => (-1)%Z
  | c :: rest => if decide (c = Some n) then i else findIndex_from n rest (i + 1)%Z
  end.

Definition findIndex (n : NodeId) (children : list (option NodeId)) : Z :=
  findIndex_from n children 0.

(** [children[index] = x]: an index inside the array overwrites the slot,
    one past the end extends the array (leaving holes in between), and
    [-1] names a property that is not an element. *)
Definition set_index (children : list (option NodeId)) (index : Z) (x : NodeId)
  : list (option NodeId) :=
  if decide (index < 0)%Z then children
  else
    let i := Z.to_nat index in
    if decide (i < length children)%nat then <[i := Some x]> children
    else children ++ replicate (i - length children) None ++ [Some x].

(** The object literal [{type: "boolean", offset, length: 0}]. *)
Definition placeholder (offset : Z) : Node :=
  {| node_type := NBoolean; node_offset := offset; node_length := 0;
     node_value := None; node_children := None; node_parent := None |}.

Module JsoncInstance.

Record t := new {
  textDocument : TextDocument;
  root : option NodeId;
  node : option NodeId;
  pointer : jsstring;
  (** [None] is [undefined] *)
  annotations : option (gmap jsstring (gmap jsstring (list JsValue)))
}.

Section methods.
Context `{Externals}.

(** [fromTextDocument], given the root that [parseTree] returned for
    the text ([undefined] for empty content). *)
Definition fromTextDocument (textDocument : TextDocument) (parsed : option NodeId) : t :=
  new textDocument parsed parsed [] (Some ∅).

Definition uri (this : t) : t := this.

(** [this.node], about to be read *)
Definition this_node (σ : Store) (this : t) : result Node :=
  n ← defined (node this); deref σ n.

Definition value (σ : Store) (this : t) : result (option JsValue) :=
  match node this with
  | None => Ok None
  | Some n =>
      nd ← deref σ n;
      match node_value nd with
      | None =>
          let json := slice (getText (textDocument this)) (node_offset nd)
                        (node_offset nd + node_length nd) in
          v ← JSON_parse json; Ok (Some v)
      | Some v => Ok (Some v)
      end
  end.

Definition typeOf (σ : Store) (this : t) : result jsstring :=
  match node this with
  | None => Ok (js "undefined")
  | Some n => nd ← deref σ n; Ok (type_name (node_type nd))
  end.

Fixpoint entries_loop (σ : Store) (this : t) (children : list (option NodeId))
  : Gen (t * t) :=
  match children with
  | [] => Done
  | c :: rest =>
      run (propertyNode ← defined c ≫= deref σ;
           cs ← defined (node_children propertyNode);
           match child cs 1 with
           | None => Ok (entries_loop σ this rest)
           | Some v =>
               k ← defined (child cs 0);
               keyNode ← deref σ k;
               propertyName ← segment_of (node_value keyNode);
               let pointer := JsonPointer.append propertyName (pointer this) in
               Ok (Yield
                     (new (textDocument this) (root this) (Some k) pointer (annotations this),
                      new (textDocument this) (root this) (Some v) pointer (annotations this))
                     (entries_loop σ this rest))
           end)
  end.

Definition entries (σ : Store) (this : t) : Gen (t * t) :=
  run (type ← typeOf σ this;
       if decide (type ≠ js "object") then Ok Done
       else
         nd ← this_node σ this;
         children ← defined (node_children nd);
         Ok (entries_loop σ this children)).

Fixpoint keys_loop (σ : Store) (this : t) (children : list (option NodeId)) : Gen t :=
  match children with
  | [] => Done
  | c :: rest =>
      run (propertyNode ← defined c ≫= deref σ;
           cs ← defined (node_children propertyNode);
           k ← defined (child cs 0);
           propertyNameNode ← deref σ k;
           segment ← segment_of (node_value propertyNameNode);
           let pointer := JsonPointer.append segment (pointer this) in
           Ok (Yield (new (textDocument this) (root this) (Some k) pointer (annotations this))
                     (keys_loop σ this rest)))
  end.

Definition keys (σ : Store) (this : t) : Gen t :=
  run (type ← typeOf σ this;
       if decide (type ≠ js "object") then Ok Done
       else
         nd ← this_node σ this;
         children ← defined (node_children nd);
         Ok (keys_loop σ this children)).

Fixpoint values_loop (σ : Store) (this : t) (children : list (option NodeId)) : Gen t :=
  match children with
  | [] => Done
  | c :: rest =>
      run (propertyNode ← defined c ≫= deref σ;
           cs ← defined (node_children propertyNode);
           k ← defined (child cs 0);
           keyNode ← deref σ k;
           propertyName ← segment_of (node_value keyNode);
           let pointer := JsonPointer.append propertyName (pointer this) in
           Ok (Yield (new (textDocument this) (root this) (child cs 1) pointer
                        (annotations this))
                     (values_loop σ this rest)))
  end.

Definition values (σ : Store) (this : t) : Gen t :=
  run (type ← typeOf σ this;
       if decide (type ≠ js "object") then Ok Done
       else
         nd ← this_node σ this;
         children ← defined (node_children nd);
         Ok (values_loop σ this children)).

Definition has (σ : Store) (this : t) (key : jsstring) : result bool :=
  some (fun propertyName => v ← value σ propertyName; Ok (same_string v key))
       (keys σ this).

(** The Instance for a missing property is built with four arguments:
    [this.annotations] is handed to [JsonPointer.append], which takes
    two, and the fifth parameter of the constructor stays [undefined]. *)
Definition step (σ : Store) (this : t) (propertyName : jsstring) : result t :=
  pair ← find (fun entry => v ← value σ entry.1; Ok (same_string v propertyName))
              (entries σ this);
  match pair with
  | Some entry => Ok entry.2
  | None =>
      Ok (new (textDocument this) (root this) None
              (JsonPointer.append propertyName (pointer this)) None)
  end.

Fixpoint iter_loop (this : t) (children : list (option NodeId)) (itemIndex : nat) : Gen t :=
  match children with
  | [] => Done
  | itemNode :: rest =>
      let pointer := JsonPointer.append (decimal itemIndex) (pointer this) in
      Yield (new (textDocument this) (root this) itemNode pointer (annotations this))
            (iter_loop this rest (S itemIndex))
  end.

Definition iter (σ : Store) (this : t) : Gen t :=
  run (type ← typeOf σ this;
       if decide (type ≠ js "array") then Ok Done
       else
         nd ← this_node σ this;
         children ← defined (node_children nd);
         Ok (iter_loop this children 0)).

Definition get (σ : Store) (this : t) (uri : jsstring) : result t :=
  if decide (uri !! 0%nat ≠ Some "#") then Throw (NoJsonDocumentFound (toAbsoluteUri uri))
  else
    pointer ← from_option Ok (Throw URIError) (decodeURI (drop 1 uri));
    segments ← collect (pointerSegments pointer);
    let node := findNodeAtLocation σ (root this) (SegStr <$> segments) in
    Ok (new (textDocument this) (root this) node pointer (annotations this)).

(** The placeholder is a new node; the slot of the parent that is
    overwritten is slot 1 under a property node, and otherwise the slot
    that holds this node. *)
Definition asEmbedded (σ : Store) (this : t) : result (t * Store) :=
  let instance := new (textDocument this) (node this) (node this) [] (Some ∅) in
  n ← defined (node this);
  nd ← deref σ n;
  p ← defined (node_parent nd);
  parent ← deref σ p;
  children ← defined (node_children parent);
  let index :=
    if decide (node_type parent = NProperty) then 1%Z else findIndex n children in
  let parent' :=
    {| node_type := node_type parent; node_offset := node_offset parent;
       node_length := node_length parent; node_value := node_value parent;
       node_children := Some (set_index children index (length σ));
       node_parent := node_parent parent |} in
  Ok (instance, <[p := parent']> (σ ++ [placeholder (node_offset nd)])).

Definition annotation (this : t) (keyword dialectId : jsstring) : result (list JsValue) :=
  let keywordId := getKeywordId keyword dialectId in
  annotations ← defined (annotations this);
  Ok (default [] (annotations !! pointer this ≫= (.!! keywordId))).

Definition annotate (this : t) (keyword : jsstring) (value : JsValue) : result t :=
  annotations ← defined (annotations this);
  let recorded := default ∅ (annotations !! pointer this) in
  Ok (new (textDocument this) (root this) (node this) (pointer this)
          (Some (<[pointer this :=
                     <[keyword := value :: default [] (recorded !! keyword)]> recorded]>
                   annotations))).

(** The annotations map keeps no creation order: the pointers are
    visited in the key order of the map, where [for...in] visits them
    in the order in which they were created. The order of the list
    returned, and which error is thrown when several pointers fail,
    are therefore not those of the code; what the list contains is. A
    [for...in] over [undefined] visits nothing. *)
Definition annotatedWith (σ : Store) (this : t) (keyword dialectId : jsstring)
  : result (list t) :=
  let keywordId := getKeywordId keyword dialectId in
  match annotations this with
  | None => Ok []
  | Some annotations =>
      mapM (fun instancePointer => get σ this ("#" :: instancePointer))
           (filter (fun instancePointer =>
                      is_Some (annotations !! instancePointer ≫= (.!! keywordId)))
                   (map_to_list annotations).*1)
  end.

Definition parent (σ : Store) (this : t) : result t :=
  nd ← this_node σ this;
  Ok (new (textDocument this) (root this) (node_parent nd) (pointer this)
          (annotations this)).

End methods.

Section positions.
Context `{Positions}.

Definition startPosition (σ : Store) (this : t) : result Position :=
  nd ← this_node σ this;
  Ok (positionAt (textDocument this) (node_offset nd)).

Definition endPosition (σ : Store) (this : t) : result Position :=
  nd ← this_node σ this;
  Ok (positionAt (textDocument this) (node_offset nd + node_length nd)).

Definition textLength (σ : Store) (this : t) : result Z :=
  nd ← this_node σ this; Ok (node_length nd).

Definition getInstanceAtPosition (σ : Store) (this : t) (position : Position) : t :=
  let offset := offsetAt (textDocument this) position in
  match findNodeAtOffset σ (root this) offset with
  | Some n =>
      let pathToNode := getNodePath σ n in
      let pointer :=
        foldl (fun pointer segment => JsonPointer.append (segment_string segment) pointer)
              [] pathToNode in
      new (textDocument this) (root this) (Some n) pointer (annotations this)
  | None => new (textDocument this) (root this) None [] (annotations this)
  end.

End positions.

(** [undefined] for anything but an array *)
Definition length (σ : Store) (this : t) : result (option Z) :=
  type ← typeOf σ this;
  if decide (type ≠ js "array") then Ok None
  else
    nd ← this_node σ this;
    children ← defined (node_children nd);
    Ok (Some (Z.of_nat (length children))).

End JsoncInstance.

(** ** Reference collaborators *)

(** The collaborators are parameters of the class. The examples below run
    it with these instances, which follow the documented behaviour of the
    libraries on plain ASCII documents. *)
Module Reference.

(** The property node of [children] that [findNodeAtLocation] selects for
    a name: the first one with two children whose key is the name. *)
Fixpoint property_value (σ : Store) (name : jsstring) (children : list (option NodeId))
  : option NodeId :=
  match children with
  | [] => None
  | c :: rest =>
      match pid ← c; propertyNode ← σ !! pid; node_children propertyNode with
      | Some [Some k; Some v] =>
          if same_string (keyNode ← σ !! k; node_value keyNode) name
          then Some v
          else property_value σ name rest
      | _ => property_value σ name rest
      end
  end.

(** [findNodeAtLocation(root, path)] of jsonc-parser: walk down from
    [root], by property name through objects and by index through
    arrays; [undefined] as soon as a segment does not apply. *)
Fixpoint walk (σ : Store) (n : NodeId) (path : list Segment) : option NodeId :=
  match path with
  | [] => Some n
  | segment :: rest =>
      nd ← σ !! n;
      children ← node_children nd;
      match segment with
      | SegStr name =>
          if decide (node_type nd = NObject)
          then property_value σ name children ≫= fun v => walk σ v rest
          else None
      | SegNum index =>
          if decide (node_type nd = NArray)
          then child children index ≫= fun item => walk σ item rest
          else None
      end
  end.

Definition findNodeAtLocation (σ : Store) (root : option NodeId) (path : list Segment)
  : option NodeId :=
  root ≫= fun n => walk σ n path.

Definition reserved (c : ascii) : bool :=
  bool_decide (c ∈ js ";/?:@&=+$,#").

(** [decodeURI]: an escape [%XX] of an unreserved ASCII character is
    replaced by the character, an escape of a reserved one is kept, and
    a [%] that does not start an escape is a [URIError]. Escapes of
    UTF-8 sequences have no 8-bit result and are answered alike. *)
Fixpoint decodeURI (s : jsstring) : option jsstring :=
  match s with
  | [] => Some []
  | "%" :: h1 :: h2 :: rest =>
      match Json.hex h1, Json.hex h2 with
      | Some a, Some b =>
          let c := Json.char_of (16 * a + b) in
          if decide (16 * a + b < 128)%Z then
            if reserved c then (fun r => "%" :: h1 :: h2 :: r) <$> decodeURI rest
            else (c ::.) <$> decodeURI rest
          else None
      | _, _ => None
      end
  | "%" :: _ => None
  | c :: rest => (c ::.) <$> decodeURI rest
  end.

(** The identifiers of the 2020-12 keywords in @hyperjump/json-schema:
    the short name under [https://json-schema.org/keyword/]. *)
Definition getKeywordId (keyword dialectId : jsstring) : jsstring :=
  js "https://json-schema.org/keyword/" ++ keyword.

(** Modelled from the spec: [toAbsoluteUri] of [./util.js], which is not
    part of the sources; the reference without its fragment. *)
Definition toAbsoluteUri (uri : jsstring) : jsstring :=
  let position := indexOf uri "#" 0 in
  slice uri 0 (if decide (position = -1)%Z then js_length uri else position).

#[global] Instance externals : Externals :=
  Build_Externals Json.parse decodeURI getKeywordId toAbsoluteUri findNodeAtLocation.

End Reference.

(** ** What the parser guarantees about an object node *)

(** One child of an object node as the iteration methods read it: the key
    node, the name cached in it, and the value node if the property has
    one. The parser gives every property node a key child that caches its
    name; a property without a value (as in [{"a":}]) has the key only. *)
Definition property_view (σ : Store) (c : option NodeId)
  : option (NodeId * jsstring * option NodeId) :=
  pid ← c;
  propertyNode ← σ !! pid;
  cs ← node_children propertyNode;
  k ← child cs 0;
  keyNode ← σ !! k;
  match node_value keyNode with
  | Some (JStr name) => Some (k, name, child cs 1)
  | _ => None
  end.

(** The properties of the node of an Instance, in source order: none for
    an absent node and for a node that is not an object, and undefined as
    soon as the node or one of its children is not as the parser builds
    them. *)
Definition object_view (σ : Store) (this : JsoncInstance.t)
  : option (list (NodeId * jsstring * option NodeId)) :=
  match JsoncInstance.node this with
  | None => Some []
  | Some n =>
      nd ← σ !! n;
      if decide (node_type nd = NObject)
      then cs ← node_children nd; mapM (property_view σ) cs
      else Some []
  end.

(** The Instances that the iteration methods build for one property. *)
Definition key_instance (this : JsoncInstance.t) (p : NodeId * jsstring * option NodeId)
  : JsoncInstance.t :=
  JsoncInstance.new (JsoncInstance.textDocument this) (JsoncInstance.root this)
    (Some p.1.1) (JsonPointer.append p.1.2 (JsoncInstance.pointer this))
    (JsoncInstance.annotations this).

Definition value_instance (this : JsoncInstance.t) (p : NodeId * jsstring * option NodeId)
  : JsoncInstance.t :=
  JsoncInstance.new (JsoncInstance.textDocument this) (JsoncInstance.root this)
    p.2 (JsonPointer.append p.1.2 (JsoncInstance.pointer this))
    (JsoncInstance.annotations this).

(** The ancestor of a node that has no parent: the root of the document
    the node was parsed in. *)
Fixpoint top_ancestor (fuel : nat) (σ : Store) (n : NodeId) : NodeId :=
  match fuel with
  | O => n
  | S fuel =>
      match nd ← σ !! n; node_parent nd with
      | Some p => top_ancestor fuel σ p
      | None => n
      end
  end.

Definition document_root (σ : Store) (this : JsoncInstance.t) : option NodeId :=
  top_ancestor (length σ) σ <$> JsoncInstance.root this.

(** ** Example documents *)

Module Examples.

Definition leaf (type : NodeType) (offset length : Z) (value : JsValue) (parent : NodeId)
  : Node :=
  {| node_type := type; node_offset := offset; node_length := length;
     node_value := Some value; node_children := None; node_parent := Some parent |}.

Definition inner (type : NodeType) (offset length : Z) (children : list NodeId)
    (parent : option NodeId) : Node :=
  {| node_type := type; node_offset := offset; node_length := length;
     node_value := None; node_children := Some (Some <$> children);
     node_parent := parent |}.

(** The document [{"a": {"b": 1}}] and the tree [parseTree] builds for
    it: the root object, the property [a] with its key and its object
    value, and inside it the property [b] with its key and the number. *)
Definition nested_text : TextDocument := {| getText := json_text "{'a': {'b': 1}}" |}.

Definition nested_tree : Store :=
  [ inner NObject 0 15 [1] None;
    inner NProperty 1 13 [2; 3] (Some 0);
    leaf NString 1 3 (JStr (js "a")) 1;
    inner NObject 6 8 [4] (Some 1);
    inner NProperty 7 6 [5; 6] (Some 3);
    leaf NString 7 3 (JStr (js "b")) 4;
    leaf NNumber 12 1 (JNum 1) 4 ]%nat.

Definition nested_root : JsoncInstance.t :=
  JsoncInstance.fromTextDocument nested_text (Some 0%nat).

(** The Instance at [/a], the Instance that [asEmbedded] returns for it,
    and the tree it leaves behind: slot 1 of the property [a] holds a new
    node, the placeholder. *)
Definition nested_a : JsoncInstance.t :=
  JsoncInstance.new nested_text (Some 0%nat) (Some 3%nat) (js "/a") (Some ∅).

Definition nested_embedded : JsoncInstance.t :=
  JsoncInstance.new nested_text (Some 3%nat) (Some 3%nat) [] (Some ∅).

Definition nested_after : Store :=
  [ inner NObject 0 15 [1] None;
    inner NProperty 1 13 [2; 7] (Some 0);
    leaf NString 1 3 (JStr (js "a")) 1;
    inner NObject 6 8 [4] (Some 1);
    inner NProperty 7 6 [5; 6] (Some 3);
    leaf NString 7 3 (JStr (js "b")) 4;
    leaf NNumber 12 1 (JNum 1) 4;
    placeholder 6 ]%nat.

(** The document [{"a":1,"a":2}]: two properties of the same name. *)
Definition twice_text : TextDocument := {| getText := json_text "{'a':1,'a':2}" |}.

Definition twice_tree : Store :=
  [ inner NObject 0 13 [1; 4] None;
    inner NProperty 1 5 [2; 3] (Some 0);
    leaf NString 1 3 (JStr (js "a")) 1;
    leaf NNumber 5 1 (JNum 1) 1;
    inner NProperty 7 5 [5; 6] (Some 0);
    leaf NString 7 3 (JStr (js "a")) 4;
    leaf NNumber 11 1 (JNum 2) 4 ]%nat.

Definition twice_root : JsoncInstance.t :=
  JsoncInstance.fromTextDocument twice_text (Some 0%nat).

(** The document [{"a":1/**/}]: a comment inside the object. *)
Definition commented_text : TextDocument := {| getText := json_text "{'a':1/**/}" |}.

Definition commented_tree : Store :=
  [ inner NObject 0 11 [1] None;
    inner NProperty 1 5 [2; 3] (Some 0);
    leaf NString 1 3 (JStr (js "a")) 1;
    leaf NNumber 5 1 (JNum 1) 1 ]%nat.

Definition commented_root : JsoncInstance.t :=
  JsoncInstance.fromTextDocument commented_text (Some 0%nat).

(** The partial document [{"a":}]: the property has a key and no value. *)
Definition partial_text : TextDocument := {| getText := json_text "{'a':}" |}.

Definition partial_tree : Store :=
  [ inner NObject 0 6 [1] None;
    inner NProperty 1 5 [2] (Some 0);
    leaf NString 1 3 (JStr (js "a")) 1 ]%nat.

Definition partial_root : JsoncInstance.t :=
  JsoncInstance.fromTextDocument partial_text (Some 0%nat).

(** The empty object [{}]. *)
Definition empty_text : TextDocument := {| getText := js "{}" |}.

Definition empty_tree : Store := [ inner NObject 0 2 [] None ].

Definition empty_root : JsoncInstance.t :=
  JsoncInstance.fromTextDocument empty_text (Some 0%nat).

End Examples.

(** ** Auxiliary notions used in the statements *)

(** The escape of one character, and the part of a pointer that encodes a
    path. *)
Definition escape_char (c : ascii) : jsstring :=
  if decide (c = "~") then js "~0" else if decide (c = "/") then js "~1" else [c].

Definition encoded (path : list jsstring) : jsstring :=
  path ≫= fun segment => "/" :: JsonPointer.escape segment.

(** The generator that yields the items of a list and returns. *)
Definition gen_of_list {A} (l : list A) : Gen A := foldr Yield Done l.

(** The pair that [entries] yields for a property, if it has a value. *)
Definition entry_of (this : JsoncInstance.t) (p : NodeId * jsstring * option NodeId)
  : option (JsoncInstance.t * JsoncInstance.t) :=
  match p.2 with
  | Some _ => Some (key_instance this p, value_instance this p)
  | None => None
  end.

(** The Instance that [step] builds for a missing property. *)
Definition absent_instance (this : JsoncInstance.t) (propertyName : jsstring)
  : JsoncInstance.t :=
  JsoncInstance.new (JsoncInstance.textDocument this) (JsoncInstance.root this) None
    (JsonPointer.append propertyName (JsoncInstance.pointer this)) None.

(** Every item that the generator yields has the property. *)
Fixpoint yields {A} (P : A → Prop) (g : Gen A) : Prop :=
  match g with
  | Yield a rest => P a ∧ yields P rest
  | _ => True
  end.

(** The dialect that [annotation] and [annotatedWith] default to. *)
Definition draft2020 : jsstring := js "https://json-schema.org/draft/2020-12/schema".

(** ** Auxiliary notions for the further properties *)

(** What [pointerSegments] does to a segment before yielding it:
    [.replace(/~1/g, "/").replace(/~0/g, "~")]. *)
Definition unescape (segment : jsstring) : jsstring :=
  replace_pair "~" "0" (js "~") (replace_pair "~" "1" (js "/") segment).

(** The pieces of a string between its [/] characters, empty pieces
    included: one more piece than there are [/]. *)
Fixpoint split_slash (s : jsstring) : list jsstring :=
  match s with
  | [] => [[]]
  | c :: t =>
      if decide (c = "/") then [] :: split_slash t
      else
        match split_slash t with
        | piece :: pieces => (c :: piece) :: pieces
        | [] => [[c]]
        end
  end.

(** The number of [/] characters of a string. *)
Definition slashes (s : jsstring) : nat := length (filter (λ c, c = "/") s).

(** Every [~] is followed by [0] or [1], as RFC 6901 requires of a pointer. *)
Fixpoint rfc_escaped (s : jsstring) : Prop :=
  match s with
  | [] => True
  | c :: t => (c = "~" → head t = Some "0" ∨ head t = Some "1") ∧ rfc_escaped t
  end.

#[global] Instance rfc_escaped_dec (s : jsstring) : Decision (rfc_escaped s).
Proof. induction s; simpl; apply _. Defined.

(** A pointer that [pointerSegments] accepts. *)
Definition well_formed (pointer : jsstring) : Prop :=
  pointer = [] ∨ pointer !! 0%nat = Some "/".

#[global] Instance well_formed_dec (pointer : jsstring) : Decision (well_formed pointer).
Proof. unfold well_formed. apply _. Defined.

(** The first property of a name that has a value. *)
Fixpoint first_valued (k : jsstring) (props : list (NodeId * jsstring * option NodeId))
  : option (NodeId * jsstring * option NodeId) :=
  match props with
  | [] => None
  | p :: rest => if decide (p.1.2 = k ∧ is_Some p.2) then Some p else first_valued k rest
  end.

(** What [entries] builds for a property, on any tree: the key Instance
    reads the name of the property, both Instances carry the pointer of
    the object extended by that name, and the value node is there. *)
Definition entry_built `{Externals} (σ : Store) (this : JsoncInstance.t)
    (e : JsoncInstance.t * JsoncInstance.t) : Prop :=
  ∃ name,
    JsoncInstance.value σ e.1 = Ok (Some (JStr name))
    ∧ JsoncInstance.pointer e.1 = JsonPointer.append name (JsoncInstance.pointer this)
    ∧ JsoncInstance.pointer e.2 = JsonPointer.append name (JsoncInstance.pointer this)
    ∧ JsoncInstance.root e.1 = JsoncInstance.root this
    ∧ JsoncInstance.root e.2 = JsoncInstance.root this
    ∧ JsoncInstance.textDocument e.1 = JsoncInstance.textDocument this
    ∧ JsoncInstance.textDocument e.2 = JsoncInstance.textDocument this
    ∧ is_Some (JsoncInstance.node e.2).

(** An Instance that navigation from [this] may return: it is about the
    same text document, looks names up from the same root, and its
    pointer is one that [pointerSegments] accepts. *)
Definition same_view (this i : JsoncInstance.t) : Prop :=
  well_formed (JsoncInstance.pointer i)
  ∧ JsoncInstance.root i = JsoncInstance.root this
  ∧ JsoncInstance.textDocument i = JsoncInstance.textDocument this.

From Stdlib Require DecimalNat.

(** The Instance that [iter] builds for the item at [itemIndex]. *)
Definition item_instance (this : JsoncInstance.t) (itemIndex : nat)
    (itemNode : option NodeId) : JsoncInstance.t :=
  JsoncInstance.new (JsoncInstance.textDocument this) (JsoncInstance.root this) itemNode
    (JsonPointer.append (decimal itemIndex) (JsoncInstance.pointer this))
    (JsoncInstance.annotations this).

(** A chain of calls [this.step(k1).step(k2)...]. *)
Fixpoint steps `{Externals} (σ : Store) (this : JsoncInstance.t) (path : list jsstring)
  : result JsoncInstance.t :=
  match path with
  | [] => Ok this
  | propertyName :: rest => i ← JsoncInstance.step σ this propertyName; steps σ i rest
  end.

(** The document [[10,[20]]] and its tree: an array of a number and an
    array. *)
Module ArrayExamples.

Definition list_text : TextDocument := {| getText := js "[10,[20]]" |}.

Definition list_tree : Store :=
  [ Examples.inner NArray 0 9 [1; 2] None;
    Examples.leaf NNumber 1 2 (JNum 10) 0;
    Examples.inner NArray 4 4 [3] (Some 0);
    Examples.leaf NNumber 5 2 (JNum 20) 2 ]%nat.

Definition list_root : JsoncInstance.t :=
  JsoncInstance.fromTextDocument list_text (Some 0%nat).

End ArrayExamples.

(** Where an Instance stands: everything but its annotations. *)
Definition place (i : JsoncInstance.t)
  : TextDocument * option NodeId * option NodeId * jsstring :=
  (JsoncInstance.textDocument i, JsoncInstance.root i, JsoncInstance.node i,
   JsoncInstance.pointer i).

(** Annotations as [annotate] leaves them: one [title] recorded at [/a],
    and one recorded at the pointer of a property named [100%]. *)
Module AnnotationExamples.

Definition title_id : jsstring := js "https://json-schema.org/keyword/title".

Definition titled : gmap jsstring (gmap jsstring (list JsValue)) :=
  {[ js "/a" := {[ title_id := [JNum 1] ]} ]}.

Definition titled_root : JsoncInstance.t :=
  JsoncInstance.new Examples.nested_text (Some 0%nat) (Some 0%nat) [] (Some titled).

Definition percent : gmap jsstring (gmap jsstring (list JsValue)) :=
  {[ js "/100%" := {[ title_id := [JNum 1] ]} ]}.

Definition percent_root : JsoncInstance.t :=
  JsoncInstance.new Examples.nested_text (Some 0%nat) (Some 0%nat) [] (Some percent).

End AnnotationExamples.

(** A node with its [children] array replaced, as the assignment
    [parent.children[index] = ...] of [asEmbedded] leaves the parent. *)
Definition with_children (nd : Node) (children : list (option NodeId)) : Node :=
  {| node_type := node_type nd; node_offset := node_offset nd;
     node_length := node_length nd; node_value := node_value nd;
     node_children := Some children; node_parent := node_parent nd |}.

(** The children of a node in a tree, if it has any. *)
Definition children_of (σ : Store) (n : NodeId) : option (list (option NodeId)) :=
  σ !! n ≫= node_children.

(** ** Reference collaborators of the position methods *)

(** [findNodeAtOffset] and [getNodePath] as jsonc-parser documents them,
    and the positions of a text document that has a single line. *)
Module ReferencePositions.

(** [contains(node, offset)], the right bound excluded. *)
Definition contains (nd : Node) (offset : Z) : bool :=
  bool_decide (node_offset nd ≤ offset < node_offset nd + node_length nd)%Z.

(** The innermost node under [n] that contains the offset: the children
    are tried in order as long as they start at or before the offset. *)
Fixpoint find_at (fuel : nat) (σ : Store) (n : NodeId) (offset : Z) : option NodeId :=
  match fuel with
  | O => None
  | S fuel =>
      nd ← σ !! n;
      if contains nd offset then
        let fix among (children : list (option NodeId)) : option NodeId :=
          match children with
          | [] => None
          | c :: rest =>
              cid ← c;
              child ← σ !! cid;
              if bool_decide (node_offset child ≤ offset)%Z then
                match find_at fuel σ cid offset with
                | Some item => Some item
                | None => among rest
                end
              else None
          end in
        Some (default n (among (default [] (node_children nd))))
      else None
  end.

Definition findNodeAtOffset (σ : Store) (root : option NodeId) (offset : Z)
  : option NodeId :=
  root ≫= fun n => find_at (length σ) σ n offset.

(** The path from the root to a node: the key of every property node and
    the index in every array passed on the way down. *)
Fixpoint path_to (fuel : nat) (σ : Store) (n : NodeId) : list Segment :=
  match fuel with
  | O => []
  | S fuel =>
      match nd ← σ !! n; p ← node_parent nd; parent ← σ !! p;
            cs ← node_children parent; Some (p, parent, cs) with
      | None => []
      | Some (p, parent, cs) =>
          let path := path_to fuel σ p in
          if decide (node_type parent = NProperty) then
            match k ← child cs 0; keyNode ← σ !! k; node_value keyNode with
            | Some (JStr key) => path ++ [SegStr key]
            | _ => path
            end
          else if decide (node_type parent = NArray) then
            let index := findIndex n cs in
            if decide (index = -1)%Z then path else path ++ [SegNum (Z.to_nat index)]
          else path
      end
  end.

Definition getNodePath (σ : Store) (n : NodeId) : list Segment :=
  path_to (length σ) σ n.

Definition clamp (x low high : Z) : Z := Z.max low (Z.min x high).

Definition positionAt (textDocument : TextDocument) (offset : Z) : Position :=
  {| line := 0; character := clamp offset 0 (js_length (getText textDocument)) |}.

Definition offsetAt (textDocument : TextDocument) (position : Position) : Z :=
  let len := js_length (getText textDocument) in
  if decide (line position < 0)%Z then 0%Z
  else if decide (1 ≤ line position)%Z then len
  else clamp (character position) 0 len.

#[global] Instance positions : Positions :=
  Build_Positions findNodeAtOffset getNodePath positionAt offsetAt.

End ReferencePositions.

(** Two more trees. The tree of [{"a": {"b": 1}}] after the property node
    [a] itself was embedded: the only child of the root is the
    placeholder, a node without children. And the document
    [{"a":,"a":1}] with its tree: the first property [a] ends at the comma
    and has a key only, the second has the value. *)
Module MoreExamples.

Definition detached_tree : Store :=
  [ Examples.inner NObject 0 15 [7] None;
    Examples.inner NProperty 1 13 [2; 3] (Some 0);
    Examples.leaf NString 1 3 (JStr (js "a")) 1;
    Examples.inner NObject 6 8 [4] (Some 1);
    Examples.inner NProperty 7 6 [5; 6] (Some 3);
    Examples.leaf NString 7 3 (JStr (js "b")) 4;
    Examples.leaf NNumber 12 1 (JNum 1) 4;
    placeholder 1 ]%nat.

Definition partial_twice_text : TextDocument :=
  {| getText := json_text "{'a':,'a':1}" |}.

Definition partial_twice_tree : Store :=
  [ Examples.inner NObject 0 12 [1; 3] None;
    Examples.inner NProperty 1 4 [2] (Some 0);
    Examples.leaf NString 1 3 (JStr (js "a")) 1;
    Examples.inner NProperty 6 5 [4; 5] (Some 0);
    Examples.leaf NString 6 3 (JStr (js "a")) 3;
    Examples.leaf NNumber 10 1 (JNum 1) 3 ]%nat.

Definition partial_twice_root : JsoncInstance.t :=
  JsoncInstance.fromTextDocument partial_twice_text (Some 0%nat).

End MoreExamples.

(** ** Strict JSON text and the tree that lays it out *)

(** The text goes on with a fraction or an exponent. *)
Definition starts_fraction (b : jsstring) : bool :=
  match b with
  | c :: _ => bool_decide (c = "." ∨ c = "e" ∨ c = "E")
  | [] => false
  end.

(** The text that follows a value lets the value end there: it starts
    with no digit, fraction or exponent. *)
Definition ends_value (b : jsstring) : bool :=
  match b with
  | [] => true
  | c :: _ => bool_decide (Json.digit c = None) && negb (starts_fraction b)
  end.

(** The character that a two-character escape of a string literal stands
    for. *)
Definition simple_escape (e : ascii) : option ascii :=
  if decide (e = "034") then Some "034"
  else if decide (e = "\") then Some "\"
  else if decide (e = "/") then Some "/"
  else if decide (e = "b") then Some "008"
  else if decide (e = "f") then Some "012"
  else if decide (e = "n") then Some "010"
  else if decide (e = "r") then Some "013"
  else if decide (e = "t") then Some "009"
  else None.

(** The rest of a string after a prefix. *)
Fixpoint strip (prefix s : jsstring) : option jsstring :=
  match prefix with
  | [] => Some s
  | p :: ps =>
      match s with
      | c :: t => if decide (c = p) then strip ps t else None
      | [] => None
      end
  end.

(** The digits of [Json.number], after the sign. *)
Definition unsigned (negative : bool) (s1 : jsstring) : result (JsValue * jsstring) :=
  match s1 with
  | c :: t =>
      match Json.digit c with
      | Some d =>
          let '(n, rest) := if decide (d = 0)%Z then (0%Z, t) else Json.digits t d in
          if starts_fraction rest then Throw OutOfModel
          else if decide (n ≤ 9007199254740991)%Z
               then Ok (JNum (if negative then - n else n)%Z, rest)
               else Throw OutOfModel
      | None => Throw SyntaxError
      end
  | [] => Throw SyntaxError
  end.

(** The three functions of the parser together: what is left is shorter
    than the text after its leading white space; the result is the same
    with any fuel above the number of characters used, and with any text
    appended, provided a value that runs to the end of the text is followed
    by something that lets it end there. *)
Definition value_is_local (f : nat) : Prop :=
  ∀ s v r,
    Json.value f s = Ok (v, r) →
    length r < length (Json.skip_ws s)
    ∧ ∀ f' b, length s - length r < f' → (r = [] → ends_value b) →
              Json.value f' (s ++ b) = Ok (v, r ++ b).

Definition elements_is_local (f : nat) : Prop :=
  ∀ s vs r,
    Json.elements f s = Ok (vs, r) →
    length r < length (Json.skip_ws s)
    ∧ ∀ f' b, length s - length r < f' → Json.elements f' (s ++ b) = Ok (vs, r ++ b).

Definition members_is_local (f : nat) : Prop :=
  ∀ s kvs r,
    Json.members f s = Ok (kvs, r) →
    length r < length (Json.skip_ws s)
    ∧ ∀ f' b, length s - length r < f' → Json.members f' (s ++ b) = Ok (kvs, r ++ b).

(** White space only; white space around one character; white space and
    then one character that ends the text. *)
Definition all_ws (s : jsstring) : bool := forallb Json.is_ws s.

Definition around (c : ascii) (s : jsstring) : bool :=
  match Json.skip_ws s with
  | d :: r => bool_decide (d = c) && all_ws r
  | [] => false
  end.

Definition closes (c : ascii) (s : jsstring) : bool :=
  match Json.skip_ws s with
  | [d] => bool_decide (d = c)
  | _ => false
  end.

(** The text of a key is a string literal that reads as the name. *)
Definition key_reads (key name : jsstring) : bool :=
  match key with
  | q :: body =>
      bool_decide (q = "034")
      && match Json.string_body body [] with
         | Ok (x, []) => bool_decide (x = name)
         | _ => false
         end
  | [] => false
  end.

(** Two values are the same literal. *)
Definition same_scalar (cached parsed : JsValue) : bool :=
  match cached, parsed with
  | JNull, JNull => true
  | JBool a, JBool b => bool_decide (a = b)
  | JNum a, JNum b => bool_decide (a = b)
  | JStr a, JStr b => bool_decide (a = b)
  | _, _ => false
  end.

(** The value that the subtree at a node stands for, when the tree lays
    the text out as strict JSON: a literal node caches what its text
    parses to; an array or object node has no cached value, its text opens
    with its bracket, its children follow in order, each value a node that
    lays out its own text, each property a key and a value, with nothing
    but white space, one colon after every key and one comma between
    neighbours around them, and its bracket closes it. A comment, a
    trailing comma, a property without a value, a hole and the node that
    [asEmbedded] leaves behind are not laid out like this. *)
Fixpoint denoted (fuel : nat) (text : jsstring) (σ : Store) (n : NodeId)
  : option JsValue :=
  match fuel with
  | O => None
  | S fuel =>
      nd ← σ !! n;
      let start := node_offset nd in
      let stop := (start + node_length nd)%Z in
      if bool_decide (0 ≤ start ∧ start ≤ stop ∧ stop ≤ js_length text)%Z then
        match node_type nd, node_value nd, node_children nd with
        | NObject, None, Some cs =>
            if bool_decide (slice text start (start + 1) = ["{"]) then
              pairs ← denoted_members fuel text σ stop cs (start + 1)%Z true;
              Some (JObj (foldl (fun acc kv => set_member kv.1 kv.2 acc) [] pairs))
            else None
        | NArray, None, Some cs =>
            if bool_decide (slice text start (start + 1) = ["["]) then
              JArr <$> denoted_elements fuel text σ stop cs (start + 1)%Z true
            else None
        | (NString | NNumber | NBoolean | NNull), Some cached, _ =>
            match Json.parse (slice text start stop) with
            | Ok parsed => if same_scalar cached parsed then Some cached else None
            | Throw _ => None
            end
        | _, _, _ => None
        end
      else None
  end
with denoted_elements (fuel : nat) (text : jsstring) (σ : Store) (stop : Z)
    (cs : list (option NodeId)) (pos : Z) (first : bool) : option (list JsValue) :=
  match fuel with
  | O => None
  | S fuel =>
      match cs with
      | [] => if closes "]" (slice text pos stop) then Some [] else None
      | c :: rest =>
          v ← c;
          valueNode ← σ !! v;
          let vstart := node_offset valueNode in
          let vstop := (vstart + node_length valueNode)%Z in
          if bool_decide (pos ≤ vstart ∧ vstop ≤ stop)%Z
             && (if first then all_ws (slice text pos vstart)
                 else around "," (slice text pos vstart))
          then
            value ← denoted fuel text σ v;
            values ← denoted_elements fuel text σ stop rest vstop false;
            Some (value :: values)
          else None
      end
  end
with denoted_members (fuel : nat) (text : jsstring) (σ : Store) (stop : Z)
    (cs : list (option NodeId)) (pos : Z) (first : bool)
  : option (list (jsstring * JsValue)) :=
  match fuel with
  | O => None
  | S fuel =>
      match cs with
      | [] => if closes "}" (slice text pos stop) then Some [] else None
      | c :: rest =>
          pid ← c;
          propertyNode ← σ !! pid;
          match node_children propertyNode with
          | Some [Some k; Some v] =>
              keyNode ← σ !! k;
              valueNode ← σ !! v;
              match node_value keyNode with
              | Some (JStr name) =>
                  let kstart := node_offset keyNode in
                  let kstop := (kstart + node_length keyNode)%Z in
                  let vstart := node_offset valueNode in
                  let vstop := (vstart + node_length valueNode)%Z in
                  if bool_decide (pos ≤ kstart ∧ kstart ≤ kstop ∧ kstop ≤ vstart
                                  ∧ vstop ≤ stop)%Z
                     && (if first then all_ws (slice text pos kstart)
                         else around "," (slice text pos kstart))
                     && key_reads (slice text kstart kstop) name
                     && around ":" (slice text kstop vstart)
                  then
                    value ← denoted fuel text σ v;
                    pairs ← denoted_members fuel text σ stop rest vstop false;
                    Some ((name, value) :: pairs)
                  else None
              | _ => None
              end
          | _ => None
          end
      end
  end.

(** * Properties *)

(** ** The pointer codec *)

Section codec.

Local Open Scope Z_scope.

Lemma segments_loop_step pointer segmentStart segmentEnd :
  segments_loop pointer segmentStart segmentEnd =
  if decide (segmentEnd < js_length pointer)
  then
    let position := indexOf pointer "/" segmentStart in
    let segmentEnd' := if decide (position = -1) then js_length pointer else position in
    Yield (replace_pair "~" "0" (js "~")
             (replace_pair "~" "1" (js "/") (slice pointer segmentStart segmentEnd')))
          (segments_loop pointer (segmentEnd' + 1) segmentEnd')
  else Done.
Proof.
  rewrite segments_loop_equation_1. unfold segments_loop_unfold_clause_1.
  by destruct (decide (segmentEnd < js_length pointer)).
Qed.

(** The loop yields and returns; it has no [throw]. *)
Lemma segments_loop_returns pointer segmentStart segmentEnd :
  ∃ segments, collect (segments_loop pointer segmentStart segmentEnd) = Ok segments.
Proof.
  funelim (segments_loop pointer segmentStart segmentEnd).
  - match goal with IH : ∃ _, collect _ = _ |- _ => destruct IH as [segments Hrest] end.
    eexists. cbn [collect]. rewrite Hrest. reflexivity.
  - by exists [].
Qed.

(** *** Escaping and unescaping one segment *)

Lemma escape_chars segment : JsonPointer.escape segment = segment ≫= escape_char.
Proof.
  unfold JsonPointer.escape, replace_char.
  induction segment as [|c t IH]; [done|].
  rewrite !bind_cons, bind_app, IH. f_equal.
  unfold escape_char.
  destruct (decide (c = "~")) as [->|]; [reflexivity|].
  destruct (decide (c = "/")) as [->|]; [reflexivity|].
  simpl. by case_decide.
Qed.

Lemma replace_pair_other a b r c t :
  c ≠ a → replace_pair a b r (c :: t) = c :: replace_pair a b r t.
Proof.
  intros Hc. destruct t as [|d t]; simpl; [done|].
  case_decide as Hcd; [by destruct Hcd|done].
Qed.

Lemma replace_pair_hit a b r t :
  replace_pair a b r (a :: b :: t) = r ++ replace_pair a b r t.
Proof. simpl. case_decide as Hcd; [done|]. by destruct Hcd. Qed.

Lemma replace_pair_miss a b r d t :
  d ≠ b → replace_pair a b r (a :: d :: t) = a :: replace_pair a b r (d :: t).
Proof. intros Hd. cbn [replace_pair]. case_decide as Hcd; [by destruct Hcd|done]. Qed.

(** Undoing [~1] leaves the segment with only its [~] escaped. *)
Lemma unescape_slash segment :
  replace_pair "~" "1" (js "/") (JsonPointer.escape segment)
  = replace_char "~" (js "~0") segment.
Proof.
  rewrite escape_chars. unfold replace_char.
  induction segment as [|c t IH]; [done|].
  rewrite !bind_cons. unfold escape_char at 1.
  destruct (decide (c = "~")) as [->|Htilde].
  - change (js "~0" ++ ?x) with ("~" :: "0" :: x).
    rewrite replace_pair_miss by done. rewrite replace_pair_other by done.
    by rewrite IH.
  - destruct (decide (c = "/")) as [->|Hslash].
    + change (js "~1" ++ ?x) with ("~" :: "1" :: x).
      rewrite replace_pair_hit. by rewrite IH.
    + change ([c] ++ ?x) with (c :: x).
      rewrite replace_pair_other by done. by rewrite IH.
Qed.

Lemma unescape_tilde segment :
  replace_pair "~" "0" (js "~") (replace_char "~" (js "~0") segment) = segment.
Proof.
  unfold replace_char.
  induction segment as [|c t IH]; [done|].
  rewrite bind_cons. destruct (decide (c = "~")) as [->|Htilde].
  - change (js "~0" ++ ?x) with ("~" :: "0" :: x).
    rewrite replace_pair_hit. by rewrite IH.
  - change ([c] ++ ?x) with (c :: x).
    rewrite replace_pair_other by done. by rewrite IH.
Qed.

Lemma unescape_escape segment :
  replace_pair "~" "0" (js "~")
    (replace_pair "~" "1" (js "/") (JsonPointer.escape segment)) = segment.
Proof. by rewrite unescape_slash, unescape_tilde. Qed.

Lemma escape_no_slash segment : "/" ∉ JsonPointer.escape segment.
Proof.
  rewrite escape_chars. intros [c [Hin _]]%list_elem_of_bind.
  unfold escape_char in Hin.
  destruct (decide (c = "~")); [|destruct (decide (c = "/"))].
  - apply elem_of_cons in Hin as [?|Hin]; [done|].
    by apply list_elem_of_singleton in Hin.
  - apply elem_of_cons in Hin as [?|Hin]; [done|].
    by apply list_elem_of_singleton in Hin.
  - apply list_elem_of_singleton in Hin. congruence.
Qed.

(** *** The decoding loop on an encoded path *)

Lemma index_from_app c x y i :
  c ∉ x → index_from c (x ++ y) i = index_from c y (i + js_length x).
Proof.
  revert i. induction x as [|d x IH]; intros i Hc; simpl.
  - f_equal. unfold js_length. simpl. lia.
  - apply not_elem_of_cons in Hc as [Hd Hx]. case_decide; [congruence|].
    rewrite IH by done. f_equal. unfold js_length. simpl length. lia.
Qed.

Lemma encode_encoded path : JsonPointer.encode path = encoded path.
Proof.
  unfold JsonPointer.encode. change (encoded path) with ([] ++ encoded path).
  generalize (@nil ascii) as pre.
  induction path as [|segment path IH]; intros pre; cbn [foldl].
  - unfold encoded. by rewrite app_nil_r.
  - rewrite IH. unfold JsonPointer.append, encoded. rewrite bind_cons.
    by rewrite <- !app_assoc.
Qed.

Lemma index_from_encoded path i :
  index_from "/" (encoded path) i = if decide (path = []) then -1 else i.
Proof.
  destruct path as [|segment path]; [done|].
  rewrite (decide_False (P := segment :: path = [])) by done.
  unfold encoded. rewrite bind_cons. cbn [app index_from].
  by rewrite decide_True.
Qed.

(** One turn of the loop, standing on the [/] that opens a segment. *)
Lemma segments_loop_encoded pre segment path :
  let pointer := pre ++ "/" :: JsonPointer.escape segment ++ encoded path in
  let stop := js_length pre + 1 + js_length (JsonPointer.escape segment) in
  segments_loop pointer (js_length pre + 1) (js_length pre)
  = Yield segment (segments_loop pointer (stop + 1) stop).
Proof.
  intros pointer stop. rewrite segments_loop_step.
  pose proof (escape_no_slash segment) as Hslash.
  pose proof (unescape_escape segment) as Hunescape.
  set (escaped := JsonPointer.escape segment) in *.
  assert (Hlen : js_length pointer
                 = js_length pre + 1 + js_length escaped + js_length (encoded path)).
  { unfold pointer, js_length. rewrite length_app. simpl. rewrite length_app. lia. }
  assert (Hdrop : drop (Z.to_nat (js_length pre + 1)) pointer = escaped ++ encoded path).
  { unfold pointer. rewrite (cons_middle "/"), app_assoc.
    apply drop_app_length'. unfold js_length. rewrite length_app. simpl. lia. }
  assert (Hpos : (if decide (indexOf pointer "/" (js_length pre + 1) = -1)
                  then js_length pointer
                  else indexOf pointer "/" (js_length pre + 1)) = stop).
  { unfold indexOf.
    replace (Z.min (Z.max (js_length pre + 1) 0) (js_length pointer))
      with (js_length pre + 1) by (unfold js_length in *; lia).
    rewrite Hdrop, index_from_app, index_from_encoded by done.
    destruct (decide (path = [])) as [->|Hpath].
    - rewrite decide_True by done. rewrite Hlen. unfold stop, js_length. simpl. lia.
    - rewrite decide_False by (unfold js_length; lia). done. }
  rewrite decide_True by (unfold js_length in *; lia).
  cbv zeta. rewrite Hpos. f_equal.
  rewrite <- Hunescape. do 2 f_equal.
  unfold slice.
  rewrite !(proj2 (Z.ltb_ge _ 0)) by (unfold stop, js_length; lia).
  replace (Z.min (js_length pre + 1) (js_length pointer)) with (js_length pre + 1)
    by (unfold js_length in *; lia).
  replace (Z.min stop (js_length pointer)) with stop
    by (unfold stop, js_length in *; lia).
  rewrite Hdrop. apply take_app_length'. unfold stop, js_length. lia.
Qed.

Lemma segments_loop_decodes path pre :
  collect (segments_loop (pre ++ encoded path) (js_length pre + 1) (js_length pre))
  = Ok path.
Proof.
  revert pre. induction path as [|segment path IH]; intros pre.
  - rewrite segments_loop_step. unfold encoded. simpl. rewrite app_nil_r.
    by rewrite decide_False by lia.
  - unfold encoded. rewrite bind_cons. fold (encoded path).
    change (("/" :: JsonPointer.escape segment) ++ encoded path)
      with ("/" :: JsonPointer.escape segment ++ encoded path).
    rewrite segments_loop_encoded. cbn [collect].
    specialize (IH (pre ++ "/" :: JsonPointer.escape segment)).
    replace (js_length (pre ++ "/" :: JsonPointer.escape segment))
      with (js_length pre + 1 + js_length (JsonPointer.escape segment)) in IH
      by (unfold js_length; rewrite length_app; simpl; lia).
    rewrite <- app_assoc in IH. simpl in IH. by rewrite IH.
Qed.

End codec.

(** C8. Decoding a pointer raises the malformed-pointer error exactly when
    the pointer is not empty and its first character is not [/]: the
    generator then throws [InvalidJsonPointer] before yielding anything,
    and in every other case it runs to its end without a throw. The empty
    pointer is accepted and decodes to no segment. *)
Theorem pointerSegments_raises_iff pointer :
  ((∃ e, collect (pointerSegments pointer) = Throw e)
   ↔ pointer ≠ [] ∧ pointer !! 0%nat ≠ Some "/")
  ∧ (∀ e, collect (pointerSegments pointer) = Throw e → e = InvalidJsonPointer pointer)
  ∧ pointerSegments [] = Done.
Proof.
  assert (Hguard : (js_length pointer > 0)%Z ∧ pointer !! 0%nat ≠ Some "/"
                   ↔ pointer ≠ [] ∧ pointer !! 0%nat ≠ Some "/").
  { destruct pointer; unfold js_length; simpl; split; intros [? ?]; split;
      try done; lia. }
  unfold pointerSegments. split; [|split].
  - case_decide as Hbad.
    + split; [intros _; by apply Hguard|]. intros _. by eexists.
    + split; [|intros Hp; by apply Hguard in Hp].
      intros [e He]. destruct (segments_loop_returns pointer 1 0) as [l Hl]. congruence.
  - intros e. case_decide as Hbad; [simpl; congruence|].
    destruct (segments_loop_returns pointer 1 0) as [l Hl]. congruence.
  - reflexivity.
Qed.

Lemma pointerSegments_raises_iff_witness :
  (∃ e, collect (pointerSegments (js "a/b")) = Throw e)
  ∧ ¬ (∃ e, collect (pointerSegments (js "/a/b")) = Throw e).
Proof.
  split.
  - apply (proj1 (pointerSegments_raises_iff (js "a/b"))). by split.
  - intros Hraises.
    apply (proj1 (pointerSegments_raises_iff (js "/a/b"))) in Hraises as [_ Hfirst].
    by apply Hfirst.
Defined.

(** C9. Decoding the pointer obtained by encoding a path gives the path
    back, whatever characters its segments contain: every segment is
    appended as [/] followed by the segment with [~] escaped to [~0] and
    then [/] to [~1]. *)
Theorem pointer_round_trip (path : list jsstring) :
  collect (pointerSegments (JsonPointer.encode path)) = Ok path.
Proof.
  rewrite encode_encoded. unfold pointerSegments.
  rewrite decide_False.
  - apply (segments_loop_decodes path []).
  - intros [Hlen Hfirst]. destruct path as [|segment path].
    + by vm_compute in Hlen.
    + by apply Hfirst.
Qed.


(** ** Generators over a well-formed object node *)

Section views.
Context `{Externals}.
Implicit Types (σ : Store) (this : JsoncInstance.t).
Implicit Types (p : NodeId * jsstring * option NodeId).

Lemma type_name_inj t1 t2 : type_name t1 = type_name t2 → t1 = t2.
Proof. by destruct t1, t2. Qed.

Lemma collect_gen_of_list {A} (l : list A) : collect (gen_of_list l) = Ok l.
Proof. induction l as [|a l IH]; [done|]. simpl. by rewrite IH. Qed.

Lemma collect_Ok {A} (g : Gen A) l : collect g = Ok l → g = gen_of_list l.
Proof.
  revert l. induction g as [|a g IH|e]; intros l Hl; simpl in Hl.
  - by inversion Hl.
  - destruct (collect g) as [l'|e] eqn:Hg; [|done].
    inversion Hl; subst. simpl. f_equal. by apply IH.
  - done.
Qed.

Lemma property_view_Some σ c p :
  property_view σ c = Some p →
  ∃ pid propertyNode cs keyNode,
    c = Some pid ∧ σ !! pid = Some propertyNode
    ∧ node_children propertyNode = Some cs
    ∧ child cs 0 = Some p.1.1 ∧ σ !! p.1.1 = Some keyNode
    ∧ node_value keyNode = Some (JStr p.1.2) ∧ p.2 = child cs 1.
Proof.
  unfold property_view. intros Hview.
  destruct c as [pid|]; [|done]. simpl in Hview.
  destruct (σ !! pid) as [propertyNode|] eqn:Hpid; [|done]. simpl in Hview.
  destruct (node_children propertyNode) as [cs|] eqn:Hcs; [|done]. simpl in Hview.
  destruct (child cs 0) as [k|] eqn:Hk; [|done]. simpl in Hview.
  destruct (σ !! k) as [keyNode|] eqn:Hkey; [|done]. simpl in Hview.
  destruct (node_value keyNode) as [[| | |name| |]|] eqn:Hname; try done.
  inversion Hview; subst. simpl. by exists pid, propertyNode, cs, keyNode.
Qed.

(** The two shapes of an Instance with a view: its node is an object whose
    children all have a view, or it has no properties to show. *)
Lemma object_view_Some σ this props :
  object_view σ this = Some props →
  (∃ n nd cs,
      JsoncInstance.node this = Some n ∧ σ !! n = Some nd
      ∧ node_type nd = NObject ∧ node_children nd = Some cs
      ∧ Forall2 (λ c p, property_view σ c = Some p) cs props)
  ∨ (props = [] ∧ ∃ type, JsoncInstance.typeOf σ this = Ok type ∧ type ≠ js "object").
Proof.
  unfold object_view, JsoncInstance.typeOf, deref. intros Hview.
  destruct (JsoncInstance.node this) as [n|]; [|right].
  - destruct (σ !! n) as [nd|] eqn:Hn; [|done]. simpl in Hview.
    destruct (decide (node_type nd = NObject)) as [Hobj|Hobj].
    + left. destruct (node_children nd) as [cs|] eqn:Hcs; [|done]. simpl in Hview.
      apply mapM_Some in Hview. by exists n, nd, cs.
    + right. inversion Hview. split; [done|]. eexists. split; [done|].
      intros Htype. by apply (type_name_inj _ NObject) in Htype.
  - inversion Hview. split; [done|]. by eexists.
Qed.

Lemma value_key_instance σ this c p :
  property_view σ c = Some p →
  JsoncInstance.value σ (key_instance this p) = Ok (Some (JStr p.1.2)).
Proof.
  intros (pid & propertyNode & cs & keyNode & _ & _ & _ & _ & Hkey & Hname & _)%property_view_Some.
  unfold JsoncInstance.value, key_instance, deref. simpl. rewrite Hkey. simpl. by rewrite Hname.
Qed.

Lemma entries_loop_view σ this cs props :
  Forall2 (λ c p, property_view σ c = Some p) cs props →
  JsoncInstance.entries_loop σ this cs = gen_of_list (omap (entry_of this) props).
Proof.
  induction 1 as [|c p cs props Hview _ IH]; [done|].
  apply property_view_Some in Hview
    as (pid & propertyNode & pcs & keyNode & -> & Hpid & Hpcs & Hk & Hkey & Hname & Hv).
  cbn [JsoncInstance.entries_loop omap list_omap]. unfold deref, entry_of.
  simpl. rewrite Hpid. simpl. rewrite Hpcs. simpl. rewrite Hv.
  destruct (child pcs 1) as [v|]; simpl; [|done].
  rewrite Hk. simpl. rewrite Hkey. simpl. rewrite Hname. simpl.
  rewrite IH. unfold key_instance, value_instance. by rewrite <- Hv.
Qed.

Lemma keys_loop_view σ this cs props :
  Forall2 (λ c p, property_view σ c = Some p) cs props →
  JsoncInstance.keys_loop σ this cs = gen_of_list (key_instance this <$> props).
Proof.
  induction 1 as [|c p cs props Hview _ IH]; [done|].
  apply property_view_Some in Hview
    as (pid & propertyNode & pcs & keyNode & -> & Hpid & Hpcs & Hk & Hkey & Hname & Hv).
  cbn [JsoncInstance.keys_loop fmap list_fmap]. unfold deref.
  simpl. rewrite Hpid. simpl. rewrite Hpcs. simpl.
  rewrite Hk. simpl. rewrite Hkey. simpl. rewrite Hname. simpl.
  by rewrite IH.
Qed.

Lemma values_loop_view σ this cs props :
  Forall2 (λ c p, property_view σ c = Some p) cs props →
  JsoncInstance.values_loop σ this cs = gen_of_list (value_instance this <$> props).
Proof.
  induction 1 as [|c p cs props Hview _ IH]; [done|].
  apply property_view_Some in Hview
    as (pid & propertyNode & pcs & keyNode & -> & Hpid & Hpcs & Hk & Hkey & Hname & Hv).
  cbn [JsoncInstance.values_loop fmap list_fmap]. unfold deref.
  simpl. rewrite Hpid. simpl. rewrite Hpcs. simpl.
  rewrite Hk. simpl. rewrite Hkey. simpl. rewrite Hname. simpl.
  rewrite IH. unfold value_instance. by rewrite Hv.
Qed.

(** What the three iteration methods yield over a node with a view. *)
Lemma entries_view σ this props :
  object_view σ this = Some props →
  JsoncInstance.entries σ this = gen_of_list (omap (entry_of this) props).
Proof.
  intros [(n & nd & cs & Hn & Hnd & Hobj & Hcs & Hprops)|[-> (type & Htype & Hno)]]%object_view_Some.
  - unfold JsoncInstance.entries, JsoncInstance.typeOf, JsoncInstance.this_node, deref.
    rewrite Hn. simpl. rewrite Hnd. simpl. rewrite Hobj.
    rewrite decide_False by (by intros []).
    simpl. rewrite Hcs. simpl. by apply entries_loop_view.
  - unfold JsoncInstance.entries. rewrite Htype. simpl. by rewrite decide_True.
Qed.

Lemma keys_view σ this props :
  object_view σ this = Some props →
  JsoncInstance.keys σ this = gen_of_list (key_instance this <$> props).
Proof.
  intros [(n & nd & cs & Hn & Hnd & Hobj & Hcs & Hprops)|[-> (type & Htype & Hno)]]%object_view_Some.
  - unfold JsoncInstance.keys, JsoncInstance.typeOf, JsoncInstance.this_node, deref.
    rewrite Hn. simpl. rewrite Hnd. simpl. rewrite Hobj.
    rewrite decide_False by (by intros []).
    simpl. rewrite Hcs. simpl. by apply keys_loop_view.
  - unfold JsoncInstance.keys. rewrite Htype. simpl. by rewrite decide_True.
Qed.

Lemma values_view σ this props :
  object_view σ this = Some props →
  JsoncInstance.values σ this = gen_of_list (value_instance this <$> props).
Proof.
  intros [(n & nd & cs & Hn & Hnd & Hobj & Hcs & Hprops)|[-> (type & Htype & Hno)]]%object_view_Some.
  - unfold JsoncInstance.values, JsoncInstance.typeOf, JsoncInstance.this_node, deref.
    rewrite Hn. simpl. rewrite Hnd. simpl. rewrite Hobj.
    rewrite decide_False by (by intros []).
    simpl. rewrite Hcs. simpl. by apply values_loop_view.
  - unfold JsoncInstance.values. rewrite Htype. simpl. by rewrite decide_True.
Qed.

End views.

(** ** Stepping into an object *)

Section step.
Context `{Externals}.
Implicit Types (σ : Store) (this : JsoncInstance.t).
Implicit Types (p : NodeId * jsstring * option NodeId).

Lemma object_view_each σ this props :
  object_view σ this = Some props →
  Forall (λ p, ∃ c, property_view σ c = Some p) props.
Proof.
  intros [(n & nd & cs & _ & _ & _ & _ & Hprops)|[-> _]]%object_view_Some; [|done].
  induction Hprops; constructor; eauto.
Qed.

Lemma find_no_entry σ this props k :
  Forall (λ p, ∃ c, property_view σ c = Some p) props →
  (∀ p, p ∈ props → p.1.2 = k → p.2 = None) →
  find (fun entry => v ← JsoncInstance.value σ entry.1; Ok (same_string v k))
       (gen_of_list (omap (entry_of this) props)) = Ok None.
Proof.
  induction 1 as [|p props [c Hview] _ IH]; intros Hmissing; [done|].
  cbn [omap list_omap]. unfold entry_of at 1.
  assert (Hrest : ∀ q, q ∈ props → q.1.2 = k → q.2 = None).
  { intros q Hq. apply Hmissing. by right. }
  destruct (p.2) as [v|] eqn:Hv; [|by apply IH].
  cbn [gen_of_list foldr find fst].
  rewrite (value_key_instance _ _ c) by done. simpl.
  rewrite bool_decide_eq_false_2; [by apply IH|].
  intros Hk. specialize (Hmissing p (list_elem_of_here _ _) Hk). congruence.
Qed.

(** Stepping to a name that no property with a value carries. *)
Lemma step_missing σ this props k :
  object_view σ this = Some props →
  (∀ p, p ∈ props → p.1.2 = k → p.2 = None) →
  JsoncInstance.step σ this k = Ok (absent_instance this k).
Proof.
  intros Hview Hmissing. unfold JsoncInstance.step.
  rewrite (entries_view _ _ props) by done.
  by rewrite find_no_entry by eauto using object_view_each.
Qed.

Lemma some_key σ this props k :
  Forall (λ p, ∃ c, property_view σ c = Some p) props →
  some (fun propertyName => v ← JsoncInstance.value σ propertyName; Ok (same_string v k))
       (gen_of_list (key_instance this <$> props))
  = Ok (bool_decide (k ∈ (λ p, p.1.2) <$> props)).
Proof.
  unfold gen_of_list.
  induction 1 as [|p props [c Hview] _ IH]; [done|].
  cbn [fmap list_fmap foldr some].
  rewrite (value_key_instance _ _ c) by done. simpl.
  destruct (decide (p.1.2 = k)) as [Hk|Hk].
  - rewrite bool_decide_eq_true_2 by done.
    rewrite bool_decide_eq_true_2; [done|]. rewrite <- Hk. by left.
  - rewrite bool_decide_eq_false_2 by done. rewrite IH.
    f_equal. apply bool_decide_ext. rewrite elem_of_cons.
    split; [by right|]. intros [Heq|Hin]; [congruence|done].
Qed.

Lemma has_view σ this props k :
  object_view σ this = Some props →
  JsoncInstance.has σ this k = Ok (bool_decide (k ∈ (λ p, p.1.2) <$> props)).
Proof.
  intros Hview. unfold JsoncInstance.has.
  rewrite (keys_view _ _ props) by done.
  apply some_key. eauto using object_view_each.
Qed.

Lemma first_valued_Some k props p :
  first_valued k props = Some p → p ∈ props ∧ p.1.2 = k ∧ is_Some p.2.
Proof.
  induction props as [|q props IH]; [done|]. simpl. case_decide as Hq.
  - intros [= ->]. split; [by left|done].
  - intros Hp. destruct (IH Hp) as (? & ? & ?). split; [by right|done].
Qed.

Lemma first_valued_None k props :
  first_valued k props = None → ∀ p, p ∈ props → p.1.2 = k → p.2 = None.
Proof.
  induction props as [|q props IH]; [by intros _ p ?%elem_of_nil|]. simpl.
  case_decide as Hq; [done|]. intros Hrest p [->|Hp]%elem_of_cons Hk.
  - destruct (q.2) eqn:Hv; [|done]. by destruct Hq.
  - by apply IH.
Qed.

(** The search of [step] stops at the first property of the name that has
    a value. *)
Lemma find_first_valued σ this props k :
  Forall (λ p, ∃ c, property_view σ c = Some p) props →
  find (fun entry => v ← JsoncInstance.value σ entry.1; Ok (same_string v k))
       (gen_of_list (omap (entry_of this) props))
  = Ok (first_valued k props ≫= entry_of this).
Proof.
  induction 1 as [|p props [c Hview] _ IH]; [done|].
  cbn [omap list_omap first_valued]. unfold entry_of at 1.
  destruct (p.2) as [v|] eqn:Hv.
  - cbn [gen_of_list foldr find fst].
    rewrite (value_key_instance _ _ c) by done. simpl.
    destruct (decide (p.1.2 = k)) as [Hk|Hk].
    + rewrite bool_decide_eq_true_2 by done.
      rewrite decide_True by done. simpl. unfold entry_of. by rewrite Hv.
    + rewrite bool_decide_eq_false_2 by done.
      rewrite decide_False by (by intros [? _]). apply IH.
  - rewrite decide_False; [apply IH|]. intros [_ []]. done.
Qed.

Lemma step_view σ this props k :
  object_view σ this = Some props →
  JsoncInstance.step σ this k
  = Ok (from_option (value_instance this) (absent_instance this k) (first_valued k props)).
Proof.
  intros Hview. unfold JsoncInstance.step.
  rewrite (entries_view _ _ props) by done.
  rewrite find_first_valued by eauto using object_view_each. simpl.
  destruct (first_valued k props) as [p|] eqn:Hfirst; [|done]. simpl.
  apply first_valued_Some in Hfirst as (_ & _ & [v Hv]).
  unfold entry_of. by rewrite Hv.
Qed.

End step.







(** ** Annotations carried along by navigation *)

Section sharing.
Context `{Externals}.
Implicit Types (σ : Store) (this : JsoncInstance.t).

Local Ltac step_run :=
  unfold deref, defined; simpl;
  repeat match goal with
    | |- context [match ?x with _ => _ end] => destruct x; simpl
    | |- context [segment_of ?v] => destruct (segment_of v); simpl
    end.

Lemma entries_loop_shares σ this cs :
  yields (λ e, JsoncInstance.annotations e.1 = JsoncInstance.annotations this
               ∧ JsoncInstance.annotations e.2 = JsoncInstance.annotations this)
         (JsoncInstance.entries_loop σ this cs).
Proof. induction cs as [|c cs IH]; [done|]. cbn [JsoncInstance.entries_loop]. step_run; simpl; auto. Qed.

Lemma keys_loop_shares σ this cs :
  yields (λ i, JsoncInstance.annotations i = JsoncInstance.annotations this)
         (JsoncInstance.keys_loop σ this cs).
Proof. induction cs as [|c cs IH]; [done|]. cbn [JsoncInstance.keys_loop]. step_run; simpl; auto. Qed.

Lemma values_loop_shares σ this cs :
  yields (λ i, JsoncInstance.annotations i = JsoncInstance.annotations this)
         (JsoncInstance.values_loop σ this cs).
Proof. induction cs as [|c cs IH]; [done|]. cbn [JsoncInstance.values_loop]. step_run; simpl; auto. Qed.

Lemma iter_loop_shares this cs index :
  yields (λ i, JsoncInstance.annotations i = JsoncInstance.annotations this)
         (JsoncInstance.iter_loop this cs index).
Proof. revert index. induction cs as [|c cs IH]; intros index; [done|]. simpl. eauto. Qed.

Local Ltac open_generator :=
  match goal with
  | |- yields _ (run (?t ≫= _)) => destruct t; simpl; [|done]
  end;
  case_decide; simpl; [done|];
  unfold JsoncInstance.this_node; step_run; try done.

(** The Instances that the iteration methods and the jumps build carry
    the annotations of the Instance they are called on. *)
Lemma navigation_shares σ this :
  yields (λ e, JsoncInstance.annotations e.1 = JsoncInstance.annotations this
               ∧ JsoncInstance.annotations e.2 = JsoncInstance.annotations this)
         (JsoncInstance.entries σ this)
  ∧ yields (λ i, JsoncInstance.annotations i = JsoncInstance.annotations this)
           (JsoncInstance.keys σ this)
  ∧ yields (λ i, JsoncInstance.annotations i = JsoncInstance.annotations this)
           (JsoncInstance.values σ this)
  ∧ yields (λ i, JsoncInstance.annotations i = JsoncInstance.annotations this)
           (JsoncInstance.iter σ this)
  ∧ (∀ uri i, JsoncInstance.get σ this uri = Ok i
              → JsoncInstance.annotations i = JsoncInstance.annotations this)
  ∧ (∀ i, JsoncInstance.parent σ this = Ok i
          → JsoncInstance.annotations i = JsoncInstance.annotations this).
Proof.
  repeat split.
  - unfold JsoncInstance.entries. open_generator. apply entries_loop_shares.
  - unfold JsoncInstance.keys. open_generator. apply keys_loop_shares.
  - unfold JsoncInstance.values. open_generator. apply values_loop_shares.
  - unfold JsoncInstance.iter. open_generator. apply iter_loop_shares.
  - intros uri i. unfold JsoncInstance.get. case_decide; [done|].
    destruct (decodeURI (drop 1 uri)); simpl; [|done].
    destruct (collect (pointerSegments _)); simpl; [|done].
    by intros [= <-].
  - intros i. unfold JsoncInstance.parent.
    destruct (JsoncInstance.this_node σ this); simpl; [|done]. by intros [= <-].
Qed.

Lemma getInstanceAtPosition_shares `{Positions} σ this position :
  JsoncInstance.annotations (JsoncInstance.getInstanceAtPosition σ this position)
  = JsoncInstance.annotations this.
Proof. unfold JsoncInstance.getInstanceAtPosition. by destruct (findNodeAtOffset _ _ _). Qed.

(** The Instance for a missing property is the exception: its
    annotations are [undefined], whatever the source Instance carries. *)
Lemma step_missing_annotations σ this props k :
  object_view σ this = Some props →
  (∀ p, p ∈ props → p.1.2 = k → p.2 = None) →
  ∃ i, JsoncInstance.step σ this k = Ok i
       ∧ JsoncInstance.annotations i = None
       ∧ ∀ keyword dialectId value,
           JsoncInstance.annotation i keyword dialectId = Throw TypeError
           ∧ JsoncInstance.annotate i keyword value = Throw TypeError.
Proof.
  intros Hview Hmissing. exists (absent_instance this k).
  split; [by eapply step_missing|]. done.
Qed.

End sharing.

(** C5. The Instance that [step] returns for a missing property does not
    carry the annotations of the source Instance. On the document [{}],
    whose root Instance carries an empty annotations map, [step] of a
    missing name returns an Instance whose annotations are [undefined], so
    that reading or recording an annotation on it throws a [TypeError]. *)
Theorem step_missing_loses_annotations :
  JsoncInstance.annotations Examples.empty_root = Some ∅
  ∧ ∃ i, JsoncInstance.step Examples.empty_tree Examples.empty_root (js "a") = Ok i
         ∧ JsoncInstance.node i = None
         ∧ JsoncInstance.annotations i = None
         ∧ JsoncInstance.annotations i ≠ JsoncInstance.annotations Examples.empty_root
         ∧ JsoncInstance.annotation i (js "title") draft2020 = Throw TypeError
         ∧ JsoncInstance.annotate i (js "title") (JBool true) = Throw TypeError.
Proof.
  split; [done|]. eexists. split; [reflexivity|]. by repeat split.
Qed.

(** ** Recording and reading annotations *)

Section annotations.
Context `{Externals}.
Implicit Types (this : JsoncInstance.t).

Lemma annotation_Ok this keyword dialectId l :
  JsoncInstance.annotation this keyword dialectId = Ok l →
  ∃ m, JsoncInstance.annotations this = Some m
       ∧ l = default [] (m !! JsoncInstance.pointer this
                           ≫= (λ recorded, recorded !! getKeywordId keyword dialectId)).
Proof.
  unfold JsoncInstance.annotation.
  destruct (JsoncInstance.annotations this) as [m|]; simpl; [|done].
  intros [= <-]. by exists m.
Qed.

(** Recording under an identifier and reading it back through a keyword
    that resolves to it: the new value comes first. *)
Lemma annotation_annotate this keyword dialectId value l :
  JsoncInstance.annotation this keyword dialectId = Ok l →
  ∃ this', JsoncInstance.annotate this (getKeywordId keyword dialectId) value = Ok this'
           ∧ JsoncInstance.annotation this' keyword dialectId = Ok (value :: l)
           ∧ JsoncInstance.node this' = JsoncInstance.node this
           ∧ JsoncInstance.pointer this' = JsoncInstance.pointer this.
Proof.
  intros (m & Hm & ->)%annotation_Ok.
  unfold JsoncInstance.annotate, JsoncInstance.annotation. rewrite Hm. simpl.
  eexists. split; [done|]. simpl. split; [|done].
  rewrite lookup_insert_eq. simpl. rewrite lookup_insert_eq. simpl.
  by destruct (m !! JsoncInstance.pointer this).
Qed.

(** Recording under a key leaves what is read through a keyword that
    resolves to another key as it was. *)
Lemma annotation_annotate_other this key keyword dialectId value this' :
  getKeywordId keyword dialectId ≠ key →
  JsoncInstance.annotate this key value = Ok this' →
  JsoncInstance.annotation this' keyword dialectId
  = JsoncInstance.annotation this keyword dialectId.
Proof.
  intros Hother. unfold JsoncInstance.annotate, JsoncInstance.annotation.
  destruct (JsoncInstance.annotations this) as [m|]; simpl; [|done].
  intros [= <-]. simpl. f_equal.
  rewrite lookup_insert_eq. simpl. rewrite lookup_insert_ne by done.
  by destruct (m !! JsoncInstance.pointer this).
Qed.

End annotations.

(** C1. Annotations are prepended, never overwritten. [annotate] stores the
    value under the key it is given, without resolving it, and
    [annotation] reads under the identifier that the keyword resolves to
    in the dialect. So after [b = a.annotate(id, v1)] and
    [c = b.annotate(id, v2)], where [id] is the identifier of [kw] in the
    dialect and [a] has nothing recorded for it at its pointer,
    [c.annotation(kw)] is [[v2, v1]], [b.annotation(kw)] is [[v1]] and
    [a.annotation(kw)] is still the empty list. *)
Theorem annotate_prepends `{Externals} (a : JsoncInstance.t)
    (kw dialectId : jsstring) (v1 v2 : JsValue) :
  JsoncInstance.annotation a kw dialectId = Ok [] →
  ∃ b c,
    JsoncInstance.annotate a (getKeywordId kw dialectId) v1 = Ok b
    ∧ JsoncInstance.annotate b (getKeywordId kw dialectId) v2 = Ok c
    ∧ JsoncInstance.annotation c kw dialectId = Ok [v2; v1]
    ∧ JsoncInstance.annotation b kw dialectId = Ok [v1]
    ∧ JsoncInstance.annotation a kw dialectId = Ok []
    ∧ JsoncInstance.node c = JsoncInstance.node a
    ∧ JsoncInstance.pointer c = JsoncInstance.pointer a.
Proof.
  intros Ha.
  destruct (annotation_annotate a kw dialectId v1 [] Ha) as (b & Hb & Hb' & Hnode & Hptr).
  destruct (annotation_annotate b kw dialectId v2 [v1] Hb') as (c & Hc & Hc' & Hnode' & Hptr').
  exists b, c. repeat split; try done; congruence.
Qed.

Lemma annotate_prepends_witness :
  ∃ b c,
    JsoncInstance.annotate Examples.nested_root
      (js "https://json-schema.org/keyword/title") (JNum 1) = Ok b
    ∧ JsoncInstance.annotate b (js "https://json-schema.org/keyword/title") (JNum 2) = Ok c
    ∧ JsoncInstance.annotation c (js "title") draft2020 = Ok [JNum 2; JNum 1]
    ∧ JsoncInstance.annotation b (js "title") draft2020 = Ok [JNum 1]
    ∧ JsoncInstance.annotation Examples.nested_root (js "title") draft2020 = Ok []
    ∧ JsoncInstance.node c = JsoncInstance.node Examples.nested_root
    ∧ JsoncInstance.pointer c = JsoncInstance.pointer Examples.nested_root.
Proof.
  exact (annotate_prepends Examples.nested_root (js "title") draft2020 (JNum 1) (JNum 2)
           eq_refl).
Defined.

(** Recording under a short name is not read back through that name: in
    the 2020-12 dialect [title] resolves to an identifier that differs
    from it, so the two values recorded under [title] are not found. *)
Lemma annotate_short_name_not_read :
  ∃ b c,
    JsoncInstance.annotate Examples.nested_root (js "title") (JNum 1) = Ok b
    ∧ JsoncInstance.annotate b (js "title") (JNum 2) = Ok c
    ∧ JsoncInstance.annotation c (js "title") draft2020 = Ok []
    ∧ JsoncInstance.annotation c (js "title") draft2020 ≠ Ok [JNum 2; JNum 1].
Proof.
  destruct (JsoncInstance.annotate Examples.nested_root (js "title") (JNum 1))
    as [b|] eqn:Hb; [|done].
  destruct (JsoncInstance.annotate b (js "title") (JNum 2)) as [c|] eqn:Hc.
  - exists b, c. split; [done|]. split; [done|].
    assert (Hread : JsoncInstance.annotation c (js "title") draft2020 = Ok []).
    { rewrite (annotation_annotate_other b (js "title") _ _ (JNum 2)) by done.
      by rewrite (annotation_annotate_other Examples.nested_root (js "title") _ _ (JNum 1)). }
    by rewrite Hread.
  - injection Hb as <-. discriminate Hc.
Qed.

(** ** Jumping by pointer *)

Section get.
Context `{Externals}.
Implicit Types (σ : Store) (this : JsoncInstance.t).

(** [get] on a fragment: decode, split, look up from the root of the
    view. *)
Lemma get_fragment σ this fragment :
  JsoncInstance.get σ this ("#" :: fragment) =
  pointer ← from_option Ok (Throw URIError) (decodeURI fragment);
  segments ← collect (pointerSegments pointer);
  Ok (JsoncInstance.new (JsoncInstance.textDocument this) (JsoncInstance.root this)
        (findNodeAtLocation σ (JsoncInstance.root this) (SegStr <$> segments))
        pointer (JsoncInstance.annotations this)).
Proof. unfold JsoncInstance.get. by rewrite decide_False by (by intros []). Qed.

Lemma get_no_fragment σ this uri :
  uri !! 0%nat ≠ Some "#" →
  JsoncInstance.get σ this uri = Throw (NoJsonDocumentFound (toAbsoluteUri uri)).
Proof. intros Huri. unfold JsoncInstance.get. by rewrite decide_True. Qed.

Lemma pointerSegments_well_formed pointer :
  pointer = [] ∨ pointer !! 0%nat = Some "/" →
  ∃ segments, collect (pointerSegments pointer) = Ok segments.
Proof.
  intros Hwf. unfold pointerSegments. rewrite decide_False.
  - apply segments_loop_returns.
  - intros [Hlen Hfirst]. destruct Hwf as [->|Hslash]; [by vm_compute in Hlen|done].
Qed.

Lemma pointerSegments_malformed pointer e :
  collect (pointerSegments pointer) = Throw e →
  pointer ≠ [] ∧ pointer !! 0%nat ≠ Some "/" ∧ e = InvalidJsonPointer pointer.
Proof.
  unfold pointerSegments. case_decide as Hbad.
  - intros [= <-]. destruct Hbad as [Hlen Hfirst]. split; [|done].
    intros ->. by vm_compute in Hlen.
  - destruct (segments_loop_returns pointer 1 0) as [l Hl]. congruence.
Qed.

(** What [asEmbedded] returns, when it returns. *)
Lemma asEmbedded_Ok σ this emb σ' :
  JsoncInstance.asEmbedded σ this = Ok (emb, σ') →
  emb = JsoncInstance.new (JsoncInstance.textDocument this) (JsoncInstance.node this)
          (JsoncInstance.node this) [] (Some ∅).
Proof.
  unfold JsoncInstance.asEmbedded, deref, defined.
  destruct (JsoncInstance.node this) as [n|]; simpl; [|done].
  destruct (σ !! n) as [nd|]; simpl; [|done].
  destruct (node_parent nd) as [p|]; simpl; [|done].
  destruct (σ !! p) as [parent|]; simpl; [|done].
  destruct (node_children parent); simpl; [|done].
  by intros [= <- _].
Qed.

(** The Instances that [annotatedWith] collects are found by [get],
    from the root of the view. *)
Lemma annotatedWith_roots σ this keyword dialectId instances :
  JsoncInstance.annotatedWith σ this keyword dialectId = Ok instances →
  Forall (λ i, JsoncInstance.root i = JsoncInstance.root this
               ∧ ∃ segments,
                   collect (pointerSegments (JsoncInstance.pointer i)) = Ok segments
                   ∧ JsoncInstance.node i
                     = findNodeAtLocation σ (JsoncInstance.root this) (SegStr <$> segments))
         instances.
Proof.
  unfold JsoncInstance.annotatedWith.
  destruct (JsoncInstance.annotations this) as [m|]; [|by intros [= <-]].
  generalize (filter (λ instancePointer,
                        is_Some (m !! instancePointer
                                   ≫= (.!! getKeywordId keyword dialectId)))
                     (map_to_list m).*1).
  intros pointers. revert instances.
  induction pointers as [|pointer pointers IH]; intros instances; simpl.
  - by intros [= <-].
  - rewrite get_fragment.
    destruct (decodeURI pointer) as [decoded|]; simpl; [|done].
    destruct (collect (pointerSegments decoded)) as [segments|] eqn:Hsegments;
      simpl; [|done].
    destruct (mapM _ pointers) as [rest|]; simpl; [|done].
    intros [= <-]. constructor; [|by apply IH].
    split; [done|]. by exists segments.
Qed.

End get.

(** C3. [get] resolves a fragment against the root of the view it is
    called on: the pointer is decoded from the fragment, split into
    segments, and looked up from the [root] field of the Instance. When
    the Instance was produced by [asEmbedded], that root is the embedded
    node, so the pointer addresses a location inside the embedded subtree. *)
Theorem get_resolves_in_view `{Externals} (σ : Store) (this : JsoncInstance.t)
    (fragment pointer : jsstring) (segments : list jsstring) :
  decodeURI fragment = Some pointer →
  collect (pointerSegments pointer) = Ok segments →
  JsoncInstance.get σ this ("#" :: fragment)
  = Ok (JsoncInstance.new (JsoncInstance.textDocument this) (JsoncInstance.root this)
          (findNodeAtLocation σ (JsoncInstance.root this) (SegStr <$> segments))
          pointer (JsoncInstance.annotations this))
  ∧ ∀ emb σ',
      JsoncInstance.asEmbedded σ this = Ok (emb, σ') →
      JsoncInstance.root emb = JsoncInstance.node this
      ∧ JsoncInstance.get σ' emb ("#" :: fragment)
        = Ok (JsoncInstance.new (JsoncInstance.textDocument this) (JsoncInstance.node this)
                (findNodeAtLocation σ' (JsoncInstance.node this) (SegStr <$> segments))
                pointer (Some ∅)).
Proof.
  intros Hdecode Hsegments. split.
  - rewrite get_fragment, Hdecode. simpl. by rewrite Hsegments.
  - intros emb σ' ->%asEmbedded_Ok. split; [done|].
    rewrite get_fragment, Hdecode. simpl. by rewrite Hsegments.
Qed.

Lemma get_resolves_in_view_witness :
  JsoncInstance.get Examples.nested_tree Examples.nested_a (js "#/a/b")
  = Ok (JsoncInstance.new Examples.nested_text (Some 0%nat) (Some 6%nat) (js "/a/b") (Some ∅))
  ∧ JsoncInstance.root Examples.nested_embedded = Some 3%nat
  ∧ JsoncInstance.get Examples.nested_after Examples.nested_embedded (js "#/a/b")
    = Ok (JsoncInstance.new Examples.nested_text (Some 3%nat) None (js "/a/b") (Some ∅)).
Proof.
  assert (Hdecode : decodeURI (js "/a/b") = Some (js "/a/b")) by reflexivity.
  assert (Hsegments : collect (pointerSegments (js "/a/b")) = Ok [js "a"; js "b"])
    by reflexivity.
  destruct (get_resolves_in_view Examples.nested_tree Examples.nested_a
              (js "/a/b") (js "/a/b") [js "a"; js "b"] Hdecode Hsegments) as [Hget Hemb].
  split; [exact Hget|].
  apply (Hemb Examples.nested_embedded Examples.nested_after). reflexivity.
Defined.

(** On the Instance embedded at [/a] of [{"a": {"b": 1}}], whose document
    root is still node 0, [get] of [#/b] finds the number inside the
    embedded object, where the whole document has nothing at [/b]. *)
Lemma get_on_embedded_not_document_root :
  ∃ a emb σ' found,
    JsoncInstance.step Examples.nested_tree Examples.nested_root (js "a") = Ok a
    ∧ JsoncInstance.asEmbedded Examples.nested_tree a = Ok (emb, σ')
    ∧ document_root σ' emb = Some 0%nat
    ∧ JsoncInstance.get σ' emb (js "#/b") = Ok found
    ∧ JsoncInstance.node found = Some 6%nat
    ∧ findNodeAtLocation σ' (document_root σ' emb) [SegStr (js "b")] = None
    ∧ JsoncInstance.node found
      ≠ findNodeAtLocation σ' (document_root σ' emb) [SegStr (js "b")].
Proof.
  do 4 eexists. split; [reflexivity|]. split; [reflexivity|].
  split; [reflexivity|]. split; [reflexivity|]. by repeat split.
Qed.

(** C7. [get] raises its resolution error exactly when the reference does
    not begin with [#]. On a reference [#fragment] it decodes the fragment
    with [decodeURI]: when that succeeds with a well-formed pointer, [get]
    returns the Instance carrying the decoded pointer and the node found
    for it from the root of the view, which is absent when the pointer
    addresses no node; the only errors on such a reference are the
    [URIError] of [decodeURI] and the malformed-pointer error. *)
Theorem get_raises `{Externals} (σ : Store) (this : JsoncInstance.t) (uri : jsstring) :
  (uri !! 0%nat ≠ Some "#"
   ↔ ∃ at_uri, JsoncInstance.get σ this uri = Throw (NoJsonDocumentFound at_uri))
  ∧ (∀ fragment pointer,
       uri = "#" :: fragment →
       decodeURI fragment = Some pointer →
       pointer = [] ∨ pointer !! 0%nat = Some "/" →
       ∃ segments,
         collect (pointerSegments pointer) = Ok segments
         ∧ JsoncInstance.get σ this uri
           = Ok (JsoncInstance.new (JsoncInstance.textDocument this) (JsoncInstance.root this)
                   (findNodeAtLocation σ (JsoncInstance.root this) (SegStr <$> segments))
                   pointer (JsoncInstance.annotations this)))
  ∧ (∀ fragment e,
       uri = "#" :: fragment →
       JsoncInstance.get σ this uri = Throw e →
       (decodeURI fragment = None ∧ e = URIError)
       ∨ (∃ pointer, decodeURI fragment = Some pointer
                     ∧ pointer ≠ [] ∧ pointer !! 0%nat ≠ Some "/"
                     ∧ e = InvalidJsonPointer pointer)).
Proof.
  assert (Herrors : ∀ fragment e,
             JsoncInstance.get σ this ("#" :: fragment) = Throw e →
             (decodeURI fragment = None ∧ e = URIError)
             ∨ (∃ pointer, decodeURI fragment = Some pointer
                           ∧ pointer ≠ [] ∧ pointer !! 0%nat ≠ Some "/"
                           ∧ e = InvalidJsonPointer pointer)).
  { intros fragment e. rewrite get_fragment.
    destruct (decodeURI fragment) as [pointer|]; simpl.
    - destruct (collect (pointerSegments pointer)) as [segments|e'] eqn:Hsegments;
        simpl; [done|].
      intros [= <-]. right. exists pointer.
      by destruct (pointerSegments_malformed _ _ Hsegments) as (? & ? & ?).
    - intros [= <-]. by left. }
  split; [|split].
  - split.
    + intros Huri. eexists. by apply get_no_fragment.
    + intros [at_uri Hget] Hfirst.
      destruct uri as [|c fragment]; [done|]. injection Hfirst as ->.
      destruct (Herrors _ _ Hget) as [[_ ?]|(? & _ & _ & _ & ?)]; done.
  - intros fragment pointer -> Hdecode Hwf.
    destruct (pointerSegments_well_formed pointer Hwf) as [segments Hsegments].
    exists segments. split; [done|].
    rewrite get_fragment, Hdecode. simpl. by rewrite Hsegments.
  - intros fragment e ->. apply Herrors.
Qed.

Lemma get_raises_witness :
  (∃ at_uri, JsoncInstance.get Examples.nested_tree Examples.nested_root (js "/a")
             = Throw (NoJsonDocumentFound at_uri))
  ∧ (∃ segments,
       collect (pointerSegments (js "/c")) = Ok segments
       ∧ JsoncInstance.get Examples.nested_tree Examples.nested_root (js "#/c")
         = Ok (JsoncInstance.new Examples.nested_text (Some 0%nat)
                 (findNodeAtLocation Examples.nested_tree (Some 0%nat) (SegStr <$> segments))
                 (js "/c") (Some ∅))).
Proof.
  split.
  - apply (proj1 (get_raises Examples.nested_tree Examples.nested_root (js "/a"))).
    discriminate.
  - apply (proj1 (proj2 (get_raises Examples.nested_tree Examples.nested_root (js "#/c")))
             (js "/c") (js "/c")); [reflexivity|reflexivity|by right].
Defined.

(** A fragment that is a well-formed pointer and that [decodeURI] rejects:
    [get] raises the [URIError]. *)
Lemma get_undecodable_fragment :
  collect (pointerSegments (js "/%")) = Ok [js "%"]
  ∧ JsoncInstance.get Examples.nested_tree Examples.nested_root (js "#/%") = Throw URIError.
Proof. by split. Qed.

(** ** Embedding *)

Section embedding.
Context `{Externals}.
Implicit Types (σ : Store) (this : JsoncInstance.t).

(** Embedding the value of a property: the Instance returned has the
    node as root and as node, the empty pointer and an empty annotations
    map, and slot 1 of the property node is overwritten with a new
    zero-length node at the offset of the value. *)
Lemma asEmbedded_under_property σ this n nd p parent cs :
  JsoncInstance.node this = Some n →
  σ !! n = Some nd →
  node_parent nd = Some p →
  σ !! p = Some parent →
  node_type parent = NProperty →
  node_children parent = Some cs →
  JsoncInstance.asEmbedded σ this
  = Ok (JsoncInstance.new (JsoncInstance.textDocument this) (Some n) (Some n) [] (Some ∅),
        <[p := {| node_type := NProperty; node_offset := node_offset parent;
                  node_length := node_length parent; node_value := node_value parent;
                  node_children := Some (set_index cs 1 (length σ));
                  node_parent := node_parent parent |}]>
          (σ ++ [placeholder (node_offset nd)])).
Proof.
  intros Hn Hnd Hp Hparent Htype Hcs.
  unfold JsoncInstance.asEmbedded, deref. rewrite Hn. simpl. rewrite Hnd. simpl.
  rewrite Hp. simpl. rewrite Hparent. simpl. rewrite Hcs. simpl.
  by rewrite Htype, decide_True.
Qed.

End embedding.

(** C4. On the document [{"a": {"b": 1}}], [asEmbedded] on the Instance at
    [/a] returns an Instance whose root and node are both that node, whose
    pointer is empty, whose annotations are a new empty map whatever the
    source Instance carried, and whose [value()] is [{"b": 1}]. It also
    overwrites the value slot of the property [a] with a new node of
    length zero at the offset of the value, so that stepping from the
    original root to [a] afterwards reaches that placeholder, whose
    [value()] is not [{"b": 1}]: it has no cached value, and parsing its
    empty slice throws. *)
Theorem asEmbedded_nested_document :
  let σ := Examples.nested_tree in
  let σ' := Examples.nested_after in
  let a := Examples.nested_a in
  let emb := Examples.nested_embedded in
  JsoncInstance.step σ Examples.nested_root (js "a") = Ok a
  ∧ JsoncInstance.pointer a = js "/a"
  ∧ JsoncInstance.value σ a = Ok (Some (JObj [(js "b", JNum 1)]))
  ∧ JsoncInstance.asEmbedded σ a = Ok (emb, σ')
  ∧ JsoncInstance.root emb = JsoncInstance.node a
  ∧ JsoncInstance.node emb = JsoncInstance.node a
  ∧ JsoncInstance.pointer emb = []
  ∧ JsoncInstance.annotations emb = Some ∅
  ∧ (∀ annotations,
       JsoncInstance.asEmbedded σ
         (JsoncInstance.new Examples.nested_text (Some 0%nat) (Some 3%nat) (js "/a")
            annotations)
       = Ok (emb, σ'))
  ∧ JsoncInstance.value σ' emb = Ok (Some (JObj [(js "b", JNum 1)]))
  ∧ σ' !! 1%nat = Some (Examples.inner NProperty 1 13 [2; 7]%nat (Some 0%nat))
  ∧ σ' !! 7%nat = Some (placeholder 6)
  ∧ node_offset <$> σ !! 3%nat = Some 6%Z
  ∧ σ' !! 7%nat
    = Some {| node_type := NBoolean; node_offset := 6; node_length := 0;
              node_value := None; node_children := None; node_parent := None |}
  ∧ ∃ slot,
      JsoncInstance.step σ' Examples.nested_root (js "a") = Ok slot
      ∧ JsoncInstance.node slot = Some 7%nat
      ∧ JsoncInstance.typeOf σ' slot = Ok (js "boolean")
      ∧ JsoncInstance.textLength σ' slot = Ok 0%Z
      ∧ JsoncInstance.startPosition σ' slot
        = JsoncInstance.startPosition σ Examples.nested_a
      ∧ JsoncInstance.startPosition σ' slot = Ok {| line := 0; character := 6 |}
      ∧ JsoncInstance.value σ' slot = Throw SyntaxError.
Proof.
  repeat (split; [reflexivity|]). eexists. by repeat split.
Qed.

(** ** Stepping and materializing *)

Section consistency.
Context `{Externals}.
Implicit Types (σ : Store) (this : JsoncInstance.t).

(** [value()] on a present node: the cached value, or the source slice
    of the node parsed again. *)
Lemma value_present σ this n nd :
  JsoncInstance.node this = Some n →
  σ !! n = Some nd →
  JsoncInstance.value σ this =
  match node_value nd with
  | Some v => Ok (Some v)
  | None =>
      Some <$> JSON_parse (slice (getText (JsoncInstance.textDocument this))
                             (node_offset nd) (node_offset nd + node_length nd))
  end.
Proof.
  intros Hn Hnd. unfold JsoncInstance.value, deref. rewrite Hn, Hnd. simpl.
  destruct (node_value nd); [done|]. by destruct (JSON_parse _).
Qed.

End consistency.


(** ** Strict JSON text: the reference parser, and a tree that lays the
    text out *)

Section parser.

Local Open Scope Z_scope.

Local Ltac each_char c := destruct c as [[] [] [] [] [] [] [] []].

(** *** One step of each function of the parser *)

Lemma string_body_step c r acc :
  Json.string_body (c :: r) acc =
  if decide (c = "034") then Ok (reverse acc, r)
  else if decide (c = "\") then
    match r with
    | [] => Throw SyntaxError
    | e :: r' =>
        match simple_escape e with
        | Some x => Json.string_body r' (x :: acc)
        | None =>
            if decide (e = "u") then
              match r' with
              | h1 :: h2 :: h3 :: h4 :: r'' =>
                  match Json.hex h1, Json.hex h2, Json.hex h3, Json.hex h4 with
                  | Some a, Some b, Some c, Some d =>
                      if decide (a = 0 ∧ b = 0)
                      then Json.string_body r'' (Json.char_of (16 * c + d) :: acc)
                      else Throw OutOfModel
                  | _, _, _, _ => Throw SyntaxError
                  end
              | _ => Throw SyntaxError
              end
            else Throw SyntaxError
        end
    end
  else if decide (nat_of_ascii c < 32)%nat then Throw SyntaxError
  else Json.string_body r (c :: acc).
Proof.
  each_char c; try reflexivity.
  destruct r as [|e r']; [reflexivity|]. each_char e; reflexivity.
Qed.

Lemma number_step s :
  Json.number s =
  match s with
  | c :: t => if decide (c = "-") then unsigned true t else unsigned false s
  | [] => Throw SyntaxError
  end.
Proof.
  assert (Hrest : ∀ (negative : bool) n rest,
    match rest with
    | "." :: _ | "e" :: _ | "E" :: _ => Throw OutOfModel
    | _ => if decide (n ≤ 9007199254740991)
           then Ok (JNum (if negative then - n else n), rest)
           else Throw OutOfModel
    end
    = if starts_fraction rest then Throw OutOfModel
      else if decide (n ≤ 9007199254740991)
           then Ok (JNum (if negative then - n else n), rest)
           else Throw OutOfModel).
  { intros negative n [|c rest]; [reflexivity|]. each_char c; reflexivity. }
  assert (Hunsigned : ∀ negative s1,
    match s1 with
    | c :: t =>
        match Json.digit c with
        | Some d =>
            let '(n, rest) := if decide (d = 0) then (0, t) else Json.digits t d in
            match rest with
            | "." :: _ | "e" :: _ | "E" :: _ => Throw OutOfModel
            | _ => if decide (n ≤ 9007199254740991)
                   then Ok (JNum (if negative : bool then - n else n), rest)
                   else Throw OutOfModel
            end
        | None => Throw SyntaxError
        end
    | [] => Throw SyntaxError
    end = unsigned negative s1).
  { intros negative [|c t]; [reflexivity|]. unfold unsigned.
    destruct (Json.digit c) as [d|]; [|reflexivity].
    destruct (if decide (d = 0) then (0, t) else Json.digits t d) as [n rest].
    apply Hrest. }
  destruct s as [|c t]; [reflexivity|].
  unfold Json.number.
  each_char c;
    match goal with
    | |- _ = if decide (?c = _) then _ else _ =>
        first [exact (Hunsigned true t) | exact (Hunsigned false (c :: t))]
    end.
Qed.

Lemma value_step f s :
  Json.value (S f) s =
  let s' := Json.skip_ws s in
  match strip (js "null") s' with
  | Some r => Ok (JNull, r)
  | None =>
  match strip (js "true") s' with
  | Some r => Ok (JBool true, r)
  | None =>
  match strip (js "false") s' with
  | Some r => Ok (JBool false, r)
  | None =>
  match s' with
  | c :: r =>
      if decide (c = "034") then '(str, r') ← Json.string_body r []; Ok (JStr str, r')
      else if decide (c = "[") then
        if decide (head (Json.skip_ws r) = Some "]")
        then Ok (JArr [], tail (Json.skip_ws r))
        else '(items, r') ← Json.elements f r; Ok (JArr items, r')
      else if decide (c = "{") then
        if decide (head (Json.skip_ws r) = Some "}")
        then Ok (JObj [], tail (Json.skip_ws r))
        else '(pairs, r') ← Json.members f r;
             Ok (JObj (foldl (fun acc kv => set_member kv.1 kv.2 acc) [] pairs), r')
      else Json.number s'
  | [] => Json.number s'
  end end end end.
Proof.
  cbn [Json.value]. cbv zeta. destruct (Json.skip_ws s) as [|c r]; [reflexivity|].
  each_char c; try reflexivity;
    first
      [ solve [destruct (Json.skip_ws r) as [|c r']; [reflexivity|]; each_char c; reflexivity]
      | solve [do 4 (try (destruct r as [|c r]; [reflexivity|]; each_char c;
                          try reflexivity))] ].
Qed.

Lemma elements_step f s :
  Json.elements (S f) s =
  '(v, r) ← Json.value f s;
  match Json.skip_ws r with
  | c :: r' =>
      if decide (c = ",") then '(vs, r'') ← Json.elements f r'; Ok (v :: vs, r'')
      else if decide (c = "]") then Ok ([v], r')
      else Throw SyntaxError
  | [] => Throw SyntaxError
  end.
Proof.
  cbn [Json.elements]. destruct (Json.value f s) as [[v r]|]; [|reflexivity].
  cbn [mbind result_bind]. destruct (Json.skip_ws r) as [|c r']; [reflexivity|].
  each_char c; reflexivity.
Qed.

Lemma members_step f s :
  Json.members (S f) s =
  match Json.skip_ws s with
  | q :: r =>
      if decide (q = "034") then
        '(k, r1) ← Json.string_body r [];
        match Json.skip_ws r1 with
        | c1 :: r2 =>
            if decide (c1 = ":") then
              '(v, r3) ← Json.value f r2;
              match Json.skip_ws r3 with
              | c3 :: r4 =>
                  if decide (c3 = ",")
                  then '(kvs, r5) ← Json.members f r4; Ok ((k, v) :: kvs, r5)
                  else if decide (c3 = "}") then Ok ([(k, v)], r4)
                  else Throw SyntaxError
              | [] => Throw SyntaxError
              end
            else Throw SyntaxError
        | [] => Throw SyntaxError
        end
      else Throw SyntaxError
  | [] => Throw SyntaxError
  end.
Proof.
  cbn [Json.members]. destruct (Json.skip_ws s) as [|q r]; [reflexivity|].
  each_char q; try reflexivity.
  destruct (Json.string_body r []) as [[k r1]|]; [|reflexivity].
  cbn [mbind result_bind]. destruct (Json.skip_ws r1) as [|c1 r2]; [reflexivity|].
  each_char c1; try reflexivity.
  destruct (Json.value f r2) as [[v r3]|]; [|reflexivity].
  cbn [mbind result_bind]. destruct (Json.skip_ws r3) as [|c3 r4]; [reflexivity|].
  each_char c3; reflexivity.
Qed.

End parser.

Section locality.

(** *** What a function of the parser consumed does not depend on what
    follows *)

Lemma skip_ws_length s : length (Json.skip_ws s) ≤ length s.
Proof. induction s as [|c t IH]; simpl; [done|]. destruct (Json.is_ws c); simpl; lia. Qed.

Lemma skip_ws_app s c r b : Json.skip_ws s = c :: r → Json.skip_ws (s ++ b) = c :: r ++ b.
Proof.
  induction s as [|d t IH]; simpl; [done|].
  destruct (Json.is_ws d); [done|]. by intros [= -> ->].
Qed.

Lemma skip_ws_head s c r : Json.skip_ws s = c :: r → Json.is_ws c = false.
Proof.
  induction s as [|d t IH]; simpl; [done|].
  destruct (Json.is_ws d) eqn:Hd; [done|]. by intros [= <- _].
Qed.

Lemma strip_app p s r b : strip p s = Some r → strip p (s ++ b) = Some (r ++ b).
Proof.
  revert s. induction p as [|q p IH]; intros s; simpl; [by intros [= ->]|].
  destruct s as [|c t]; [done|]. simpl. case_decide; [apply IH|done].
Qed.

Lemma strip_length p s r : strip p s = Some r → length s = (length p + length r)%nat.
Proof.
  revert s. induction p as [|q p IH]; intros s; simpl; [by intros [= ->]|].
  destruct s as [|c t]; [done|]. case_decide; [|done]. intros Hr%IH. simpl. lia.
Qed.

Lemma digits_local s acc n r :
  Json.digits s acc = (n, r) →
  length r ≤ length s
  ∧ ∀ b, (r = [] → ends_value b) →
         Json.digits (s ++ b) acc = (n, r ++ b).
Proof.
  revert acc. induction s as [|c t IH]; intros acc; simpl.
  - intros [= <- <-]. split; [done|]. intros [|d b] Hb; [done|]. simpl.
    specialize (Hb eq_refl). simpl in Hb.
    apply andb_prop_elim in Hb as [Hd%bool_decide_unpack _]. by rewrite Hd.
  - destruct (Json.digit c) as [d|].
    + intros [Hlen Hext]%IH. split; [lia|done].
    + intros [= <- <-]. split; [done|]. done.
Qed.

Lemma starts_fraction_app r b :
  (r = [] → ends_value b) → starts_fraction (r ++ b) = starts_fraction r.
Proof.
  destruct r as [|c r]; [|done]. intros Hb. specialize (Hb eq_refl).
  destruct b as [|d b]; [done|]. simpl in *.
  apply andb_prop_elim in Hb as [_ Hb]. by destruct (bool_decide _).
Qed.

Lemma unsigned_local negative s v r :
  unsigned negative s = Ok (v, r) →
  length r < length s
  ∧ ∀ b, (r = [] → ends_value b) → unsigned negative (s ++ b) = Ok (v, r ++ b).
Proof.
  unfold unsigned. destruct s as [|c t]; [done|]. simpl.
  destruct (Json.digit c) as [d|] eqn:Hc; [|done].
  destruct (decide (d = 0)%Z) as [->|Hd].
  - destruct (starts_fraction t) eqn:Hfraction; [done|].
    case_decide; [|done]. intros [= <- <-]. split; [lia|]. intros b Hb.
    by rewrite starts_fraction_app, Hfraction by done.
  - destruct (Json.digits t d) as [n rest] eqn:Hdigits.
    destruct (starts_fraction rest) eqn:Hfraction; [done|].
    case_decide; [|done]. intros [= <- <-].
    apply digits_local in Hdigits as [Hlen Hext]. split; [lia|]. intros b Hb.
    rewrite Hext by done. rewrite starts_fraction_app, Hfraction by done.
    by rewrite decide_True.
Qed.

Lemma number_local s v r :
  Json.number s = Ok (v, r) →
  length r < length s
  ∧ (∃ c t, s = c :: t ∧ (c = "-" ∨ is_Some (Json.digit c)))
  ∧ ∀ b, (r = [] → ends_value b) → Json.number (s ++ b) = Ok (v, r ++ b).
Proof.
  rewrite number_step. destruct s as [|c t]; [done|]. case_decide as Hc.
  - intros [Hlen Hext]%unsigned_local. split; [simpl; lia|]. split; [by eauto|].
    intros b Hb. rewrite number_step. simpl. rewrite decide_True by done. by apply Hext.
  - intros Hunsigned. pose proof Hunsigned as [Hlen Hext]%unsigned_local.
    split; [done|]. split.
    + exists c, t. split; [done|]. right. unfold unsigned in Hunsigned.
      by destruct (Json.digit c).
    + intros b Hb. rewrite number_step. simpl. rewrite ?decide_False by done.
      by apply (Hext b).
Qed.

Lemma string_body_local s acc x r :
  Json.string_body s acc = Ok (x, r) →
  length r < length s
  ∧ ∀ b, Json.string_body (s ++ b) acc = Ok (x, r ++ b).
Proof.
  remember (length s) as n eqn:Hn. revert s acc Hn.
  induction n as [n IH] using lt_wf_ind. intros s acc -> Hbody.
  destruct s as [|c t]; [done|]. rewrite string_body_step in Hbody.
  assert (Hrec : ∀ t' acc',
    length t' ≤ length t →
    Json.string_body t' acc' = Ok (x, r) →
    length r < length t'
    ∧ ∀ b, Json.string_body (t' ++ b) acc' = Ok (x, r ++ b)).
  { intros t' acc' Hle. apply (IH (length t')); [simpl; lia|done]. }
  cut (length r ≤ length t
       ∧ ∀ b, (if decide (c = "034") then Ok (reverse acc, t ++ b)
               else if decide (c = "\") then
                 match t ++ b with
                 | [] => Throw SyntaxError
                 | e :: r' =>
                     match simple_escape e with
                     | Some x => Json.string_body r' (x :: acc)
                     | None =>
                         if decide (e = "u") then
                           match r' with
                           | h1 :: h2 :: h3 :: h4 :: r'' =>
                               match Json.hex h1, Json.hex h2, Json.hex h3, Json.hex h4 with
                               | Some a, Some b, Some c, Some d =>
                                   if decide (a = 0 ∧ b = 0)%Z
                                   then Json.string_body r''
                                          (Json.char_of (16 * c + d) :: acc)
                                   else Throw OutOfModel
                               | _, _, _, _ => Throw SyntaxError
                               end
                           | _ => Throw SyntaxError
                           end
                         else Throw SyntaxError
                     end
                 end
               else if decide (nat_of_ascii c < 32)%nat then Throw SyntaxError
               else Json.string_body (t ++ b) (c :: acc)) = Ok (x, r ++ b)).
  { intros [Hlen Hext]. split; [simpl; lia|]. intros b.
    change ((c :: t) ++ b) with (c :: (t ++ b)). rewrite string_body_step. apply Hext. }
  case_decide as Hquote.
  { injection Hbody as <- <-. done. }
  case_decide as Hslash.
  - destruct t as [|e t']; [done|]. simpl.
    destruct (simple_escape e) as [y|].
    { destruct (Hrec t' (y :: acc)) as [Hlen Hext]; [simpl; lia|done|].
      split; [simpl; lia|done]. }
    case_decide as Hu; [|done].
    destruct t' as [|h1 [|h2 [|h3 [|h4 t'']]]]; try done. simpl.
    destruct (Json.hex h1) as [a|]; [|done]. destruct (Json.hex h2) as [b'|]; [|done].
    destruct (Json.hex h3) as [c'|]; [|done]. destruct (Json.hex h4) as [d|]; [|done].
    case_decide; [|done].
    destruct (Hrec t'' (Json.char_of (16 * c' + d) :: acc)) as [Hlen Hext];
      [simpl; lia|done|].
    split; [simpl; lia|done].
  - case_decide; [done|].
    destruct (Hrec t (c :: acc)) as [Hlen Hext]; [done|done|]. split; [lia|done].
Qed.

Lemma strip_head p q s c r :
  strip (q :: p) s = None → s = c :: r → c ≠ q → ∀ b, strip (q :: p) (s ++ b) = None.
Proof. intros _ -> Hc b. simpl. by rewrite decide_False. Qed.

Lemma strip_cons q p c x r : strip (q :: p) (c :: x) = Some r → c = q.
Proof. simpl. by case_decide. Qed.

Lemma strip_other q p c x : c ≠ q → strip (q :: p) (c :: x) = None.
Proof. intros Hc. simpl. by rewrite decide_False. Qed.

Lemma tail_app {A} (l k : list A) : l ≠ [] → tail (l ++ k) = tail l ++ k.
Proof. by destruct l. Qed.

Lemma head_app {A} (l k : list A) : l ≠ [] → head (l ++ k) = head l.
Proof. by destruct l. Qed.

Lemma number_start c :
  c = "-" ∨ is_Some (Json.digit c) → c ≠ "n" ∧ c ≠ "t" ∧ c ≠ "f".
Proof.
  intros [->|[d Hd]]; [by repeat split|].
  repeat split; intros ->; by vm_compute in Hd.
Qed.

Lemma skip_ws_nil_app s c r : Json.skip_ws s = c :: r → s ≠ [].
Proof. by intros Hs ->. Qed.

Lemma parser_local f : value_is_local f ∧ elements_is_local f ∧ members_is_local f.
Proof.
  induction f as [|f (IHvalue & IHelements & IHmembers)]; [by repeat split|].
  split; [|split].
  - (* value *)
    intros s v r Hvalue. rewrite value_step in Hvalue. cbv zeta in Hvalue.
    pose proof (skip_ws_length s) as Hskip.
    destruct (Json.skip_ws s) as [|c r0] eqn:Hs; [done|].
    assert (Hstep : ∀ f' b, Json.value (S f') (s ++ b)
              = let s' := c :: r0 ++ b in
                match strip (js "null") s' with
                | Some r => Ok (JNull, r)
                | None =>
                match strip (js "true") s' with
                | Some r => Ok (JBool true, r)
                | None =>
                match strip (js "false") s' with
                | Some r => Ok (JBool false, r)
                | None =>
                  if decide (c = "034")
                  then '(str, r') ← Json.string_body (r0 ++ b) []; Ok (JStr str, r')
                  else if decide (c = "[") then
                    if decide (head (Json.skip_ws (r0 ++ b)) = Some "]")
                    then Ok (JArr [], tail (Json.skip_ws (r0 ++ b)))
                    else '(items, r') ← Json.elements f' (r0 ++ b); Ok (JArr items, r')
                  else if decide (c = "{") then
                    if decide (head (Json.skip_ws (r0 ++ b)) = Some "}")
                    then Ok (JObj [], tail (Json.skip_ws (r0 ++ b)))
                    else '(pairs, r') ← Json.members f' (r0 ++ b);
                         Ok (JObj (foldl (fun acc kv => set_member kv.1 kv.2 acc) [] pairs),
                             r')
                  else Json.number s'
                end end end).
    { intros f' b. rewrite value_step. cbv zeta. by rewrite (skip_ws_app _ _ _ _ Hs). }
    destruct (strip (js "null") (c :: r0)) as [r1|] eqn:Hnull.
    { injection Hvalue as <- <-. apply strip_length in Hnull as Hlen. simpl in Hlen. cbn [length tail] in *.
      split; [lia|]. intros [|f'] b Hfuel _; [lia|].
      rewrite Hstep. cbv zeta. change (c :: r0 ++ b) with ((c :: r0) ++ b).
      by rewrite (strip_app _ _ _ _ Hnull). }
    destruct (strip (js "true") (c :: r0)) as [r1|] eqn:Htrue.
    { injection Hvalue as <- <-. apply strip_length in Htrue as Hlen. simpl in Hlen.
      cbn [length tail] in *.
      split; [lia|]. intros [|f'] b Hfuel _; [lia|].
      rewrite Hstep. cbv zeta.
      assert (c = "t") as -> by (by apply (strip_cons "t" (js "rue")) in Htrue).
      assert (Hn : strip (js "null") ("t" :: r0 ++ b) = None) by reflexivity.
      rewrite Hn. change ("t" :: r0 ++ b) with (("t" :: r0) ++ b).
      by rewrite (strip_app _ _ _ _ Htrue). }
    destruct (strip (js "false") (c :: r0)) as [r1|] eqn:Hfalse.
    { injection Hvalue as <- <-. apply strip_length in Hfalse as Hlen. simpl in Hlen.
      cbn [length tail] in *.
      split; [lia|]. intros [|f'] b Hfuel _; [lia|].
      rewrite Hstep. cbv zeta.
      assert (c = "f") as -> by (by apply (strip_cons "f" (js "alse")) in Hfalse).
      assert (Hn : strip (js "null") ("f" :: r0 ++ b) = None) by reflexivity.
      assert (Ht : strip (js "true") ("f" :: r0 ++ b) = None) by reflexivity.
      rewrite Hn, Ht. change ("f" :: r0 ++ b) with (("f" :: r0) ++ b).
      by rewrite (strip_app _ _ _ _ Hfalse). }
    assert (Hliterals : c ≠ "n" → c ≠ "t" → c ≠ "f" → ∀ b,
              strip (js "null") (c :: r0 ++ b) = None
              ∧ strip (js "true") (c :: r0 ++ b) = None
              ∧ strip (js "false") (c :: r0 ++ b) = None).
    { intros Hn Ht Hf b. split; [|split].
      - by apply (strip_other "n" (js "ull")).
      - by apply (strip_other "t" (js "rue")).
      - by apply (strip_other "f" (js "alse")). }
    case_decide as Hquote.
    { (* a string *)
      destruct (Json.string_body r0 []) as [[str r']|] eqn:Hbody; [|done].
      injection Hvalue as <- <-. apply string_body_local in Hbody as [Hlen Hext].
      split; [simpl; lia|]. intros [|f'] b Hfuel _; [cbn [length tail] in *; lia|].
      rewrite Hstep. cbv zeta. subst c.
      destruct (Hliterals ltac:(done) ltac:(done) ltac:(done) b) as (-> & -> & ->).
      rewrite ?decide_True by done. by rewrite Hext. }
    case_decide as Hbracket.
    { (* an array *)
      subst c.
      pose proof (skip_ws_length r0) as Hskip0.
      case_decide as Hclose.
      - injection Hvalue as <- <-.
        destruct (Json.skip_ws r0) as [|d x] eqn:Hr0; [done|]. injection Hclose as ->.
        cbn [length tail] in *. split; [lia|]. intros [|f'] b Hfuel _; [lia|].
        rewrite Hstep. cbv zeta.
        destruct (Hliterals ltac:(done) ltac:(done) ltac:(done) b) as (-> & -> & ->).
        rewrite ?decide_False, ?decide_True by done.
        rewrite (skip_ws_app _ _ _ _ Hr0). simpl. by rewrite ?decide_True by done.
      - destruct (Json.elements f r0) as [[items r']|] eqn:Helements; [|done].
        injection Hvalue as <- <-. apply IHelements in Helements as [Hlen Hext].
        split; [simpl; lia|]. intros [|f'] b Hfuel _; [cbn [length tail] in *; lia|].
        rewrite Hstep. cbv zeta.
        destruct (Hliterals ltac:(done) ltac:(done) ltac:(done) b) as (-> & -> & ->).
        rewrite ?decide_False, ?decide_True by done.
        destruct (Json.skip_ws r0) as [|d x] eqn:Hr0; [cbn [length tail] in *; lia|].
        rewrite (skip_ws_app _ _ _ _ Hr0). simpl. rewrite ?decide_False by done.
        rewrite Hext by (cbn [length tail] in *; lia). done. }
    case_decide as Hbrace.
    { (* an object *)
      subst c.
      pose proof (skip_ws_length r0) as Hskip0.
      case_decide as Hclose.
      - injection Hvalue as <- <-.
        destruct (Json.skip_ws r0) as [|d x] eqn:Hr0; [done|]. injection Hclose as ->.
        cbn [length tail] in *. split; [lia|]. intros [|f'] b Hfuel _; [lia|].
        rewrite Hstep. cbv zeta.
        destruct (Hliterals ltac:(done) ltac:(done) ltac:(done) b) as (-> & -> & ->).
        rewrite ?decide_False, ?decide_True by done.
        rewrite (skip_ws_app _ _ _ _ Hr0). simpl. by rewrite ?decide_True by done.
      - destruct (Json.members f r0) as [[pairs r']|] eqn:Hmembers; [|done].
        injection Hvalue as <- <-. apply IHmembers in Hmembers as [Hlen Hext].
        split; [simpl; lia|]. intros [|f'] b Hfuel _; [cbn [length tail] in *; lia|].
        rewrite Hstep. cbv zeta.
        destruct (Hliterals ltac:(done) ltac:(done) ltac:(done) b) as (-> & -> & ->).
        rewrite ?decide_False, ?decide_True by done.
        destruct (Json.skip_ws r0) as [|d x] eqn:Hr0; [cbn [length tail] in *; lia|].
        rewrite (skip_ws_app _ _ _ _ Hr0). simpl. rewrite ?decide_False by done.
        rewrite Hext by (cbn [length tail] in *; lia). done. }
    (* a number *)
    apply number_local in Hvalue as (Hlen & (c' & t' & [= <- <-] & Hstart) & Hext).
    destruct (number_start _ Hstart) as (Hn & Ht & Hf).
    split; [done|]. intros [|f'] b Hfuel Hb; [cbn [length tail] in *; lia|].
    rewrite Hstep. cbv zeta.
    destruct (Hliterals Hn Ht Hf b) as (-> & -> & ->).
    rewrite ?decide_False by done. by apply (Hext b).
  - (* elements *)
    intros s vs r Helements. rewrite elements_step in Helements.
    destruct (Json.value f s) as [[v r1]|] eqn:Hvalue; [|done].
    cbn [mbind result_bind] in Helements.
    apply IHvalue in Hvalue as [Hlen1 Hext1].
    pose proof (skip_ws_length s) as Hskip. pose proof (skip_ws_length r1) as Hskip1.
    destruct (Json.skip_ws r1) as [|c r'] eqn:Hr1; [done|].
    assert (Hr1' : r1 ≠ []) by (by intros ->).
    assert (Hstep : ∀ f' b, length s - length r1 < f' →
              Json.elements (S f') (s ++ b)
              = if decide (c = ",")
                then '(vs, r'') ← Json.elements f' (r' ++ b); Ok (v :: vs, r'')
                else if decide (c = "]") then Ok ([v], r' ++ b)
                else Throw SyntaxError).
    { intros f' b Hfuel. rewrite elements_step, Hext1 by done.
      cbn [mbind result_bind]. by rewrite (skip_ws_app _ _ _ _ Hr1). }
    case_decide as Hcomma.
    + destruct (Json.elements f r') as [[vs' r'']|] eqn:Hrest; [|done].
      injection Helements as <- <-. apply IHelements in Hrest as [Hlen Hext].
      pose proof (skip_ws_length r') as Hskip'. cbn [length tail] in *.
      split; [lia|]. intros [|f'] b Hfuel; [lia|].
      rewrite Hstep by lia. rewrite ?decide_True by done.
      by rewrite Hext by lia.
    + case_decide as Hclose; [|done]. injection Helements as <- <-. cbn [length tail] in *.
      split; [lia|]. intros [|f'] b Hfuel; [lia|].
      rewrite Hstep by lia. by rewrite ?decide_False, ?decide_True by done.
  - (* members *)
    intros s kvs r Hmembers. rewrite members_step in Hmembers.
    pose proof (skip_ws_length s) as Hskip.
    destruct (Json.skip_ws s) as [|q r0] eqn:Hs; [done|].
    case_decide as Hquote; [|done].
    destruct (Json.string_body r0 []) as [[k r1]|] eqn:Hkey; [|done].
    cbn [mbind result_bind] in Hmembers.
    apply string_body_local in Hkey as [Hlen1 Hext1].
    pose proof (skip_ws_length r1) as Hskip1.
    destruct (Json.skip_ws r1) as [|c1 r2] eqn:Hr1; [done|].
    case_decide as Hcolon; [|done].
    destruct (Json.value f r2) as [[v r3]|] eqn:Hvalue; [|done].
    cbn [mbind result_bind] in Hmembers.
    apply IHvalue in Hvalue as [Hlen3 Hext3].
    pose proof (skip_ws_length r2) as Hskip2. pose proof (skip_ws_length r3) as Hskip3.
    destruct (Json.skip_ws r3) as [|c3 r4] eqn:Hr3; [done|].
    assert (Hr3' : r3 ≠ []) by (by intros ->).
    assert (Hstep : ∀ f' b, length r2 - length r3 < f' →
              Json.members (S f') (s ++ b)
              = if decide (c3 = ",")
                then '(kvs, r5) ← Json.members f' (r4 ++ b); Ok ((k, v) :: kvs, r5)
                else if decide (c3 = "}") then Ok ([(k, v)], r4 ++ b)
                else Throw SyntaxError).
    { intros f' b Hfuel. rewrite members_step, (skip_ws_app _ _ _ _ Hs).
      rewrite decide_True by done. rewrite Hext1. cbn [mbind result_bind].
      rewrite (skip_ws_app _ _ _ _ Hr1). rewrite decide_True by done.
      rewrite Hext3 by done. cbn [mbind result_bind].
      by rewrite (skip_ws_app _ _ _ _ Hr3). }
    case_decide as Hcomma.
    + destruct (Json.members f r4) as [[kvs' r5]|] eqn:Hrest; [|done].
      injection Hmembers as <- <-. apply IHmembers in Hrest as [Hlen Hext].
      pose proof (skip_ws_length r4) as Hskip4. cbn [length tail] in *.
      split; [lia|]. intros [|f'] b Hfuel; [lia|].
      rewrite Hstep by lia. rewrite ?decide_True by done.
      by rewrite Hext by lia.
    + case_decide as Hclose; [|done]. injection Hmembers as <- <-. cbn [length tail] in *.
      split; [lia|]. intros [|f'] b Hfuel; [lia|].
      rewrite Hstep by lia. by rewrite ?decide_False, ?decide_True by done.
Qed.

End locality.

Section strict_text.

(** *** Values, elements and members in the middle of a text *)

Lemma skip_ws_all_ws g y : all_ws g = true → Json.skip_ws (g ++ y) = Json.skip_ws y.
Proof.
  induction g as [|c g IH]; [done|]. simpl. intros [Hc Hg]%andb_true_iff.
  rewrite Hc. by apply IH.
Qed.

Lemma skip_ws_nil g : all_ws g = true → Json.skip_ws g = [].
Proof. intros Hg. rewrite <- (app_nil_r g). by rewrite skip_ws_all_ws. Qed.

Lemma all_ws_skipped r : Json.skip_ws r = [] → all_ws r = true.
Proof.
  induction r as [|c r IH]; [done|]. simpl. destruct (Json.is_ws c); [|done]. apply IH.
Qed.

Lemma value_ws f g y : all_ws g = true → Json.value f (g ++ y) = Json.value f y.
Proof.
  intros Hg. destruct f; [done|]. rewrite !value_step. cbv zeta.
  by rewrite skip_ws_all_ws.
Qed.

Lemma elements_ws f g y : all_ws g = true → Json.elements f (g ++ y) = Json.elements f y.
Proof.
  intros Hg. destruct f; [done|]. rewrite !elements_step. by rewrite value_ws.
Qed.

Lemma members_ws f g y : all_ws g = true → Json.members f (g ++ y) = Json.members f y.
Proof.
  intros Hg. destruct f; [done|]. rewrite !members_step. by rewrite skip_ws_all_ws.
Qed.

Lemma value_context f s v r f' b :
  Json.value f s = Ok (v, r) →
  length s - length r < f' → (r = [] → ends_value b) →
  Json.value f' (s ++ b) = Ok (v, r ++ b).
Proof.
  intros Hvalue Hfuel Hb. apply (proj1 (parser_local f)) in Hvalue as [_ Hext].
  by apply Hext.
Qed.

Lemma elements_context f s vs f' b :
  Json.elements f s = Ok (vs, []) → length s < f' → Json.elements f' (s ++ b) = Ok (vs, b).
Proof.
  intros Helements Hfuel.
  apply (proj1 (proj2 (parser_local f))) in Helements as [_ Hext].
  apply (Hext f' b). simpl. lia.
Qed.

Lemma members_context f s kvs f' b :
  Json.members f s = Ok (kvs, []) → length s < f' → Json.members f' (s ++ b) = Ok (kvs, b).
Proof.
  intros Hmembers Hfuel.
  apply (proj2 (proj2 (parser_local f))) in Hmembers as [_ Hext].
  apply (Hext f' b). simpl. lia.
Qed.

Lemma parse_intro f s v r :
  Json.value f s = Ok (v, r) → Json.skip_ws r = [] → Json.parse s = Ok v.
Proof.
  intros Hvalue Hr. unfold Json.parse.
  pose proof (value_context f s v r (2 * length s + 2) [] Hvalue) as Hext.
  rewrite !app_nil_r in Hext. rewrite Hext by (done || lia). simpl. by rewrite Hr.
Qed.

Lemma parse_elim s v :
  Json.parse s = Ok v →
  ∃ r, Json.value (2 * length s + 2) s = Ok (v, r) ∧ all_ws r = true.
Proof.
  unfold Json.parse. destruct (Json.value _ s) as [[w r]|]; [|done]. simpl.
  destruct (Json.skip_ws r) eqn:Hr; [|done]. intros [= ->].
  exists r. split; [done|]. by apply all_ws_skipped.
Qed.

(** A value that [Json.parse] accepts on its own is read alike in front of
    a text that lets it end. *)
Lemma value_in_context s v b :
  Json.parse s = Ok v → ends_value b →
  ∃ r, all_ws r = true ∧ ∀ f, length s < f → Json.value f (s ++ b) = Ok (v, r ++ b).
Proof.
  intros (r & Hvalue & Hr)%parse_elim Hb. exists r. split; [done|].
  intros f Hf. apply (value_context _ _ _ _ _ _ Hvalue); [lia|done].
Qed.

(** White space, and then a comma or a closing bracket, let a value end. *)
Lemma ends_value_separator z c r b :
  Json.skip_ws z = c :: r → c = "," ∨ c = "]" ∨ c = "}" → ends_value (z ++ b).
Proof.
  destruct z as [|d z]; [done|]. simpl. destruct (Json.is_ws d) eqn:Hd.
  - intros _ _. apply bool_decide_eq_true in Hd.
    destruct Hd as [-> | [-> | [-> | ->] ] ]; reflexivity.
  - intros [= -> _] [-> | [-> | ->] ]; reflexivity.
Qed.

Lemma around_inv c g :
  around c g = true → ∃ g', Json.skip_ws g = c :: g' ∧ all_ws g' = true.
Proof.
  unfold around. destruct (Json.skip_ws g) as [|d g']; [done|].
  intros [->%bool_decide_eq_true Hg]%andb_true_iff. by exists g'.
Qed.

Lemma closes_inv c z : closes c z = true → Json.skip_ws z = [c].
Proof.
  unfold closes. destruct (Json.skip_ws z) as [|d [|? ?]]; try done.
  by intros ->%bool_decide_eq_true.
Qed.

Lemma key_reads_inv key name :
  key_reads key name = true →
  ∃ body, key = "034" :: body ∧ Json.string_body body [] = Ok (name, []).
Proof.
  destruct key as [|q body]; [done|]. simpl.
  intros [->%bool_decide_eq_true Hbody]%andb_true_iff. exists body. split; [done|].
  destruct (Json.string_body body []) as [[x [|? ?]]|]; try done.
  by apply bool_decide_eq_true in Hbody as ->.
Qed.

Lemma elements_last V Z v :
  Json.parse V = Ok v → closes "]" Z = true →
  ∃ F, Json.elements F (V ++ Z) = Ok ([v], []).
Proof.
  intros Hv Hz%closes_inv.
  destruct (value_in_context V v Z Hv) as (r & Hr & Hvalue).
  { rewrite <- (app_nil_r Z). apply (ends_value_separator _ _ _ _ Hz). tauto. }
  exists (S (S (length V))). rewrite elements_step, Hvalue by lia. cbn [mbind result_bind].
  rewrite skip_ws_all_ws, Hz by done. by rewrite decide_False, decide_True.
Qed.

Lemma elements_more V G Y v vs F :
  Json.parse V = Ok v → around "," G = true → Json.elements F Y = Ok (vs, []) →
  ∃ F', Json.elements F' (V ++ G ++ Y) = Ok (v :: vs, []).
Proof.
  intros Hv (G' & HG & HG')%around_inv Hrest.
  destruct (value_in_context V v (G ++ Y) Hv) as (r & Hr & Hvalue).
  { apply (ends_value_separator _ _ _ _ HG). tauto. }
  exists (S (S (length V + length Y))). rewrite elements_step, Hvalue by lia. cbn [mbind result_bind].
  rewrite skip_ws_all_ws, (skip_ws_app _ _ _ _ HG) by done. rewrite decide_True by done.
  rewrite elements_ws by done.
  pose proof (elements_context F Y vs (S (length V + length Y)) [] Hrest) as Hext.
  rewrite app_nil_r in Hext. by rewrite Hext by lia.
Qed.

Lemma members_last K name C V Z v :
  key_reads K name = true → around ":" C = true → Json.parse V = Ok v →
  closes "}" Z = true →
  ∃ F, Json.members F (K ++ C ++ V ++ Z) = Ok ([(name, v)], []).
Proof.
  intros (body & -> & Hbody)%key_reads_inv (C' & HC & HC')%around_inv Hv Hz%closes_inv.
  destruct (value_in_context V v Z Hv) as (r & Hr & Hvalue).
  { rewrite <- (app_nil_r Z). apply (ends_value_separator _ _ _ _ Hz). tauto. }
  exists (S (S (length V))). rewrite members_step.
  change (Json.skip_ws (("034" :: body) ++ C ++ V ++ Z))
    with ("034" :: body ++ C ++ V ++ Z).
  cbv beta iota.
  rewrite decide_True by done.
  apply string_body_local in Hbody as [_ Hbody]. rewrite Hbody. cbn [mbind result_bind app].
  rewrite (skip_ws_app _ _ _ _ HC). rewrite decide_True by done.
  rewrite value_ws, Hvalue by (done || lia). cbn [mbind result_bind].
  rewrite skip_ws_all_ws, Hz by done. by rewrite decide_False, decide_True.
Qed.

Lemma members_more K name C V G Y v kvs F :
  key_reads K name = true → around ":" C = true → Json.parse V = Ok v →
  around "," G = true → Json.members F Y = Ok (kvs, []) →
  ∃ F', Json.members F' (K ++ C ++ V ++ G ++ Y) = Ok ((name, v) :: kvs, []).
Proof.
  intros (body & -> & Hbody)%key_reads_inv (C' & HC & HC')%around_inv Hv
    (G' & HG & HG')%around_inv Hrest.
  destruct (value_in_context V v (G ++ Y) Hv) as (r & Hr & Hvalue).
  { apply (ends_value_separator _ _ _ _ HG). tauto. }
  exists (S (S (length V + length Y))). rewrite members_step.
  change (Json.skip_ws (("034" :: body) ++ C ++ V ++ G ++ Y))
    with ("034" :: body ++ C ++ V ++ G ++ Y).
  cbv beta iota.
  rewrite decide_True by done.
  apply string_body_local in Hbody as [_ Hbody]. rewrite Hbody. cbn [mbind result_bind app].
  rewrite (skip_ws_app _ _ _ _ HC). rewrite decide_True by done.
  rewrite value_ws, Hvalue by (done || lia). cbn [mbind result_bind].
  rewrite skip_ws_all_ws, (skip_ws_app _ _ _ _ HG) by done. rewrite decide_True by done.
  rewrite members_ws by done.
  pose proof (members_context F Y kvs (S (length V + length Y)) [] Hrest) as Hext.
  rewrite app_nil_r in Hext. by rewrite Hext by lia.
Qed.

(** What a value, and a list of members, start with. *)
Lemma value_head f s v r :
  Json.value f s = Ok (v, r) →
  head (Json.skip_ws s) ≠ Some "]" ∧ head (Json.skip_ws s) ≠ Some "}".
Proof.
  destruct f; [done|]. rewrite value_step. cbv zeta.
  destruct (Json.skip_ws s) as [|c x]; [done|]. simpl.
  intros Hvalue.
  assert (c = "]" ∨ c = "}" → False) as Hc; [|split; intros [= ->]; tauto].
  intros Hc.
  assert (Json.number (c :: x) = Ok (v, r)) as Hnumber.
  { destruct Hc as [-> | ->]; exact Hvalue. }
  apply number_local in Hnumber as (_ & (d & t & [= <- <-] & Hd) & _).
  destruct Hc as [-> | ->]; destruct Hd as [?|[? ?]]; done.
Qed.

Lemma elements_head f s vs r :
  Json.elements f s = Ok (vs, r) → head (Json.skip_ws s) ≠ Some "]".
Proof.
  destruct f; [done|]. rewrite elements_step.
  destruct (Json.value f s) as [[v r']|] eqn:Hvalue; [|done]. intros _.
  by apply value_head in Hvalue as [? _].
Qed.

Lemma members_head f s kvs r :
  Json.members f s = Ok (kvs, r) → head (Json.skip_ws s) ≠ Some "}".
Proof.
  destruct f; [done|]. rewrite members_step.
  destruct (Json.skip_ws s) as [|q x]; [done|]. case_decide as Hq; [|done].
  subst q. done.
Qed.

Lemma array_empty Z : closes "]" Z = true → Json.parse ("[" :: Z) = Ok (JArr []).
Proof.
  intros Hz%closes_inv. apply (parse_intro 1 _ _ []); [|done].
  rewrite value_step. cbv zeta.
  change (Json.skip_ws ("[" :: Z)) with ("[" :: Z).
  change (strip (js "null") ("[" :: Z)) with (@None jsstring).
  change (strip (js "true") ("[" :: Z)) with (@None jsstring).
  change (strip (js "false") ("[" :: Z)) with (@None jsstring).
  cbv iota. rewrite decide_False, decide_True by done. rewrite Hz. by rewrite decide_True.
Qed.

Lemma array_full G Y vs F :
  all_ws G = true → Json.elements F Y = Ok (vs, []) →
  Json.parse ("[" :: G ++ Y) = Ok (JArr vs).
Proof.
  intros HG Helements. apply (parse_intro (S F) _ _ []); [|done].
  rewrite value_step. cbv zeta.
  change (Json.skip_ws ("[" :: G ++ Y)) with ("[" :: G ++ Y).
  change (strip (js "null") ("[" :: G ++ Y)) with (@None jsstring).
  change (strip (js "true") ("[" :: G ++ Y)) with (@None jsstring).
  change (strip (js "false") ("[" :: G ++ Y)) with (@None jsstring).
  cbv iota. rewrite decide_False, decide_True by done.
  rewrite skip_ws_all_ws by done.
  rewrite decide_False by (by eapply elements_head).
  by rewrite elements_ws, Helements.
Qed.

Lemma object_empty Z : closes "}" Z = true → Json.parse ("{" :: Z) = Ok (JObj []).
Proof.
  intros Hz%closes_inv. apply (parse_intro 1 _ _ []); [|done].
  rewrite value_step. cbv zeta.
  change (Json.skip_ws ("{" :: Z)) with ("{" :: Z).
  change (strip (js "null") ("{" :: Z)) with (@None jsstring).
  change (strip (js "true") ("{" :: Z)) with (@None jsstring).
  change (strip (js "false") ("{" :: Z)) with (@None jsstring).
  cbv iota. rewrite !decide_False, decide_True by done. rewrite Hz.
  by rewrite decide_True.
Qed.

Lemma object_full G Y kvs F :
  all_ws G = true → Json.members F Y = Ok (kvs, []) →
  Json.parse ("{" :: G ++ Y)
  = Ok (JObj (foldl (fun acc kv => set_member kv.1 kv.2 acc) [] kvs)).
Proof.
  intros HG Hmembers. apply (parse_intro (S F) _ _ []); [|done].
  rewrite value_step. cbv zeta.
  change (Json.skip_ws ("{" :: G ++ Y)) with ("{" :: G ++ Y).
  change (strip (js "null") ("{" :: G ++ Y)) with (@None jsstring).
  change (strip (js "true") ("{" :: G ++ Y)) with (@None jsstring).
  change (strip (js "false") ("{" :: G ++ Y)) with (@None jsstring).
  cbv iota. rewrite !decide_False, decide_True by done.
  rewrite skip_ws_all_ws by done.
  rewrite decide_False by (by eapply members_head).
  by rewrite members_ws, Hmembers.
Qed.

End strict_text.

Section laid_out.

(** *** Slices of the text *)

Lemma slice_within T a c :
  (0 ≤ a)%Z → (a ≤ c)%Z → (c ≤ js_length T)%Z →
  slice T a c = take (Z.to_nat c - Z.to_nat a) (drop (Z.to_nat a) T).
Proof.
  intros Ha Hac Hc. unfold slice. cbv zeta.
  rewrite (proj2 (Z.ltb_ge a 0)), (proj2 (Z.ltb_ge c 0)) by lia.
  f_equal; [|f_equal]; lia.
Qed.

Lemma slice_app T a b c :
  (0 ≤ a)%Z → (a ≤ b)%Z → (b ≤ c)%Z → (c ≤ js_length T)%Z →
  slice T a c = slice T a b ++ slice T b c.
Proof.
  intros Ha Hab Hbc Hc. rewrite !slice_within by lia.
  replace (Z.to_nat c - Z.to_nat a)
    with ((Z.to_nat b - Z.to_nat a) + (Z.to_nat c - Z.to_nat b)) by lia.
  rewrite <- take_take_drop, drop_drop. do 3 f_equal. lia.
Qed.

Lemma slice_nonempty T a c :
  (0 ≤ a)%Z → (0 ≤ c)%Z → slice T a c ≠ [] → (a < c)%Z.
Proof.
  intros Ha Hc Hslice. destruct (decide (a < c)%Z) as [|Hle]; [done|].
  destruct Hslice. unfold slice. cbv zeta.
  rewrite (proj2 (Z.ltb_ge a 0)), (proj2 (Z.ltb_ge c 0)) by lia.
  by replace (Z.to_nat _) with 0%nat by lia.
Qed.

Lemma closes_nonempty c z : closes c z = true → z ≠ [].
Proof. by intros Hz ->. Qed.

Lemma same_scalar_eq cached parsed :
  same_scalar cached parsed = true → cached = parsed ∧ ∀ members, cached ≠ JObj members.
Proof.
  destruct cached, parsed; try done; simpl; intros ->%bool_decide_eq_true; done.
Qed.

(** *** A tree that lays the text out denotes what the text parses to *)

Lemma denoted_sound T σ fuel :
  (∀ n v,
     denoted fuel T σ n = Some v →
     ∃ nd, σ !! n = Some nd
       ∧ (0 ≤ node_offset nd ∧ node_offset nd ≤ node_offset nd + node_length nd
          ∧ node_offset nd + node_length nd ≤ js_length T)%Z
       ∧ Json.parse (slice T (node_offset nd) (node_offset nd + node_length nd)) = Ok v
       ∧ (node_value nd = None ∨ node_value nd = Some v))
  ∧ (∀ stop cs pos first vs,
       denoted_elements fuel T σ stop cs pos first = Some vs →
       (0 ≤ pos)%Z → (stop ≤ js_length T)%Z →
       match cs with
       | [] => vs = [] ∧ closes "]" (slice T pos stop) = true
       | c :: _ =>
           ∃ v vn, c = Some v ∧ σ !! v = Some vn
             ∧ (pos ≤ node_offset vn ∧ node_offset vn ≤ stop)%Z
             ∧ (if first then all_ws (slice T pos (node_offset vn))
                else around "," (slice T pos (node_offset vn))) = true
             ∧ ∃ F, Json.elements F (slice T (node_offset vn) stop) = Ok (vs, [])
       end)
  ∧ (∀ stop cs pos first kvs,
       denoted_members fuel T σ stop cs pos first = Some kvs →
       (0 ≤ pos)%Z → (stop ≤ js_length T)%Z →
       match cs with
       | [] => kvs = [] ∧ closes "}" (slice T pos stop) = true
       | c :: _ =>
           ∃ kn, (pos ≤ node_offset kn ∧ node_offset kn ≤ stop)%Z
             ∧ (if first then all_ws (slice T pos (node_offset kn))
                else around "," (slice T pos (node_offset kn))) = true
             ∧ ∃ F, Json.members F (slice T (node_offset kn) stop) = Ok (kvs, [])
       end).
Proof.
  induction fuel as [|fuel (IHvalue & IHelements & IHmembers)]; [done|].
  split; [|split].
  - (* a node *)
    intros n v Hv. simpl in Hv.
    destruct (σ !! n) as [nd|] eqn:Hn; [|done]. simpl in Hv.
    case_bool_decide as Hbounds; [|done].
    exists nd. split; [done|]. split; [done|].
    destruct (node_type nd) eqn:Htype, (node_value nd) as [cached|] eqn:Hcached,
      (node_children nd) as [cs|] eqn:Hcs; try done.
    all: try (destruct (Json.parse _) as [parsed|] eqn:Hparse; [|done];
              destruct (same_scalar cached parsed) eqn:Hsame; [|done];
              injection Hv as <-; apply same_scalar_eq in Hsame as [-> _];
              split; [done|by right]).
    + (* an object *)
      case_bool_decide as Hopen; [|done].
      destruct (denoted_members _ _ _ _ _ _ _) as [kvs|] eqn:Hmembers; [|done].
      simpl in Hv. injection Hv as <-. split; [|by left].
      apply IHmembers in Hmembers; [|lia..].
      destruct cs as [|c cs'].
      * destruct Hmembers as [-> Hz].
        assert (node_offset nd + 1 < node_offset nd + node_length nd)%Z.
        { apply (slice_nonempty T); [lia..|]. by eapply closes_nonempty. }
        rewrite (slice_app T _ (node_offset nd + 1)), Hopen by lia.
        by apply object_empty.
      * destruct Hmembers as (kn & Hpos & Hgap & F & Hmembers).
        rewrite (slice_app T _ (node_offset nd + 1)), Hopen by lia.
        rewrite (slice_app T _ (node_offset kn)) by lia.
        exact (object_full _ _ _ F Hgap Hmembers).
    + (* an array *)
      case_bool_decide as Hopen; [|done].
      destruct (denoted_elements _ _ _ _ _ _ _) as [vs|] eqn:Helements; [|done].
      simpl in Hv. injection Hv as <-. split; [|by left].
      apply IHelements in Helements; [|lia..].
      destruct cs as [|c cs'].
      * destruct Helements as [-> Hz].
        assert (node_offset nd + 1 < node_offset nd + node_length nd)%Z.
        { apply (slice_nonempty T); [lia..|]. by eapply closes_nonempty. }
        rewrite (slice_app T _ (node_offset nd + 1)), Hopen by lia.
        by apply array_empty.
      * destruct Helements as (w & vn & _ & _ & Hpos & Hgap & F & Helements).
        rewrite (slice_app T _ (node_offset nd + 1)), Hopen by lia.
        rewrite (slice_app T _ (node_offset vn)) by lia.
        exact (array_full _ _ _ F Hgap Helements).
  - (* the elements of an array *)
    intros stop cs pos first vs Hvs Hpos Hstop. simpl in Hvs.
    destruct cs as [|c rest].
    { destruct (closes _ _) eqn:Hz; [|done]. by injection Hvs as <-. }
    destruct c as [v|]; [|done]. simpl in Hvs.
    destruct (σ !! v) as [vn|] eqn:Hvn; [|done]. simpl in Hvs.
    destruct (bool_decide _ && _) eqn:Hcond; [|done].
    apply andb_true_iff in Hcond as [Hle%bool_decide_eq_true Hgap].
    destruct (denoted fuel T σ v) as [value|] eqn:Hvalue; [|done]. simpl in Hvs.
    destruct (denoted_elements _ _ _ _ _ _ _) as [values|] eqn:Hrest; [|done].
    simpl in Hvs. injection Hvs as <-.
    apply IHvalue in Hvalue as (nd & Hnd & Hbounds & Hparse & _).
    rewrite Hvn in Hnd. injection Hnd as <-.
    exists v, vn. split; [done|]. split; [done|]. split; [lia|]. split; [done|].
    apply IHelements in Hrest; [|lia..].
    destruct rest as [|c' rest'].
    + destruct Hrest as [-> Hz].
      rewrite (slice_app T _ (node_offset vn + node_length vn)) by lia.
      by apply elements_last.
    + destruct Hrest as (v' & vn' & _ & _ & Hpos' & Hgap' & F & Helements).
      rewrite (slice_app T _ (node_offset vn + node_length vn)) by lia.
      rewrite (slice_app T (node_offset vn + node_length vn) (node_offset vn')) by lia.
      by apply (elements_more _ _ _ _ _ F).
  - (* the members of an object *)
    intros stop cs pos first kvs Hkvs Hpos Hstop. simpl in Hkvs.
    destruct cs as [|c rest].
    { destruct (closes _ _) eqn:Hz; [|done]. by injection Hkvs as <-. }
    destruct c as [pid|]; [|done]. simpl in Hkvs.
    destruct (σ !! pid) as [pn|] eqn:Hpn; [|done]. simpl in Hkvs.
    destruct (node_children pn) as [[|[k|] [|[v|] [|? ?]]]|] eqn:Hcs; try done.
    destruct (σ !! k) as [kn|] eqn:Hkn; [|done]. simpl in Hkvs.
    destruct (σ !! v) as [vn|] eqn:Hvn; [|done]. simpl in Hkvs.
    destruct (node_value kn) as [[| | |name| |]|] eqn:Hname; try done.
    destruct (_ && _) eqn:Hcond; [|done].
    apply andb_true_iff in Hcond as [Hcond Hcolon].
    apply andb_true_iff in Hcond as [Hcond Hkey].
    apply andb_true_iff in Hcond as [Hle%bool_decide_eq_true Hgap].
    destruct (denoted fuel T σ v) as [value|] eqn:Hvalue; [|done]. simpl in Hkvs.
    destruct (denoted_members _ _ _ _ _ _ _) as [pairs|] eqn:Hrest; [|done].
    simpl in Hkvs. injection Hkvs as <-.
    apply IHvalue in Hvalue as (nd & Hnd & Hbounds & Hparse & _).
    rewrite Hvn in Hnd. injection Hnd as <-.
    exists kn. split; [lia|]. split; [done|].
    apply IHmembers in Hrest; [|lia..].
    rewrite (slice_app T _ (node_offset kn + node_length kn)) by lia.
    rewrite (slice_app T (node_offset kn + node_length kn) (node_offset vn)) by lia.
    destruct rest as [|c' rest'].
    + destruct Hrest as [-> Hz].
      rewrite (slice_app T (node_offset vn) (node_offset vn + node_length vn)) by lia.
      by apply members_last.
    + destruct Hrest as (kn' & Hpos' & Hgap' & F & Hmembers).
      rewrite (slice_app T (node_offset vn) (node_offset vn + node_length vn)) by lia.
      rewrite (slice_app T (node_offset vn + node_length vn) (node_offset kn')) by lia.
      by apply (members_more _ _ _ _ _ _ _ _ F).
Qed.

(** The members that a laid out object denotes follow its property nodes
    one by one: same name, and the value that the value node denotes. *)
Lemma denoted_members_view T σ fuel stop cs pos first kvs :
  denoted_members fuel T σ stop cs pos first = Some kvs →
  Forall2 (λ c kv, ∃ k v, property_view σ c = Some (k, kv.1, Some v)
                          ∧ ∃ fuel', denoted fuel' T σ v = Some kv.2) cs kvs.
Proof.
  revert cs pos first kvs.
  induction fuel as [|fuel IH]; [done|]. intros cs pos first kvs Hkvs. simpl in Hkvs.
  destruct cs as [|c rest].
  { destruct (closes _ _); [|done]. injection Hkvs as <-. constructor. }
  destruct c as [pid|]; [|done]. simpl in Hkvs.
  destruct (σ !! pid) as [pn|] eqn:Hpn; [|done]. simpl in Hkvs.
  destruct (node_children pn) as [[|[k|] [|[v|] [|? ?]]]|] eqn:Hcs; try done.
  destruct (σ !! k) as [kn|] eqn:Hkn; [|done]. simpl in Hkvs.
  destruct (σ !! v) as [vn|] eqn:Hvn; [|done]. simpl in Hkvs.
  destruct (node_value kn) as [[| | |name| |]|] eqn:Hname; try done.
  destruct (_ && _); [|done].
  destruct (denoted fuel T σ v) as [value|] eqn:Hvalue; [|done]. simpl in Hkvs.
  destruct (denoted_members _ _ _ _ _ _ _) as [pairs|] eqn:Hrest; [|done].
  simpl in Hkvs. injection Hkvs as <-.
  constructor; [|by eapply IH].
  exists k, v. split; [|by eauto].
  unfold property_view. simpl. rewrite Hpn. simpl. rewrite Hcs. simpl.
  rewrite Hkn. simpl. by rewrite Hname.
Qed.

(** *** Members with distinct names *)

Lemma set_member_fresh k v (acc : list (jsstring * JsValue)) :
  k ∉ acc.*1 → set_member k v acc = acc ++ [(k, v)].
Proof.
  induction acc as [|[k' v'] acc IH]; [done|]. simpl.
  intros [Hk Hacc]%not_elem_of_cons. rewrite decide_False by done. by rewrite IH.
Qed.

Lemma foldl_set_member (acc kvs : list (jsstring * JsValue)) :
  NoDup (acc.*1 ++ kvs.*1) →
  foldl (fun acc kv => set_member kv.1 kv.2 acc) acc kvs = acc ++ kvs.
Proof.
  revert acc. induction kvs as [|[k v] kvs IH]; intros acc Hdistinct; simpl.
  { by rewrite app_nil_r. }
  simpl in Hdistinct.
  rewrite set_member_fresh.
  - rewrite IH; [by rewrite <- app_assoc|].
    rewrite fmap_app, <- app_assoc. done.
  - apply NoDup_app in Hdistinct as (_ & Hfresh & _). intros Hk.
    apply (Hfresh k Hk). by left.
Qed.

(** Looking a name up in the members and among the properties gives the
    same place. *)
Lemma first_valued_aligned (R : NodeId → JsValue → Prop) k
    (props : list (NodeId * jsstring * option NodeId)) (kvs : list (jsstring * JsValue)) :
  Forall2 (λ p kv, p.1.2 = kv.1 ∧ ∃ v, p.2 = Some v ∧ R v kv.2) props kvs →
  k ∈ kvs.*1 →
  ∃ p v w, first_valued k props = Some p ∧ p.2 = Some v ∧ R v w
           ∧ get_member kvs k = Some w.
Proof.
  induction 1 as [|p [name w] props kvs (Hname & v & Hv & Hw) _ IH]; intros Hk.
  { by apply elem_of_nil in Hk. }
  simpl in *. destruct (decide (name = k)) as [->|Hother].
  - exists p, v, w. rewrite decide_True; [done|]. split; [done|]. by rewrite Hv.
  - rewrite decide_False by (intros [? _]; congruence).
    apply IH. apply elem_of_cons in Hk as [?|?]; [congruence|done].
Qed.

End laid_out.

Section agreement.

(** [value()] on a node that lays out its text, for a [JSON.parse] that
    reads what the reference parser reads. *)
Lemma value_denoted `{Externals} σ (this : JsoncInstance.t) n fuel v :
  (∀ text value, Json.parse text = Ok value → JSON_parse text = Ok value) →
  JsoncInstance.node this = Some n →
  denoted fuel (getText (JsoncInstance.textDocument this)) σ n = Some v →
  JsoncInstance.value σ this = Ok (Some v).
Proof.
  intros Hreads Hn Hv.
  apply (proj1 (denoted_sound _ σ fuel)) in Hv as (nd & Hnd & _ & Hparse & Hcached).
  rewrite (value_present σ this n nd Hn Hnd).
  destruct Hcached as [-> | ->]; [|done].
  by rewrite (Hreads _ _ Hparse).
Qed.

(** A node that denotes an object is an object node over laid out
    members. *)
Lemma denoted_object T σ fuel n members :
  denoted fuel T σ n = Some (JObj members) →
  ∃ nd cs kvs fuel' stop pos,
    σ !! n = Some nd ∧ node_type nd = NObject ∧ node_children nd = Some cs
    ∧ denoted_members fuel' T σ stop cs pos true = Some kvs
    ∧ members = foldl (fun acc kv => set_member kv.1 kv.2 acc) [] kvs.
Proof.
  destruct fuel as [|fuel]; [done|]. simpl.
  destruct (σ !! n) as [nd|] eqn:Hn; [|done]. simpl.
  case_bool_decide as Hbounds; [|done].
  destruct (node_type nd) eqn:Htype, (node_value nd) as [cached|] eqn:Hcached,
    (node_children nd) as [cs|] eqn:Hcs; try done.
  all: try (destruct (Json.parse _) as [parsed|]; [|done];
            destruct (same_scalar cached parsed) eqn:Hsame; [|done];
            intros [= ->]; by destruct parsed).
  - case_bool_decide; [|done].
    destruct (denoted_members _ _ _ _ _ _ _) as [kvs|] eqn:Hmembers; [|done].
    simpl. intros [= <-]. eexists nd, cs, kvs, fuel, _, _. by repeat split.
  - case_bool_decide; [|done]. by destruct (denoted_elements _ _ _ _ _ _ _).
Qed.

(** The view of the property nodes of laid out members. *)
Lemma members_props T σ cs (kvs : list (jsstring * JsValue)) :
  Forall2 (λ c kv, ∃ k v, property_view σ c = Some (k, kv.1, Some v)
                          ∧ ∃ fuel', denoted fuel' T σ v = Some kv.2) cs kvs →
  ∃ props,
    mapM (property_view σ) cs = Some props
    ∧ (λ p, p.1.2) <$> props = kvs.*1
    ∧ Forall2 (λ p kv, p.1.2 = kv.1
                       ∧ ∃ v, p.2 = Some v ∧ ∃ fuel', denoted fuel' T σ v = Some kv.2)
        props kvs.
Proof.
  induction 1 as [|c kv cs kvs (k & v & Hview & Hv) _ (props & Hprops & Hnames & Hall)].
  { exists []. by repeat split. }
  exists ((k, kv.1, Some v) :: props). split; [|split].
  - simpl. rewrite Hview. simpl. by rewrite Hprops.
  - by rewrite !fmap_cons, Hnames.
  - constructor; [|done]. split; [done|]. by exists v.
Qed.

End agreement.



(** The trees of the examples, with fuel to spare: those of
    [{"a": {"b": 1}}], [[10,[20]]] and [{}] lay out their text; the tree
    after [asEmbedded], the object with a comment and the object with a
    property without a value do not. *)
Lemma denoted_examples :
  denoted 20 (getText Examples.nested_text) Examples.nested_tree 0
  = Some (JObj [(js "a", JObj [(js "b", JNum 1)])])
  ∧ denoted 20 (getText ArrayExamples.list_text) ArrayExamples.list_tree 0
    = Some (JArr [JNum 10; JArr [JNum 20]])
  ∧ denoted 20 (getText Examples.empty_text) Examples.empty_tree 0 = Some (JObj [])
  ∧ denoted 20 (getText Examples.nested_text) Examples.nested_after 0 = None
  ∧ denoted 20 (getText Examples.commented_text) Examples.commented_tree 0 = None
  ∧ denoted 20 (getText Examples.partial_text) Examples.partial_tree 0 = None.
Proof. repeat split; vm_compute; reflexivity. Qed.


(** Two properties of the same name: [step] takes the first, [JSON.parse]
    keeps the last. *)
Lemma step_value_duplicate_names :
  JsoncInstance.step Examples.twice_tree Examples.twice_root (js "a")
    ≫= JsoncInstance.value Examples.twice_tree
  = Ok (Some (JNum 1))
  ∧ JsoncInstance.value Examples.twice_tree Examples.twice_root
    = Ok (Some (JObj [(js "a", JNum 2)])).
Proof. by split. Qed.

(** A comment inside an object: the tree is parsed with comments allowed,
    and [value()] of the object hands the slice with its comment to
    [JSON.parse]. *)
Lemma value_of_commented_object :
  JsoncInstance.step Examples.commented_tree Examples.commented_root (js "a")
    ≫= JsoncInstance.value Examples.commented_tree
  = Ok (Some (JNum 1))
  ∧ JsoncInstance.value Examples.commented_tree Examples.commented_root = Throw SyntaxError.
Proof. by split. Qed.

(** * Further properties *)

(** ** Decoding an arbitrary pointer *)

Section decoding.

Local Open Scope Z_scope.

Lemma unescape_tilde_zero t : unescape ("~" :: "0" :: t) = "~" :: unescape t.
Proof.
  unfold unescape. rewrite replace_pair_miss by done.
  rewrite (replace_pair_other _ _ _ "0") by done. by rewrite replace_pair_hit.
Qed.

Lemma unescape_tilde_one t : unescape ("~" :: "1" :: t) = "/" :: unescape t.
Proof.
  unfold unescape. rewrite replace_pair_hit.
  change (js "/" ++ ?x) with ("/" :: x). by rewrite replace_pair_other.
Qed.

Lemma unescape_other c t : c ≠ "~" → unescape (c :: t) = c :: unescape t.
Proof. intros Hc. unfold unescape. by rewrite !replace_pair_other. Qed.

Lemma split_slash_cons s : ∃ piece pieces, split_slash s = piece :: pieces.
Proof.
  induction s as [|c t (piece & pieces & IH)]; simpl; [by eexists _, _|].
  case_decide; [by eexists _, _|]. rewrite IH. by eexists _, _.
Qed.

(** The first piece has no [/], and the rest of the string, if any, starts
    after the [/] that ends it. *)
Lemma split_slash_first s :
  ∃ piece, ("/" ∉ piece)
    ∧ ((s = piece ∧ split_slash s = [piece])
       ∨ ∃ r, s = piece ++ "/" :: r ∧ split_slash s = piece :: split_slash r).
Proof.
  induction s as [|c t (piece & Hpiece & IH)]; simpl.
  - exists []. split; [apply not_elem_of_nil|]. by left.
  - destruct (decide (c = "/")) as [->|Hc].
    + exists []. split; [apply not_elem_of_nil|]. right. by exists t.
    + exists (c :: piece). split; [by apply not_elem_of_cons|].
      destruct IH as [[-> ->]|(r & -> & ->)]; [by left|]. right. by exists r.
Qed.

Lemma length_split_slash s : length (split_slash s) = S (slashes s).
Proof.
  unfold slashes. induction s as [|c t IH]; [done|]. simpl.
  destruct (split_slash_cons t) as (piece & pieces & Hsplit).
  rewrite Hsplit in *. rewrite filter_cons. by case_decide; simpl in *; rewrite <- IH.
Qed.

(** One turn of the loop on any pointer, standing on a [/]: the segment
    runs up to the next [/] or to the end. *)
Lemma segments_loop_piece pre piece rest :
  "/" ∉ piece →
  rest = [] ∨ (∃ r, rest = "/" :: r) →
  let pointer := pre ++ "/" :: piece ++ rest in
  let stop := js_length pre + 1 + js_length piece in
  segments_loop pointer (js_length pre + 1) (js_length pre)
  = Yield (unescape piece) (segments_loop pointer (stop + 1) stop).
Proof.
  intros Hslash Hrest pointer stop. rewrite segments_loop_step.
  assert (Hlen : js_length pointer = js_length pre + 1 + js_length piece + js_length rest).
  { unfold pointer, js_length. rewrite length_app. simpl. rewrite length_app. lia. }
  assert (Hdrop : drop (Z.to_nat (js_length pre + 1)) pointer = piece ++ rest).
  { unfold pointer. rewrite (cons_middle "/"), app_assoc.
    apply drop_app_length'. unfold js_length. rewrite length_app. simpl. lia. }
  assert (Hpos : (if decide (indexOf pointer "/" (js_length pre + 1) = -1)
                  then js_length pointer
                  else indexOf pointer "/" (js_length pre + 1)) = stop).
  { unfold indexOf.
    replace (Z.min (Z.max (js_length pre + 1) 0) (js_length pointer))
      with (js_length pre + 1) by (unfold js_length in *; lia).
    rewrite Hdrop, index_from_app by done.
    destruct Hrest as [->|[r ->]]; cbn [index_from].
    - rewrite decide_True by done. rewrite Hlen. unfold stop, js_length. simpl. lia.
    - rewrite (decide_True (P := "/" = "/")) by done.
      rewrite decide_False by (unfold js_length; lia). done. }
  rewrite decide_True by (unfold js_length in *; lia).
  cbv zeta. rewrite Hpos. f_equal. unfold unescape. do 2 f_equal.
  unfold slice.
  rewrite !(proj2 (Z.ltb_ge _ 0)) by (unfold stop, js_length; lia).
  replace (Z.min (js_length pre + 1) (js_length pointer)) with (js_length pre + 1)
    by (unfold js_length in *; lia).
  replace (Z.min stop (js_length pointer)) with stop
    by (unfold stop, js_length in *; lia).
  rewrite Hdrop. apply take_app_length'. unfold stop, js_length. lia.
Qed.

Lemma segments_loop_split s pre :
  collect (segments_loop (pre ++ "/" :: s) (js_length pre + 1) (js_length pre))
  = Ok (unescape <$> split_slash s).
Proof.
  remember (length s) as n eqn:Hn.
  revert s pre Hn. induction n as [n IH] using lt_wf_ind. intros s pre ->.
  destruct (split_slash_first s) as (piece & Hpiece & [[-> ->]|(r & -> & ->)]).
  - rewrite <- (app_nil_r piece) at 1.
    rewrite (segments_loop_piece pre piece []) by (by try left).
    cbn [collect]. rewrite segments_loop_step, decide_False; [done|].
    unfold js_length. rewrite !length_app. simpl. rewrite !length_app. simpl. lia.
  - rewrite (segments_loop_piece pre piece ("/" :: r)) by (by try (right; eexists)).
    cbn [collect].
    assert (Hlt : (length r < length (piece ++ "/" :: r))%nat)
      by (rewrite length_app; simpl; lia).
    specialize (IH (length r) Hlt r (pre ++ "/" :: piece) eq_refl).
    rewrite <- app_assoc in IH. simpl in IH.
    replace (js_length (pre ++ "/" :: piece)) with (js_length pre + 1 + js_length piece) in IH
      by (unfold js_length; rewrite length_app; simpl; lia).
    by rewrite IH.
Qed.

End decoding.

Section encoding.

Lemma split_slash_app q x :
  split_slash (q ++ "/" :: x) = split_slash q ++ split_slash x.
Proof.
  induction q as [|c t IH]; [done|]. simpl.
  case_decide; [by rewrite IH|]. rewrite IH.
  destruct (split_slash_cons t) as (piece & pieces & ->). done.
Qed.

Lemma split_slash_whole s : "/" ∉ s → split_slash s = [s].
Proof.
  induction s as [|c t IH]; [done|]. intros [Hc Ht]%not_elem_of_cons. simpl.
  rewrite decide_False by done. by rewrite IH.
Qed.

Lemma slashes_app x y : slashes (x ++ y) = (slashes x + slashes y)%nat.
Proof. unfold slashes. by rewrite filter_app, length_app. Qed.

Lemma rfc_escaped_app x r : rfc_escaped (x ++ "/" :: r) → rfc_escaped x ∧ rfc_escaped r.
Proof.
  induction x as [|c t IH]; simpl.
  - intros [_ Hr]. done.
  - intros [Hnext Hrest]. destruct (IH Hrest) as [Ht Hr]. split; [|done].
    split; [|done]. intros Hc. specialize (Hnext Hc).
    destruct t as [|d t]; [|done]. simpl in Hnext. destruct Hnext; discriminate.
Qed.

(** Escaping undoes unescaping on a piece in which every [~] starts an
    escape. *)
Lemma escape_unescape piece :
  "/" ∉ piece → rfc_escaped piece → JsonPointer.escape (unescape piece) = piece.
Proof.
  remember (length piece) as n eqn:Hn. revert piece Hn.
  induction n as [n IH] using lt_wf_ind. intros piece -> Hslash Hescaped.
  destruct piece as [|c t]; [done|].
  apply not_elem_of_cons in Hslash as [Hc Hslash]. destruct Hescaped as [Hnext Hescaped].
  destruct (decide (c = "~")) as [->|Htilde].
  - destruct t as [|d t']; [by destruct (Hnext eq_refl)|].
    assert (Hd : d = "0" ∨ d = "1")
      by (destruct (Hnext eq_refl) as [[= ->]|[= ->]]; first [by left | by right]).
    apply not_elem_of_cons in Hslash as [_ Hslash]. destruct Hescaped as [_ Hescaped].
    destruct Hd as [->| ->];
      [rewrite unescape_tilde_zero|rewrite unescape_tilde_one];
      rewrite escape_chars; simpl; rewrite <- escape_chars;
      rewrite (IH (length t')); simpl; try done; lia.
  - rewrite unescape_other by done. rewrite escape_chars. simpl.
    unfold escape_char at 1. rewrite !decide_False by done. simpl.
    rewrite <- escape_chars. rewrite (IH (length t)); simpl; try done; lia.
Qed.

Lemma encoded_split s :
  rfc_escaped s → encoded (unescape <$> split_slash s) = "/" :: s.
Proof.
  remember (length s) as n eqn:Hn. revert s Hn.
  induction n as [n IH] using lt_wf_ind. intros s -> Hescaped.
  destruct (split_slash_first s) as (piece & Hpiece & [[-> ->]|(r & -> & ->)]).
  - unfold encoded. simpl. rewrite app_nil_r. by rewrite escape_unescape.
  - apply rfc_escaped_app in Hescaped as [Hp Hr].
    unfold encoded. rewrite fmap_cons, bind_cons. fold (encoded (unescape <$> split_slash r)).
    rewrite escape_unescape by done.
    rewrite (IH (length r)); [done| |done|done]. rewrite length_app. simpl. lia.
Qed.

Lemma collect_segments_slash s :
  collect (pointerSegments ("/" :: s)) = Ok (unescape <$> split_slash s).
Proof.
  unfold pointerSegments. rewrite decide_False by (intros [_ Hfirst]; by apply Hfirst).
  apply (segments_loop_split s []).
Qed.

Lemma collect_segments_append pointer segment segments :
  collect (pointerSegments pointer) = Ok segments →
  collect (pointerSegments (JsonPointer.append segment pointer)) = Ok (segments ++ [segment]).
Proof.
  unfold JsonPointer.append. destruct pointer as [|c s].
  - intros [= <-]. simpl. rewrite collect_segments_slash.
    rewrite split_slash_whole by apply escape_no_slash. simpl.
    unfold unescape. by rewrite unescape_escape.
  - destruct (decide (c = "/")) as [->|Hc].
    + rewrite collect_segments_slash. intros [= <-]. simpl.
      rewrite collect_segments_slash, split_slash_app, fmap_app.
      rewrite (split_slash_whole (JsonPointer.escape segment)) by apply escape_no_slash.
      simpl. unfold unescape at 2. by rewrite unescape_escape.
    + unfold pointerSegments at 1. rewrite decide_True; [done|].
      split; [unfold js_length; simpl; lia|]. simpl. congruence.
Qed.

Lemma collect_segments_accepted pointer :
  well_formed pointer → ∃ segments, collect (pointerSegments pointer) = Ok segments.
Proof.
  intros [->|Hfirst]; [by exists []|].
  destruct pointer as [|c s]; [done|]. injection Hfirst as ->.
  eexists. apply collect_segments_slash.
Qed.

Lemma collect_segments_encoded path : collect (pointerSegments (encoded path)) = Ok path.
Proof.
  unfold pointerSegments. rewrite decide_False; [apply (segments_loop_decodes path [])|].
  intros [Hlength Hfirst]. destruct path as [|segment path]; [by vm_compute in Hlength|].
  by apply Hfirst.
Qed.

End encoding.

(** X1. A pointer that starts with [/] decodes to the pieces between its
    [/] characters, each with [~1] replaced by [/] and then [~0] by [~]:
    the index loop of the generator computes what splitting the rest of
    the pointer at [/] and unescaping every piece does. In particular it
    yields empty segments for adjacent and trailing [/], and it accepts a
    [~] that starts no escape. *)
Theorem pointerSegments_splits (s : jsstring) :
  collect (pointerSegments ("/" :: s)) = Ok (unescape <$> split_slash s).
Proof.
  unfold pointerSegments. rewrite decide_False by (intros [_ Hfirst]; by apply Hfirst).
  apply (segments_loop_split s []).
Qed.

(** X2. A pointer that is accepted decodes to as many segments as it has
    [/] characters. *)
Theorem pointerSegments_count (pointer : jsstring) :
  well_formed pointer →
  ∃ segments,
    collect (pointerSegments pointer) = Ok segments
    ∧ length segments = slashes pointer.
Proof.
  intros [->|Hfirst].
  - by exists [].
  - destruct pointer as [|c s]; [done|]. injection Hfirst as ->.
    exists (unescape <$> split_slash s). split; [apply collect_segments_slash|].
    rewrite length_fmap, length_split_slash. unfold slashes.
    by rewrite filter_cons, decide_True.
Qed.

Lemma pointerSegments_count_witness :
  ∃ segments,
    collect (pointerSegments (js "/a//b~1c/")) = Ok segments
    ∧ length segments = 4%nat.
Proof. apply (pointerSegments_count (js "/a//b~1c/")). by right. Defined.

(** X3. Encoding is a left inverse of decoding on the pointers of RFC 6901:
    when every [~] of an accepted pointer is followed by [0] or [1],
    appending its segments one by one to the empty pointer gives the
    pointer back. The two replacements of the generator are therefore
    applied in the order that keeps [~01] apart from [/]. *)
Theorem pointerSegments_encode (pointer : jsstring) :
  well_formed pointer →
  rfc_escaped pointer →
  ∃ segments,
    collect (pointerSegments pointer) = Ok segments
    ∧ JsonPointer.encode segments = pointer.
Proof.
  intros [->|Hfirst] Hescaped.
  - by exists [].
  - destruct pointer as [|c s]; [done|]. injection Hfirst as ->.
    exists (unescape <$> split_slash s). split; [apply collect_segments_slash|].
    rewrite encode_encoded. apply encoded_split. by destruct Hescaped.
Qed.

Lemma pointerSegments_encode_witness :
  ∃ segments,
    collect (pointerSegments (js "/a~01//b~1c/")) = Ok segments
    ∧ JsonPointer.encode segments = js "/a~01//b~1c/".
Proof.
  apply (pointerSegments_encode (js "/a~01//b~1c/")); [by right|].
  vm_compute. repeat split; try discriminate; intros _; first [by left | by right].
Defined.

(** X4. Appending a segment to an accepted pointer adds that segment, and
    nothing else, to what the pointer decodes to, whatever characters the
    segment has and whether or not the pointer is itself an encoding. *)
Theorem pointerSegments_append (pointer segment : jsstring) :
  well_formed pointer →
  ∃ segments,
    collect (pointerSegments pointer) = Ok segments
    ∧ collect (pointerSegments (JsonPointer.append segment pointer))
      = Ok (segments ++ [segment]).
Proof.
  intros [segments Hsegments]%collect_segments_accepted. exists segments.
  split; [done|]. by apply collect_segments_append.
Qed.

Lemma pointerSegments_append_witness :
  ∃ segments,
    collect (pointerSegments (js "/x~/")) = Ok segments
    ∧ collect (pointerSegments (JsonPointer.append (js "a/b~c") (js "/x~/")))
      = Ok (segments ++ [js "a/b~c"]).
Proof. apply (pointerSegments_append (js "/x~/") (js "a/b~c")). by right. Defined.

(** ** Objects: what [step], [has] and the three iterations agree on *)

Section objects.
Context `{Externals}.
Implicit Types (σ : Store) (this : JsoncInstance.t).
Implicit Types (p : NodeId * jsstring * option NodeId).

Lemma entries_zip this props :
  omap (entry_of this) props
  = filter (λ e, is_Some (JsoncInstance.node e.2))
      (zip (key_instance this <$> props) (value_instance this <$> props)).
Proof.
  induction props as [|p props IH]; [done|].
  cbn [omap list_omap fmap list_fmap zip zip_with]. rewrite filter_cons.
  unfold entry_of at 1. destruct (p.2) as [v|] eqn:Hv.
  - rewrite decide_True by (simpl; by rewrite Hv). by rewrite IH.
  - rewrite decide_False; [done|]. simpl. rewrite Hv. by intros [].
Qed.

End objects.

(** X5. On a tree as the parser builds it, [step] returns the value of the
    first property of that name which has a value, with the pointer of the
    object extended by the name; properties of the name without a value
    are passed over, a later property of the same name is never reached,
    and when no property qualifies the result is the Instance of a missing
    property. *)
Theorem step_first_valued `{Externals} (σ : Store) (o : JsoncInstance.t)
    (props : list (NodeId * jsstring * option NodeId)) (k : jsstring) :
  object_view σ o = Some props →
  JsoncInstance.step σ o k
  = Ok (from_option (value_instance o) (absent_instance o k) (first_valued k props)).
Proof. apply step_view. Qed.

Lemma step_first_valued_witness :
  JsoncInstance.step Examples.twice_tree Examples.twice_root (js "a")
  = Ok (JsoncInstance.new Examples.twice_text (Some 0%nat) (Some 3%nat) (js "/a") (Some ∅)).
Proof.
  exact (step_first_valued Examples.twice_tree Examples.twice_root
           [(2%nat, js "a", Some 3%nat); (5%nat, js "a", Some 6%nat)] (js "a") eq_refl).
Defined.

(** X6. [step] and [has] on a tree as the parser builds it: whenever
    [step] finds a node, [has] answers true for the name, and whenever
    [has] answers false, [step] returns the Instance of a missing
    property. *)
Theorem step_present_has `{Externals} (σ : Store) (o : JsoncInstance.t)
    (props : list (NodeId * jsstring * option NodeId)) (k : jsstring) :
  object_view σ o = Some props →
  (∀ i, JsoncInstance.step σ o k = Ok i →
        JsoncInstance.node i ≠ None → JsoncInstance.has σ o k = Ok true)
  ∧ (JsoncInstance.has σ o k = Ok false →
     JsoncInstance.step σ o k = Ok (absent_instance o k)).
Proof.
  intros Hview. rewrite (step_view _ _ props), (has_view _ _ props) by done. split.
  - intros i [= <-] Hnode. f_equal. apply bool_decide_eq_true_2.
    destruct (first_valued k props) as [p|] eqn:Hfirst; [|done].
    apply first_valued_Some in Hfirst as (Hp & <- & _).
    apply list_elem_of_fmap. by exists p.
  - intros [= Hnone%bool_decide_eq_false_1]. f_equal.
    destruct (first_valued k props) as [p|] eqn:Hfirst; [|done].
    apply first_valued_Some in Hfirst as (Hp & <- & _).
    destruct Hnone. apply list_elem_of_fmap. by exists p.
Qed.

Lemma step_present_has_witness :
  JsoncInstance.has Examples.nested_tree Examples.nested_root (js "a") = Ok true
  ∧ JsoncInstance.step Examples.nested_tree Examples.nested_root (js "c")
    = Ok (absent_instance Examples.nested_root (js "c")).
Proof.
  split.
  - apply (proj1 (step_present_has Examples.nested_tree Examples.nested_root
                    [(2%nat, js "a", Some 3%nat)] (js "a") eq_refl) Examples.nested_a);
      [reflexivity|discriminate].
  - apply (proj2 (step_present_has Examples.nested_tree Examples.nested_root
                    [(2%nat, js "a", Some 3%nat)] (js "c") eq_refl)).
    reflexivity.
Defined.

(** X7. On a tree as the parser builds it the three iterations of an
    object line up: [keys] and [values] yield one Instance per property,
    in the same order and with the same pointer, and [entries] yields
    exactly the pairs of a key and its value whose value node is there. *)
Theorem entries_pair_keys_values `{Externals} (σ : Store) (o : JsoncInstance.t)
    (props : list (NodeId * jsstring * option NodeId)) :
  object_view σ o = Some props →
  ∃ ks vs,
    collect (JsoncInstance.keys σ o) = Ok ks
    ∧ collect (JsoncInstance.values σ o) = Ok vs
    ∧ length ks = length props
    ∧ Forall2 (λ key v, JsoncInstance.pointer key = JsoncInstance.pointer v
                        ∧ JsoncInstance.node key ≠ None) ks vs
    ∧ collect (JsoncInstance.entries σ o)
      = Ok (filter (λ e, is_Some (JsoncInstance.node e.2)) (zip ks vs)).
Proof.
  intros Hview.
  exists (key_instance o <$> props), (value_instance o <$> props).
  rewrite (keys_view _ _ props), (values_view _ _ props), (entries_view _ _ props) by done.
  rewrite !collect_gen_of_list, length_fmap, entries_zip.
  repeat split; try done.
  apply Forall2_fmap, Forall_Forall2_diag, Forall_forall. by intros p _.
Qed.

Lemma entries_pair_keys_values_witness :
  ∃ ks vs,
    collect (JsoncInstance.keys Examples.partial_tree Examples.partial_root) = Ok ks
    ∧ collect (JsoncInstance.values Examples.partial_tree Examples.partial_root) = Ok vs
    ∧ length ks = 1%nat
    ∧ Forall2 (λ key v, JsoncInstance.pointer key = JsoncInstance.pointer v
                        ∧ JsoncInstance.node key ≠ None) ks vs
    ∧ collect (JsoncInstance.entries Examples.partial_tree Examples.partial_root)
      = Ok (filter (λ e, is_Some (JsoncInstance.node e.2)) (zip ks vs)).
Proof.
  exact (entries_pair_keys_values Examples.partial_tree Examples.partial_root
           [(2%nat, js "a", None)] eq_refl).
Defined.

(** ** Navigation on any tree *)

Section navigation.
Context `{Externals}.
Implicit Types (σ : Store) (this : JsoncInstance.t).

Lemma find_yields {A} (P : A → Prop) (fn : A → result bool) (g : Gen A) a :
  yields P g → find fn g = Ok (Some a) → P a ∧ fn a = Ok true.
Proof.
  induction g as [|b rest IH|e]; simpl; [done| |done].
  intros [Hb Hrest]. destruct (fn b) as [[]|] eqn:Hfn; simpl; [|by apply IH|done].
  by intros [= <-].
Qed.

Lemma yields_collect {A} (P : A → Prop) (g : Gen A) l :
  yields P g → collect g = Ok l → Forall P l.
Proof.
  revert l. induction g as [|b rest IH|e]; simpl; intros l; [by intros _ [= <-]| |done].
  intros [Hb Hrest]. destruct (collect rest) as [l'|]; simpl; [|done].
  intros [= <-]. constructor; [done|by apply IH].
Qed.

Lemma yields_impl {A} (P Q : A → Prop) (g : Gen A) :
  (∀ a, P a → Q a) → yields P g → yields Q g.
Proof. intros HPQ. induction g; simpl; [done| |done]. intros [? ?]. auto. Qed.

Lemma entries_loop_built σ this cs :
  yields (entry_built σ this) (JsoncInstance.entries_loop σ this cs).
Proof.
  induction cs as [|c rest IH]; [done|]. cbn [JsoncInstance.entries_loop].
  unfold deref, defined.
  destruct c as [pid|]; [|exact I]. cbn [mbind result_bind].
  destruct (σ !! pid) as [propertyNode|]; [|exact I]. cbn [mbind result_bind].
  destruct (node_children propertyNode) as [cs'|]; [|exact I]. cbn [mbind result_bind].
  destruct (child cs' 1) as [v|]; [|exact IH].
  destruct (child cs' 0) as [kid|]; [|exact I]. cbn [mbind result_bind].
  destruct (σ !! kid) as [keyNode|] eqn:Hkey; [|exact I]. cbn [mbind result_bind].
  destruct (node_value keyNode) as [[]|] eqn:Hvalue; try exact I.
  cbn [segment_of mbind result_bind run yields]. split; [|done].
  eexists. unfold JsoncInstance.value, deref. simpl. rewrite Hkey. simpl.
  rewrite Hvalue. by repeat split.
Qed.

Lemma entries_built σ this :
  yields (entry_built σ this) (JsoncInstance.entries σ this).
Proof.
  unfold JsoncInstance.entries.
  destruct (JsoncInstance.typeOf σ this) as [type|]; [|exact I]. cbn [mbind result_bind].
  case_decide; [exact I|].
  destruct (JsoncInstance.this_node σ this) as [nd|]; [|exact I]. cbn [mbind result_bind].
  destruct (node_children nd) as [cs|]; [|exact I]. apply entries_loop_built.
Qed.

Lemma step_pointer σ this k i :
  JsoncInstance.step σ this k = Ok i →
  JsoncInstance.pointer i = JsonPointer.append k (JsoncInstance.pointer this)
  ∧ JsoncInstance.root i = JsoncInstance.root this
  ∧ JsoncInstance.textDocument i = JsoncInstance.textDocument this.
Proof.
  unfold JsoncInstance.step.
  destruct (find _ (JsoncInstance.entries σ this)) as [[e|]|] eqn:Hfind; simpl; [| |done].
  - intros [= <-].
    destruct (find_yields _ _ _ _ (entries_built σ this) Hfind)
      as [(name & Hname & _ & Hpointer & _ & Hroot & _ & Hdoc & _) Htest].
    rewrite Hname in Htest. simpl in Htest. injection Htest as Hk.
    apply bool_decide_eq_true_1 in Hk as <-. done.
  - by intros [= <-].
Qed.

Lemma well_formed_append segment pointer :
  well_formed pointer → well_formed (JsonPointer.append segment pointer).
Proof.
  unfold well_formed, JsonPointer.append. intros [->|Hfirst]; right; [done|].
  by destruct pointer.
Qed.

Lemma well_formed_accepted pointer segments :
  collect (pointerSegments pointer) = Ok segments → well_formed pointer.
Proof.
  unfold pointerSegments, well_formed. case_decide as Hbad; [done|]. intros _.
  destruct pointer as [|c s]; [by left|right].
  destruct (decide (c = "/")) as [->|Hc]; [done|]. destruct Hbad.
  split; [unfold js_length; simpl; lia|]. simpl. congruence.
Qed.

Local Ltac gen_run :=
  unfold deref, defined; simpl;
  repeat match goal with
    | |- context [match ?x with _ => _ end] => destruct x; simpl
    | |- context [segment_of ?v] => destruct (segment_of v); simpl
    end.

Local Ltac open_gen :=
  match goal with
  | |- yields _ (run (?t ≫= _)) => destruct t; simpl; [|done]
  end;
  case_decide; simpl; [done|];
  unfold JsoncInstance.this_node; gen_run; try done.

Lemma keys_loop_view_kept σ this cs :
  well_formed (JsoncInstance.pointer this) →
  yields (same_view this) (JsoncInstance.keys_loop σ this cs).
Proof.
  intros Hthis. induction cs as [|c rest IH]; [done|].
  cbn [JsoncInstance.keys_loop]. gen_run; try done.
  split; [|done]. split; [|done]. by apply well_formed_append.
Qed.

Lemma values_loop_view_kept σ this cs :
  well_formed (JsoncInstance.pointer this) →
  yields (same_view this) (JsoncInstance.values_loop σ this cs).
Proof.
  intros Hthis. induction cs as [|c rest IH]; [done|].
  cbn [JsoncInstance.values_loop]. gen_run; try done.
  split; [|done]. split; [|done]. by apply well_formed_append.
Qed.

Lemma iter_loop_view_kept this cs index :
  well_formed (JsoncInstance.pointer this) →
  yields (same_view this) (JsoncInstance.iter_loop this cs index).
Proof.
  intros Hthis. revert index. induction cs as [|c rest IH]; intros index; [done|].
  cbn [JsoncInstance.iter_loop yields]. split; [|apply IH].
  split; [|done]. by apply well_formed_append.
Qed.

End navigation.

(** X8. On any tree, whatever [step] returns for a name, found or not, has
    the pointer of the Instance it was called on extended by that name,
    and the same root and text document; so if the pointer it started from
    is accepted by [pointerSegments], the new pointer decodes to the old
    segments followed by the name. *)
Theorem step_extends_pointer `{Externals} (σ : Store) (this : JsoncInstance.t)
    (k : jsstring) (i : JsoncInstance.t) :
  JsoncInstance.step σ this k = Ok i →
  JsoncInstance.pointer i = JsonPointer.append k (JsoncInstance.pointer this)
  ∧ JsoncInstance.root i = JsoncInstance.root this
  ∧ JsoncInstance.textDocument i = JsoncInstance.textDocument this
  ∧ (well_formed (JsoncInstance.pointer this) →
     ∃ segments,
       collect (pointerSegments (JsoncInstance.pointer this)) = Ok segments
       ∧ collect (pointerSegments (JsoncInstance.pointer i)) = Ok (segments ++ [k])).
Proof.
  intros (Hpointer & Hroot & Hdoc)%step_pointer. repeat split; try done.
  intros [segments Hsegments]%collect_segments_accepted. exists segments.
  split; [done|]. rewrite Hpointer. by apply collect_segments_append.
Qed.

Lemma step_extends_pointer_witness :
  JsoncInstance.pointer Examples.nested_a = js "/a"
  ∧ ∃ segments,
      collect (pointerSegments (JsoncInstance.pointer Examples.nested_root)) = Ok segments
      ∧ collect (pointerSegments (JsoncInstance.pointer Examples.nested_a))
        = Ok (segments ++ [js "a"]).
Proof.
  assert (Hstep : JsoncInstance.step Examples.nested_tree Examples.nested_root (js "a")
                  = Ok Examples.nested_a) by reflexivity.
  destruct (step_extends_pointer _ _ _ _ Hstep) as (Hpointer & _ & _ & Hdecode).
  split; [exact Hpointer|]. apply Hdecode. by left.
Defined.

(** X9. Navigation stays in the view: when the pointer of an Instance is
    one that [pointerSegments] accepts, every Instance that [entries],
    [keys], [values], [iter], [step] and [parent] produce from it, on any
    tree, has an accepted pointer too, and the same root and text
    document. An Instance returned by [get] has them for every receiver. *)
Theorem navigation_same_view `{Externals} (σ : Store) (this : JsoncInstance.t) :
  (∀ uri i, JsoncInstance.get σ this uri = Ok i → same_view this i)
  ∧ (well_formed (JsoncInstance.pointer this) →
     yields (λ e, same_view this e.1 ∧ same_view this e.2) (JsoncInstance.entries σ this)
     ∧ yields (same_view this) (JsoncInstance.keys σ this)
     ∧ yields (same_view this) (JsoncInstance.values σ this)
     ∧ yields (same_view this) (JsoncInstance.iter σ this)
     ∧ (∀ k i, JsoncInstance.step σ this k = Ok i → same_view this i)
     ∧ (∀ i, JsoncInstance.parent σ this = Ok i → same_view this i)).
Proof.
  split.
  - intros uri i. unfold JsoncInstance.get. case_decide; [done|].
    destruct (decodeURI (drop 1 uri)) as [pointer|]; simpl; [|done].
    destruct (collect (pointerSegments pointer)) as [segments|] eqn:Hsegments; simpl; [|done].
    intros [= <-]. split; [|done]. by eapply well_formed_accepted.
  - intros Hthis. split; [|split; [|split; [|split; [|split]]]].
    + eapply yields_impl; [|apply entries_built].
      intros e (name & _ & Hkey & Hvalue & ? & ? & ? & ? & _).
      unfold same_view. rewrite Hkey, Hvalue. by auto using well_formed_append.
    + unfold JsoncInstance.keys.
      destruct (JsoncInstance.typeOf σ this) as [type|]; [|exact I]. cbn [mbind result_bind].
      case_decide; [exact I|].
      destruct (JsoncInstance.this_node σ this) as [nd|]; [|exact I].
      cbn [mbind result_bind].
      destruct (node_children nd) as [cs|]; [|exact I]. by apply keys_loop_view_kept.
    + unfold JsoncInstance.values.
      destruct (JsoncInstance.typeOf σ this) as [type|]; [|exact I]. cbn [mbind result_bind].
      case_decide; [exact I|].
      destruct (JsoncInstance.this_node σ this) as [nd|]; [|exact I].
      cbn [mbind result_bind].
      destruct (node_children nd) as [cs|]; [|exact I]. by apply values_loop_view_kept.
    + unfold JsoncInstance.iter.
      destruct (JsoncInstance.typeOf σ this) as [type|]; [|exact I]. cbn [mbind result_bind].
      case_decide; [exact I|].
      destruct (JsoncInstance.this_node σ this) as [nd|]; [|exact I].
      cbn [mbind result_bind].
      destruct (node_children nd) as [cs|]; [|exact I]. by apply iter_loop_view_kept.
    + intros k i (Hpointer & ? & ?)%step_pointer. split; [|done].
      rewrite Hpointer. by apply well_formed_append.
    + intros i. unfold JsoncInstance.parent.
      destruct (JsoncInstance.this_node σ this); simpl; [|done]. by intros [= <-].
Qed.

Lemma navigation_same_view_witness :
  same_view Examples.nested_root
    (JsoncInstance.new Examples.nested_text (Some 0%nat) (Some 6%nat) (js "/a/b") (Some ∅))
  ∧ yields (λ e, same_view Examples.nested_root e.1 ∧ same_view Examples.nested_root e.2)
      (JsoncInstance.entries Examples.nested_tree Examples.nested_root)
  ∧ yields (same_view Examples.nested_root)
      (JsoncInstance.keys Examples.nested_tree Examples.nested_root)
  ∧ yields (same_view Examples.nested_root)
      (JsoncInstance.values Examples.nested_tree Examples.nested_root)
  ∧ yields (same_view Examples.nested_root)
      (JsoncInstance.iter Examples.nested_tree Examples.nested_root)
  ∧ same_view Examples.nested_root Examples.nested_a
  ∧ same_view Examples.nested_root
      (JsoncInstance.new Examples.nested_text (Some 0%nat) None [] (Some ∅)).
Proof.
  split.
  - exact (proj1 (navigation_same_view Examples.nested_tree Examples.nested_root)
             (js "#/a/b") _ eq_refl).
  - assert (Hthis : well_formed (JsoncInstance.pointer Examples.nested_root)) by (by left).
    destruct (proj2 (navigation_same_view Examples.nested_tree Examples.nested_root) Hthis)
      as (Hentries & Hkeys & Hvalues & Hiter & Hstep & Hparent).
    split; [exact Hentries|]. split; [exact Hkeys|]. split; [exact Hvalues|].
    split; [exact Hiter|].
    split; [exact (Hstep (js "a") _ eq_refl)|exact (Hparent _ eq_refl)].
Defined.

(** ** Arrays: [iter] and [length] *)

Section arrays.
Context `{Externals}.
Implicit Types (σ : Store) (this : JsoncInstance.t).

Lemma iter_loop_items this cs index :
  JsoncInstance.iter_loop this cs index
  = gen_of_list (imap (λ j, item_instance this (index + j)) cs).
Proof.
  revert index. induction cs as [|c rest IH]; intros index; [done|].
  cbn [JsoncInstance.iter_loop]. rewrite imap_cons. unfold gen_of_list. cbn [foldr].
  rewrite Nat.add_0_r. f_equal. rewrite IH. unfold gen_of_list. f_equal.
  apply imap_ext. intros j c' _. simpl. f_equal. lia.
Qed.

(** [iter] in terms of the children of the array node. *)
Lemma iter_items σ this nd cs :
  JsoncInstance.this_node σ this = Ok nd →
  node_type nd = NArray →
  node_children nd = Some cs →
  JsoncInstance.iter σ this = gen_of_list (imap (item_instance this) cs).
Proof.
  intros Hnode Htype Hcs. unfold JsoncInstance.iter, JsoncInstance.typeOf.
  unfold JsoncInstance.this_node in *.
  destruct (JsoncInstance.node this) as [n|]; [|done]. simpl in *.
  rewrite Hnode. simpl. rewrite Htype, decide_False by (by intros []). simpl.
  rewrite Hcs. simpl. by rewrite iter_loop_items.
Qed.

Lemma length_array σ this n :
  JsoncInstance.length σ this = Ok (Some n) →
  ∃ nd cs, JsoncInstance.this_node σ this = Ok nd ∧ node_type nd = NArray
           ∧ node_children nd = Some cs ∧ n = Z.of_nat (length cs).
Proof.
  unfold JsoncInstance.length, JsoncInstance.typeOf, JsoncInstance.this_node.
  destruct (JsoncInstance.node this) as [m|]; [|done]. simpl.
  destruct (deref σ m) as [nd|]; [|done]. simpl.
  case_decide as Htype; [done|].
  apply (type_name_inj _ NArray) in Htype.
  destruct (node_children nd) as [cs|] eqn:Hcs; [|done]. simpl. intros [= <-].
  by exists nd, cs.
Qed.

Lemma decimal_inj m n : decimal m = decimal n → m = n.
Proof.
  unfold decimal, js. intros Heq.
  apply (f_equal String.string_of_list_ascii) in Heq.
  rewrite !String.string_of_list_ascii_of_string in Heq.
  apply (f_equal NilEmpty.uint_of_string) in Heq. rewrite !NilEmpty.usu in Heq.
  injection Heq as Heq. apply (f_equal Nat.of_uint) in Heq.
  by rewrite !DecimalNat.Unsigned.of_to in Heq.
Qed.

Lemma escape_inj s t : JsonPointer.escape s = JsonPointer.escape t → s = t.
Proof.
  intros Heq. rewrite <- (unescape_escape s), <- (unescape_escape t). by rewrite Heq.
Qed.

End arrays.

(** X10. [length] and [iter] agree on any tree: when [length] answers a
    number, [iter] yields that many Instances and returns, the Instance at
    each index holds the child of the array node at that index and has the
    pointer of the array extended by the index in decimal; when [length]
    answers [undefined], [iter] yields nothing; and when [length] throws,
    [iter] throws the same error before yielding. *)
Theorem iter_length `{Externals} (σ : Store) (this : JsoncInstance.t) :
  (∀ n, JsoncInstance.length σ this = Ok (Some n) →
     ∃ nd cs items,
       JsoncInstance.this_node σ this = Ok nd
       ∧ node_children nd = Some cs
       ∧ collect (JsoncInstance.iter σ this) = Ok items
       ∧ Z.of_nat (length items) = n
       ∧ ∀ index item, items !! index = Some item →
           JsoncInstance.node item = child cs index
           ∧ JsoncInstance.pointer item
             = JsonPointer.append (decimal index) (JsoncInstance.pointer this)
           ∧ JsoncInstance.annotations item = JsoncInstance.annotations this)
  ∧ (JsoncInstance.length σ this = Ok None → JsoncInstance.iter σ this = Done)
  ∧ (∀ e, JsoncInstance.length σ this = Throw e → JsoncInstance.iter σ this = Raise e).
Proof.
  split; [|split].
  - intros n (nd & cs & Hnode & Htype & Hcs & ->)%length_array.
    exists nd, cs, (imap (item_instance this) cs).
    rewrite (iter_items _ _ nd cs), collect_gen_of_list, length_imap by done.
    do 4 (split; [done|]). intros index item. rewrite list_lookup_imap. unfold child.
    destruct (cs !! index) as [c|]; [|done]. by intros [= <-].
  - unfold JsoncInstance.length, JsoncInstance.iter.
    destruct (JsoncInstance.typeOf σ this) as [type|]; [|done]. simpl.
    case_decide; [done|].
    destruct (JsoncInstance.this_node σ this) as [nd|]; [|done]. simpl.
    by destruct (node_children nd).
  - intros e. unfold JsoncInstance.length, JsoncInstance.iter.
    destruct (JsoncInstance.typeOf σ this) as [type|]; simpl; [|by intros [= ->]].
    case_decide; [done|].
    destruct (JsoncInstance.this_node σ this) as [nd|]; simpl; [|by intros [= ->]].
    destruct (node_children nd); simpl; [done|by intros [= ->]].
Qed.

Lemma iter_length_witness :
  (∃ items,
     collect (JsoncInstance.iter ArrayExamples.list_tree ArrayExamples.list_root) = Ok items
     ∧ Z.of_nat (length items) = 2%Z
     ∧ ∀ index item, items !! index = Some item →
         JsoncInstance.node item = child [Some 1%nat; Some 2%nat] index
         ∧ JsoncInstance.pointer item = JsonPointer.append (decimal index) []
         ∧ JsoncInstance.annotations item = Some ∅)
  ∧ JsoncInstance.iter Examples.nested_tree Examples.nested_root = Done
  ∧ JsoncInstance.iter [Examples.leaf NArray 0 0 JNull 0]
      (JsoncInstance.fromTextDocument Examples.empty_text (Some 0%nat))
    = Raise TypeError.
Proof.
  split; [|split].
  - destruct (proj1 (iter_length ArrayExamples.list_tree ArrayExamples.list_root)
                2%Z eq_refl)
      as (nd & cs & items & [= <-] & [= <-] & Hitems & Hlength & Heach).
    exists items. split; [exact Hitems|]. split; [exact Hlength|exact Heach].
  - exact (proj1 (proj2 (iter_length Examples.nested_tree Examples.nested_root)) eq_refl).
  - exact (proj2 (proj2 (iter_length [Examples.leaf NArray 0 0 JNull 0]
                           (JsoncInstance.fromTextDocument Examples.empty_text
                              (Some 0%nat))))
             TypeError eq_refl).
Defined.

(** X11. The Instances that one run of [iter] yields have pairwise
    different pointers, on any tree. *)
Theorem iter_pointers_differ `{Externals} (σ : Store) (this : JsoncInstance.t)
    (items : list JsoncInstance.t) (i j : nat) (a b : JsoncInstance.t) :
  collect (JsoncInstance.iter σ this) = Ok items →
  items !! i = Some a →
  items !! j = Some b →
  i ≠ j →
  JsoncInstance.pointer a ≠ JsoncInstance.pointer b.
Proof.
  unfold JsoncInstance.iter.
  destruct (JsoncInstance.typeOf σ this) as [type|]; [|done]. simpl.
  case_decide; [by intros [= <-]|].
  destruct (JsoncInstance.this_node σ this) as [nd|]; [|done]. simpl.
  destruct (node_children nd) as [cs|]; [|done]. simpl.
  rewrite iter_loop_items, collect_gen_of_list. intros [= <-].
  rewrite !list_lookup_imap.
  destruct (cs !! i) as [ci|]; [|done]. destruct (cs !! j) as [cj|]; [|done].
  simpl. intros [= <-] [= <-] Hij. simpl. unfold JsonPointer.append.
  intros Heq%app_inv_head. injection Heq as Heq. by apply escape_inj, decimal_inj in Heq.
Qed.

Lemma iter_pointers_differ_witness :
  JsoncInstance.pointer (item_instance ArrayExamples.list_root 0 (Some 1%nat))
  ≠ JsoncInstance.pointer (item_instance ArrayExamples.list_root 1 (Some 2%nat)).
Proof.
  apply (iter_pointers_differ ArrayExamples.list_tree ArrayExamples.list_root
           [item_instance ArrayExamples.list_root 0 (Some 1%nat);
            item_instance ArrayExamples.list_root 1 (Some 2%nat)] 0 1);
    [reflexivity|reflexivity|reflexivity|lia].
Defined.

(** ** Instances without members and Instances without a node *)

Section edges.
Context `{Externals}.
Implicit Types (σ : Store) (this : JsoncInstance.t).

Lemma steps_absent σ this path :
  JsoncInstance.node this = None →
  ∃ i, steps σ this path = Ok i
       ∧ JsoncInstance.node i = None
       ∧ JsoncInstance.pointer i = JsoncInstance.pointer this ++ encoded path.
Proof.
  revert this. induction path as [|k path IH]; intros this Hnode.
  - exists this. unfold encoded. simpl. by rewrite app_nil_r.
  - cbn [steps]. unfold JsoncInstance.step, JsoncInstance.entries, JsoncInstance.typeOf.
    rewrite Hnode. simpl.
    destruct (IH (absent_instance this k) eq_refl) as (i & Hsteps & Hi & Hpointer).
    exists i. split; [exact Hsteps|]. split; [done|]. rewrite Hpointer.
    unfold absent_instance, JsonPointer.append, encoded. simpl.
    by rewrite <- app_assoc.
Qed.

End edges.

(** X12. The members of what is not a container, on any tree: for an
    Instance whose type is not [object] (a scalar, an array, a property, an
    absent node) [entries], [keys] and [values] yield nothing, [has]
    answers false and [step] returns the Instance of a missing property;
    for one whose type is not [array], [iter] yields nothing and [length]
    is [undefined]. None of them throws. *)
Theorem no_members_outside_containers `{Externals} (σ : Store) (this : JsoncInstance.t)
    (type : jsstring) :
  JsoncInstance.typeOf σ this = Ok type →
  (type ≠ js "object" →
   JsoncInstance.entries σ this = Done
   ∧ JsoncInstance.keys σ this = Done
   ∧ JsoncInstance.values σ this = Done
   ∧ ∀ k, JsoncInstance.has σ this k = Ok false
          ∧ JsoncInstance.step σ this k = Ok (absent_instance this k))
  ∧ (type ≠ js "array" →
     JsoncInstance.iter σ this = Done ∧ JsoncInstance.length σ this = Ok None).
Proof.
  intros Htype. split; intros Hother.
  - assert (Hentries : JsoncInstance.entries σ this = Done).
    { unfold JsoncInstance.entries. rewrite Htype. simpl. by rewrite decide_True. }
    assert (Hkeys : JsoncInstance.keys σ this = Done).
    { unfold JsoncInstance.keys. rewrite Htype. simpl. by rewrite decide_True. }
    assert (Hvalues : JsoncInstance.values σ this = Done).
    { unfold JsoncInstance.values. rewrite Htype. simpl. by rewrite decide_True. }
    do 3 (split; [done|]). intros k.
    unfold JsoncInstance.has, JsoncInstance.step. by rewrite Hentries, Hkeys.
  - unfold JsoncInstance.iter, JsoncInstance.length.
    rewrite Htype. simpl. by rewrite !decide_True by done.
Qed.

Lemma no_members_outside_containers_witness :
  let six := JsoncInstance.new Examples.nested_text (Some 0%nat) (Some 6%nat) (js "/a/b")
               (Some ∅) in
  (JsoncInstance.entries Examples.nested_tree six = Done
   ∧ JsoncInstance.keys Examples.nested_tree six = Done
   ∧ JsoncInstance.values Examples.nested_tree six = Done
   ∧ ∀ k, JsoncInstance.has Examples.nested_tree six k = Ok false
          ∧ JsoncInstance.step Examples.nested_tree six k = Ok (absent_instance six k))
  ∧ JsoncInstance.iter Examples.nested_tree six = Done
  ∧ JsoncInstance.length Examples.nested_tree six = Ok None.
Proof.
  intros six.
  destruct (no_members_outside_containers Examples.nested_tree six (js "number") eq_refl)
    as [Hobject Harray].
  split; [by apply Hobject|by apply Harray].
Defined.

(** X13. Below a missing property navigation goes on without a throw: a
    chain of [step] calls that starts at an Instance without a node
    returns, for every list of names and on any tree, an Instance without
    a node whose pointer is the starting pointer extended by the names. *)
Theorem steps_below_missing `{Externals} (σ : Store) (this : JsoncInstance.t)
    (path : list jsstring) :
  JsoncInstance.node this = None →
  ∃ i, steps σ this path = Ok i
       ∧ JsoncInstance.node i = None
       ∧ JsoncInstance.value σ i = Ok None
       ∧ JsoncInstance.pointer i = JsoncInstance.pointer this ++ encoded path.
Proof.
  intros (i & Hsteps & Hnode & Hpointer)%(steps_absent σ _ path). exists i.
  repeat split; try done. unfold JsoncInstance.value. by rewrite Hnode.
Qed.

Lemma steps_below_missing_witness :
  ∃ i, steps Examples.nested_tree
         (absent_instance Examples.nested_root (js "c")) [js "d"; js "e/f"] = Ok i
       ∧ JsoncInstance.node i = None
       ∧ JsoncInstance.value Examples.nested_tree i = Ok None
       ∧ JsoncInstance.pointer i = js "/c/d/e~1f".
Proof.
  exact (steps_below_missing Examples.nested_tree
           (absent_instance Examples.nested_root (js "c")) [js "d"; js "e/f"] eq_refl).
Defined.

(** X14. An Instance has the type [undefined] exactly when it has no node,
    and exactly then its value is [undefined]; the type of an Instance is
    always one of the seven node types of the parser or [undefined]. *)
Theorem typeOf_undefined_iff `{Externals} (σ : Store) (this : JsoncInstance.t) :
  (JsoncInstance.typeOf σ this = Ok (js "undefined") ↔ JsoncInstance.node this = None)
  ∧ (JsoncInstance.value σ this = Ok None ↔ JsoncInstance.node this = None)
  ∧ ∀ type, JsoncInstance.typeOf σ this = Ok type →
            type ∈ js <$> ["object"; "array"; "property"; "string"; "number"; "boolean";
                           "null"; "undefined"]%string.
Proof.
  unfold JsoncInstance.typeOf, JsoncInstance.value.
  destruct (JsoncInstance.node this) as [n|]; simpl.
  - destruct (deref σ n) as [nd|]; simpl.
    + split; [|split].
      * split; [|done]. by destruct (node_type nd).
      * split; [|done]. destruct (node_value nd); [done|].
        by destruct (JSON_parse _).
      * intros type [= <-]. destruct (node_type nd); set_solver.
    + by repeat split.
  - repeat split; try done. intros type [= <-]. set_solver.
Qed.

(** ** Annotations *)

Section annotating.
Context `{Externals}.
Implicit Types (σ : Store) (this : JsoncInstance.t).

Lemma mapM_Ok {A B} (f : A → result B) l r :
  mapM f l = Ok r → Forall2 (λ x y, f x = Ok y) l r.
Proof.
  revert r. induction l as [|x l IH]; intros r; simpl.
  - intros [= <-]. constructor.
  - destruct (f x) as [y|] eqn:Hx; simpl; [|done].
    destruct (mapM f l) as [ys|]; simpl; [|done].
    intros [= <-]. constructor; [done|by apply IH].
Qed.

Lemma mapM_Throw {A B} (f : A → result B) l x e :
  x ∈ l → f x = Throw e → ∃ e' x', mapM f l = Throw e' ∧ x' ∈ l ∧ f x' = Throw e'.
Proof.
  intros Hx Hthrow. induction l as [|y l IH]; [by apply elem_of_nil in Hx|].
  simpl. destruct (f y) as [z|e'] eqn:Hy; simpl.
  - apply elem_of_cons in Hx as [->|Hx]; [congruence|].
    destruct (IH Hx) as (e' & x' & -> & Hx' & Hthrow'). simpl.
    exists e', x'. split; [done|]. split; [by right|done].
  - exists e', y. split; [done|]. split; [by left|done].
Qed.

Lemma annotated_pointers (m : gmap jsstring (gmap jsstring (list JsValue))) keywordId p :
  p ∈ filter (λ instancePointer, is_Some (m !! instancePointer ≫= (.!! keywordId)))
        (map_to_list m).*1
  ↔ ∃ recorded, m !! p = Some recorded ∧ is_Some (recorded !! keywordId).
Proof.
  rewrite list_elem_of_filter, list_elem_of_fmap. split.
  - intros [Hsome ([q recorded] & -> & Hin%elem_of_map_to_list)]. simpl in *.
    exists recorded. split; [done|]. by rewrite Hin in Hsome.
  - intros (recorded & Hp & Hsome). split; [by rewrite Hp|].
    exists (p, recorded). split; [done|]. by apply elem_of_map_to_list.
Qed.

End annotating.

(** X15. An annotation is recorded for one pointer and one keyword
    identifier: after [annotate], an Instance that shares the new
    annotations reads, at any other pointer or for any keyword whose
    identifier is not the one annotated, what it read from the old
    annotations. *)
Theorem annotate_elsewhere `{Externals} (this this' before after : JsoncInstance.t)
    (key : jsstring) (value : JsValue) (keyword dialectId : jsstring) :
  JsoncInstance.annotate this key value = Ok this' →
  JsoncInstance.annotations before = JsoncInstance.annotations this →
  JsoncInstance.annotations after = JsoncInstance.annotations this' →
  JsoncInstance.pointer after = JsoncInstance.pointer before →
  JsoncInstance.pointer before ≠ JsoncInstance.pointer this
  ∨ getKeywordId keyword dialectId ≠ key →
  JsoncInstance.annotation after keyword dialectId
  = JsoncInstance.annotation before keyword dialectId.
Proof.
  unfold JsoncInstance.annotate, JsoncInstance.annotation.
  destruct (JsoncInstance.annotations this) as [m|]; simpl; [|done].
  intros [= <-] -> -> ->. simpl. intros Hother. f_equal. apply (f_equal (default [])).
  destruct (decide (JsoncInstance.pointer before = JsoncInstance.pointer this)) as [Heq|Hp].
  - destruct Hother as [|Hkey]; [done|].
    rewrite Heq, lookup_insert_eq. simpl. rewrite lookup_insert_ne by done.
    by destruct (m !! JsoncInstance.pointer this).
  - by rewrite lookup_insert_ne.
Qed.

Lemma annotate_elsewhere_witness :
  ∃ this',
    JsoncInstance.annotate Examples.nested_root (js "title") (JNum 1) = Ok this'
    ∧ JsoncInstance.annotation
        (JsoncInstance.new Examples.nested_text (Some 0%nat) (Some 3%nat) (js "/a")
           (JsoncInstance.annotations this'))
        (js "title") draft2020
      = JsoncInstance.annotation Examples.nested_a (js "title") draft2020.
Proof.
  eexists. split; [reflexivity|].
  eapply (annotate_elsewhere Examples.nested_root _ Examples.nested_a);
    [reflexivity|reflexivity|reflexivity|reflexivity|left; discriminate].
Defined.

(** X16. [annotatedWith] and the recorded pointers. When it returns, every
    pointer that has a list recorded for the keyword identifier is
    answered by one of the Instances, whose pointer is the recorded pointer
    passed through [decodeURI] and which shares the annotations. When
    [decodeURI] rejects one such pointer, [annotatedWith] does not return
    a list at all: it throws, a [URIError] or the error of a malformed
    pointer. Without an annotations object it returns the empty list. *)
Theorem annotatedWith_answers `{Externals} (σ : Store) (this : JsoncInstance.t)
    (keyword dialectId : jsstring) :
  (∀ m instances p recorded,
     JsoncInstance.annotations this = Some m →
     JsoncInstance.annotatedWith σ this keyword dialectId = Ok instances →
     m !! p = Some recorded →
     is_Some (recorded !! getKeywordId keyword dialectId) →
     ∃ i, i ∈ instances
          ∧ decodeURI p = Some (JsoncInstance.pointer i)
          ∧ JsoncInstance.annotations i = Some m)
  ∧ (∀ m p recorded,
       JsoncInstance.annotations this = Some m →
       m !! p = Some recorded →
       is_Some (recorded !! getKeywordId keyword dialectId) →
       decodeURI p = None →
       ∃ e, JsoncInstance.annotatedWith σ this keyword dialectId = Throw e
            ∧ (e = URIError ∨ ∃ q, e = InvalidJsonPointer q))
  ∧ (JsoncInstance.annotations this = None →
     JsoncInstance.annotatedWith σ this keyword dialectId = Ok []).
Proof.
  split; [|split].
  - intros m instances p recorded Hm. unfold JsoncInstance.annotatedWith. rewrite Hm.
    intros Hall%mapM_Ok Hp Hsome.
    assert (Hin : p ∈ filter (λ instancePointer,
                     is_Some (m !! instancePointer ≫= (.!! getKeywordId keyword dialectId)))
                   (map_to_list m).*1) by (apply annotated_pointers; eauto).
    induction Hall as [|q i pointers instances Hget _ IH]; [by apply elem_of_nil in Hin|].
    apply elem_of_cons in Hin as [<-|Hin].
    + exists i. split; [by left|]. rewrite get_fragment in Hget.
      destruct (decodeURI p) as [decoded|]; simpl in Hget; [|done].
      destruct (collect (pointerSegments decoded)); simpl in Hget; [|done].
      by injection Hget as <-.
    + destruct (IH Hin) as (i' & Hi' & Hrest). exists i'. split; [by right|done].
  - intros m p recorded Hm Hp Hsome Hreject.
    unfold JsoncInstance.annotatedWith. rewrite Hm.
    assert (Hin : p ∈ filter (λ instancePointer,
                     is_Some (m !! instancePointer ≫= (.!! getKeywordId keyword dialectId)))
                   (map_to_list m).*1) by (apply annotated_pointers; eauto).
    assert (Hthrow : JsoncInstance.get σ this ("#" :: p) = Throw URIError)
      by (by rewrite get_fragment, Hreject).
    destruct (mapM_Throw (λ q, JsoncInstance.get σ this ("#" :: q)) _ p _ Hin Hthrow)
      as (e & q & Hall & _ & Hq).
    exists e. split; [done|]. rewrite get_fragment in Hq.
    destruct (decodeURI q) as [decoded|]; simpl in Hq; [|left; congruence].
    destruct (collect (pointerSegments decoded)) as [segments|e'] eqn:Hsegments;
      simpl in Hq; [done|].
    apply pointerSegments_malformed in Hsegments as (_ & _ & ->).
    right. exists decoded. congruence.
  - intros Hnone. unfold JsoncInstance.annotatedWith. by rewrite Hnone.
Qed.

Lemma annotatedWith_answers_witness :
  (∃ i, i ∈ [JsoncInstance.new Examples.nested_text (Some 0%nat) (Some 3%nat) (js "/a")
               (Some AnnotationExamples.titled)]
        ∧ decodeURI (js "/a") = Some (JsoncInstance.pointer i)
        ∧ JsoncInstance.annotations i = Some AnnotationExamples.titled)
  ∧ (∃ e, JsoncInstance.annotatedWith Examples.nested_tree AnnotationExamples.percent_root
            (js "title") draft2020 = Throw e
          ∧ (e = URIError ∨ ∃ q, e = InvalidJsonPointer q))
  ∧ JsoncInstance.annotatedWith Examples.nested_tree
      (absent_instance Examples.nested_root (js "c")) (js "title") draft2020 = Ok [].
Proof.
  split; [|split].
  - apply (proj1 (annotatedWith_answers Examples.nested_tree AnnotationExamples.titled_root
                    (js "title") draft2020)
             AnnotationExamples.titled _ (js "/a")
             {[ AnnotationExamples.title_id := [JNum 1] ]});
      [reflexivity|vm_compute; reflexivity|vm_compute; reflexivity|].
    vm_compute. eexists. reflexivity.
  - apply (proj1 (proj2 (annotatedWith_answers Examples.nested_tree
                           AnnotationExamples.percent_root (js "title") draft2020))
             AnnotationExamples.percent (js "/100%")
             {[ AnnotationExamples.title_id := [JNum 1] ]});
      [reflexivity|vm_compute; reflexivity| |reflexivity].
    vm_compute. eexists. reflexivity.
  - apply (proj2 (proj2 (annotatedWith_answers Examples.nested_tree
                           (absent_instance Examples.nested_root (js "c"))
                           (js "title") draft2020))).
    reflexivity.
Defined.

(** ** Annotations and navigation *)

Section frame.
Context `{Externals}.
Implicit Types (σ : Store) (a b : JsoncInstance.t).

Local Ltac same_run :=
  unfold deref, defined; simpl;
  repeat match goal with
    | |- context [match ?x with _ => _ end] => destruct x; simpl
    | |- context [segment_of ?v] => destruct (segment_of v); simpl
    end.

Lemma value_annotations σ td r n p A B :
  JsoncInstance.value σ (JsoncInstance.new td r n p A)
  = JsoncInstance.value σ (JsoncInstance.new td r n p B).
Proof. done. Qed.

Lemma some_keys_loop_place σ td r n p A B cs k :
  some (fun propertyName => v ← JsoncInstance.value σ propertyName; Ok (same_string v k))
       (JsoncInstance.keys_loop σ (JsoncInstance.new td r n p A) cs)
  = some (fun propertyName => v ← JsoncInstance.value σ propertyName; Ok (same_string v k))
         (JsoncInstance.keys_loop σ (JsoncInstance.new td r n p B) cs).
Proof.
  induction cs as [|c rest IH]; [done|]. cbn [JsoncInstance.keys_loop].
  same_run; try done. rewrite (value_annotations _ _ _ _ _ A B). by rewrite IH.
Qed.

Lemma find_entries_loop_place σ td r n p A B cs k missingA missingB :
  place missingA = place missingB →
  place <$> (pair ← find (fun entry => v ← JsoncInstance.value σ entry.1;
                                       Ok (same_string v k))
                      (JsoncInstance.entries_loop σ (JsoncInstance.new td r n p A) cs);
             match pair with Some entry => Ok entry.2 | None => Ok missingA end)
  = place <$> (pair ← find (fun entry => v ← JsoncInstance.value σ entry.1;
                                         Ok (same_string v k))
                        (JsoncInstance.entries_loop σ (JsoncInstance.new td r n p B) cs);
               match pair with Some entry => Ok entry.2 | None => Ok missingB end).
Proof.
  intros Hmissing.
  induction cs as [|c rest IH]; [simpl; by rewrite Hmissing|].
  cbn [JsoncInstance.entries_loop].
  same_run; try done. rewrite (value_annotations _ _ _ _ _ A B).
  destruct (JsoncInstance.value σ _) as [v|]; simpl; [|done].
  destruct (same_string v k); [done|]. apply IH.
Qed.

Lemma iter_loop_place td r n p A B cs index :
  fmap (M := list) place
    <$> collect (JsoncInstance.iter_loop (JsoncInstance.new td r n p A) cs index)
  = fmap (M := list) place
      <$> collect (JsoncInstance.iter_loop (JsoncInstance.new td r n p B) cs index).
Proof.
  rewrite !iter_loop_items, !collect_gen_of_list. simpl. f_equal.
  rewrite !fmap_imap. by apply imap_ext.
Qed.

End frame.

(** X17. Annotations never guide navigation. Two Instances that stand at
    the same place (same text document, root, node and pointer) read the
    same value, type and length on any tree, answer [has] alike, and
    [step], [get], [parent] and [iter] take them to the same places or
    fail with the same error, whatever annotations either carries, also
    when one of them has lost its annotations object. *)
Theorem navigation_ignores_annotations `{Externals} (σ : Store) (a b : JsoncInstance.t) :
  place a = place b →
  JsoncInstance.value σ a = JsoncInstance.value σ b
  ∧ JsoncInstance.typeOf σ a = JsoncInstance.typeOf σ b
  ∧ JsoncInstance.length σ a = JsoncInstance.length σ b
  ∧ (∀ k, JsoncInstance.has σ a k = JsoncInstance.has σ b k)
  ∧ (∀ k, place <$> JsoncInstance.step σ a k = place <$> JsoncInstance.step σ b k)
  ∧ (∀ uri, place <$> JsoncInstance.get σ a uri = place <$> JsoncInstance.get σ b uri)
  ∧ place <$> JsoncInstance.parent σ a = place <$> JsoncInstance.parent σ b
  ∧ fmap (M := list) place <$> collect (JsoncInstance.iter σ a)
    = fmap (M := list) place <$> collect (JsoncInstance.iter σ b)
  ∧ JsoncInstance.asEmbedded σ a = JsoncInstance.asEmbedded σ b.
Proof.
  destruct a as [td r n p A], b as [td' r' n' p' B]. unfold place. simpl.
  intros [= <- <- <- <-].
  assert (Htype : JsoncInstance.typeOf σ (JsoncInstance.new td r n p A)
                  = JsoncInstance.typeOf σ (JsoncInstance.new td r n p B)) by done.
  assert (Hnode : JsoncInstance.this_node σ (JsoncInstance.new td r n p A)
                  = JsoncInstance.this_node σ (JsoncInstance.new td r n p B)) by done.
  split; [done|]. split; [done|]. split; [done|]. split; [|split; [|split; [|split; [|split]]]].
  - intros k. unfold JsoncInstance.has, JsoncInstance.keys. rewrite Htype, Hnode.
    destruct (JsoncInstance.typeOf σ _) as [type|]; simpl; [|done].
    case_decide; [done|].
    destruct (JsoncInstance.this_node σ _) as [nd|]; simpl; [|done].
    destruct (node_children nd) as [cs|]; simpl; [|done].
    apply some_keys_loop_place.
  - intros k. unfold JsoncInstance.step, JsoncInstance.entries. rewrite Htype, Hnode.
    destruct (JsoncInstance.typeOf σ _) as [type|]; simpl; [|done].
    case_decide; [done|].
    destruct (JsoncInstance.this_node σ _) as [nd|]; simpl; [|done].
    destruct (node_children nd) as [cs|]; simpl; [|done].
    by apply find_entries_loop_place.
  - intros uri. unfold JsoncInstance.get. simpl. case_decide; [done|].
    destruct (decodeURI (drop 1 uri)) as [pointer|]; simpl; [|done].
    by destruct (collect (pointerSegments pointer)).
  - unfold JsoncInstance.parent. rewrite Hnode.
    by destruct (JsoncInstance.this_node σ _).
  - unfold JsoncInstance.iter. rewrite Htype, Hnode.
    destruct (JsoncInstance.typeOf σ _) as [type|]; simpl; [|done].
    case_decide; [done|].
    destruct (JsoncInstance.this_node σ _) as [nd|]; simpl; [|done].
    destruct (node_children nd) as [cs|]; simpl; [|done].
    apply iter_loop_place.
  - done.
Qed.

Lemma navigation_ignores_annotations_witness :
  place <$> JsoncInstance.step Examples.nested_tree AnnotationExamples.titled_root (js "a")
  = place <$> JsoncInstance.step Examples.nested_tree Examples.nested_root (js "a").
Proof.
  apply (navigation_ignores_annotations Examples.nested_tree AnnotationExamples.titled_root
           Examples.nested_root eq_refl).
Defined.

(** ** Embedding *)

Section embedded.
Context `{Externals}.
Implicit Types (σ : Store) (this : JsoncInstance.t).

(** Everything [asEmbedded] reads and writes, when it returns. *)
Lemma asEmbedded_inv σ this emb σ' :
  JsoncInstance.asEmbedded σ this = Ok (emb, σ') →
  ∃ n nd p parent cs,
    JsoncInstance.node this = Some n ∧ σ !! n = Some nd
    ∧ node_parent nd = Some p ∧ σ !! p = Some parent
    ∧ node_children parent = Some cs
    ∧ emb = JsoncInstance.new (JsoncInstance.textDocument this) (Some n) (Some n) [] (Some ∅)
    ∧ σ' = <[p := with_children parent
                     (set_index cs (if decide (node_type parent = NProperty)
                                    then 1%Z else findIndex n cs) (length σ))]>
             (σ ++ [placeholder (node_offset nd)]).
Proof.
  unfold JsoncInstance.asEmbedded, deref, defined.
  destruct (JsoncInstance.node this) as [n|]; simpl; [|done].
  destruct (σ !! n) as [nd|] eqn:Hn; simpl; [|done].
  destruct (node_parent nd) as [p|] eqn:Hp; simpl; [|done].
  destruct (σ !! p) as [parent|] eqn:Hparent; simpl; [|done].
  destruct (node_children parent) as [cs|] eqn:Hcs; simpl; [|done].
  intros [= <- <-]. by exists n, nd, p, parent, cs.
Qed.

Lemma asEmbedded_run σ this n nd p parent cs :
  JsoncInstance.node this = Some n → σ !! n = Some nd →
  node_parent nd = Some p → σ !! p = Some parent →
  node_children parent = Some cs →
  JsoncInstance.asEmbedded σ this
  = Ok (JsoncInstance.new (JsoncInstance.textDocument this) (Some n) (Some n) [] (Some ∅),
        <[p := with_children parent
                 (set_index cs (if decide (node_type parent = NProperty)
                                then 1%Z else findIndex n cs) (length σ))]>
          (σ ++ [placeholder (node_offset nd)])).
Proof.
  intros Hnode Hn Hp Hparent Hcs. unfold JsoncInstance.asEmbedded, deref, defined.
  rewrite Hnode. simpl. rewrite Hn. simpl. rewrite Hp. simpl. rewrite Hparent. simpl.
  by rewrite Hcs.
Qed.

Lemma slice_nothing s offset : slice s offset (offset + 0) = [].
Proof.
  unfold slice. rewrite Z.add_0_r.
  by replace (Z.max _ 0) with 0%Z by lia.
Qed.

Lemma findIndex_from_found n cs index i :
  cs !! index = Some (Some n) →
  (∀ j, cs !! j = Some (Some n) → j = index) →
  findIndex_from n cs i = (i + Z.of_nat index)%Z.
Proof.
  revert index i. induction cs as [|c rest IH]; intros index i Hindex Honce; [done|].
  simpl. destruct index as [|index].
  - injection Hindex as ->. rewrite decide_True by done. lia.
  - rewrite decide_False.
    + rewrite (IH index) by (try done; intros j Hj; by injection (Honce (S j) Hj)). lia.
    + intros ->. by specialize (Honce 0%nat eq_refl).
Qed.

Lemma findIndex_from_missing n cs i : Some n ∉ cs → findIndex_from n cs i = (-1)%Z.
Proof.
  revert i. induction cs as [|c rest IH]; intros i; [done|].
  intros [Hc Hrest]%not_elem_of_cons. simpl. rewrite decide_False by done. by apply IH.
Qed.

(** The heap after embedding a node that its parent holds in one slot
    only. *)
Lemma asEmbedded_slot σ this n nd p parent cs index :
  JsoncInstance.node this = Some n →
  σ !! n = Some nd →
  node_parent nd = Some p →
  σ !! p = Some parent →
  node_children parent = Some cs →
  cs !! index = Some (Some n) →
  (∀ j, cs !! j = Some (Some n) → j = index) →
  (node_type parent = NProperty → index = 1%nat) →
  JsoncInstance.asEmbedded σ this
  = Ok (JsoncInstance.new (JsoncInstance.textDocument this) (Some n) (Some n) [] (Some ∅),
        <[p := with_children parent (<[index := Some (length σ)]> cs)]>
          (σ ++ [placeholder (node_offset nd)]))
  ∧ (Some n ∉ <[index := Some (length σ)]> cs).
Proof.
  intros Hnode Hn Hp Hparent Hcs Hindex Honce Hproperty.
  assert (Hnlt : (n < length σ)%nat) by (by eapply lookup_lt_Some).
  assert (Hilt : (index < length cs)%nat) by (by eapply lookup_lt_Some).
  assert (Hslot : set_index cs (if decide (node_type parent = NProperty)
                                then 1%Z else findIndex n cs) (length σ)
                  = <[index := Some (length σ)]> cs).
  { assert (Hwhere : (if decide (node_type parent = NProperty)
                      then 1%Z else findIndex n cs) = Z.of_nat index).
    { case_decide as Htype; [by rewrite (Hproperty Htype)|].
      unfold findIndex. by rewrite (findIndex_from_found _ _ index). }
    rewrite Hwhere. unfold set_index. rewrite decide_False by lia.
    rewrite Nat2Z.id. by rewrite decide_True. }
  split; [rewrite <- Hslot; by apply asEmbedded_run|].
  intros (j & Hj)%list_elem_of_lookup. rewrite list_lookup_insert in Hj.
  case_decide as Hji.
  - injection Hj as Heq. lia.
  - specialize (Honce j Hj). destruct Hji. by split.
Qed.

Lemma lookup_embedded (σ : list Node) p (x new : Node) m :
  (p < length σ)%nat →
  <[p := x]> (σ ++ [new]) !! m
  = if decide (m = p) then Some x
    else if decide (m = length σ) then Some new else σ !! m.
Proof.
  intros Hp. rewrite list_lookup_insert.
  destruct (decide (m = p)) as [->|Hm].
  - rewrite decide_True; [done|]. split; [done|]. rewrite length_app. simpl. lia.
  - rewrite decide_False by (intros [? _]; congruence).
    destruct (decide (m = length σ)) as [->|Hnew].
    + by rewrite lookup_app_r, Nat.sub_diag by lia.
    + destruct (decide (m < length σ)%nat); [by rewrite lookup_app_l|].
      rewrite lookup_app_r by lia.
      destruct (m - length σ)%nat as [|d] eqn:Hd; [lia|].
      rewrite (lookup_ge_None_2 σ m) by lia. by destruct d.
Qed.

End embedded.

(** X18. What [asEmbedded] leaves as it was, on any tree: when it returns,
    the heap has one more node, every Instance whose node is not the new
    one reads the same value and the same type as before, and so the
    Instance returned reads what the receiver read. The new node has type
    [boolean] and no cached value: its value is whatever [JSON.parse]
    makes of the empty text. *)
Theorem asEmbedded_keeps_values `{Externals} (σ σ' : Store) (this emb : JsoncInstance.t) :
  JsoncInstance.asEmbedded σ this = Ok (emb, σ') →
  length σ' = S (length σ)
  ∧ (∀ i, JsoncInstance.node i ≠ Some (length σ) →
          JsoncInstance.value σ' i = JsoncInstance.value σ i
          ∧ JsoncInstance.typeOf σ' i = JsoncInstance.typeOf σ i)
  ∧ JsoncInstance.value σ' emb = JsoncInstance.value σ this
  ∧ JsoncInstance.typeOf σ' emb = JsoncInstance.typeOf σ this
  ∧ (∀ i, JsoncInstance.node i = Some (length σ) →
          JsoncInstance.typeOf σ' i = Ok (js "boolean")
          ∧ JsoncInstance.value σ' i = Some <$> JSON_parse []).
Proof.
  intros (n & nd & p & parent & cs & Hnode & Hn & Hp & Hparent & Hcs & -> & ->)%asEmbedded_inv.
  assert (Hplt : (p < length σ)%nat) by (by eapply lookup_lt_Some).
  assert (Hnlt : (n < length σ)%nat) by (by eapply lookup_lt_Some).
  assert (Hold : ∀ i, JsoncInstance.node i ≠ Some (length σ) →
            JsoncInstance.value
              (<[p := with_children parent
                        (set_index cs (if decide (node_type parent = NProperty)
                                       then 1%Z else findIndex n cs) (length σ))]>
                 (σ ++ [placeholder (node_offset nd)])) i
            = JsoncInstance.value σ i
            ∧ JsoncInstance.typeOf
                (<[p := with_children parent
                          (set_index cs (if decide (node_type parent = NProperty)
                                         then 1%Z else findIndex n cs) (length σ))]>
                   (σ ++ [placeholder (node_offset nd)])) i
              = JsoncInstance.typeOf σ i).
  { intros i Hi. unfold JsoncInstance.value, JsoncInstance.typeOf, deref, Store in *.
    destruct (JsoncInstance.node i) as [m|]; [|done].
    destruct (decide (m = p)) as [->|Hm].
    - rewrite list_lookup_insert_eq by (rewrite length_app; simpl; lia).
      by rewrite Hparent.
    - rewrite list_lookup_insert_ne by done.
      destruct (decide (m < length σ)%nat) as [Hlt|Hge].
      + by rewrite lookup_app_l.
      + rewrite lookup_app_r by lia.
        assert (Hpast : (m ≠ length σ)%nat) by (intros Heq; apply Hi; by rewrite Heq).
        destruct (m - length σ)%nat as [|d] eqn:Hd; [lia|].
        assert (Hnone : σ !! m = None) by (apply lookup_ge_None_2; lia).
        rewrite Hnone. by destruct d. }
  split; [by rewrite length_insert, length_app, Nat.add_1_r|].
  split; [exact Hold|].
  assert (Hemb : JsoncInstance.node
                   (JsoncInstance.new (JsoncInstance.textDocument this) (Some n) (Some n) []
                      (Some ∅)) ≠ Some (length σ))
    by (simpl; intros [= ->]; lia).
  split; [|split].
  - rewrite (proj1 (Hold _ Hemb)).
    unfold JsoncInstance.value. simpl. by rewrite Hnode.
  - rewrite (proj2 (Hold _ Hemb)).
    unfold JsoncInstance.typeOf. simpl. by rewrite Hnode.
  - intros i Hi. unfold JsoncInstance.value, JsoncInstance.typeOf, deref, Store in *.
    rewrite Hi.
    rewrite list_lookup_insert_ne by lia.
    rewrite lookup_app_r, Nat.sub_diag by lia. simpl.
    split; [done|]. rewrite slice_nothing. by destruct (JSON_parse []).
Qed.

Lemma asEmbedded_keeps_values_witness :
  length Examples.nested_after = 8%nat
  ∧ JsoncInstance.value Examples.nested_after Examples.nested_root
    = JsoncInstance.value Examples.nested_tree Examples.nested_root
  ∧ JsoncInstance.value Examples.nested_after Examples.nested_embedded
    = JsoncInstance.value Examples.nested_tree Examples.nested_a
  ∧ JsoncInstance.typeOf Examples.nested_after
      (JsoncInstance.new Examples.nested_text (Some 0%nat) (Some 7%nat) (js "/a") (Some ∅))
    = Ok (js "boolean").
Proof.
  destruct (asEmbedded_keeps_values Examples.nested_tree Examples.nested_after
              Examples.nested_a Examples.nested_embedded eq_refl)
    as (Hlength & Hold & Hvalue & _ & Hnew).
  split; [exact Hlength|]. split; [|split; [exact Hvalue|]].
  - apply Hold. discriminate.
  - by apply Hnew.
Defined.



(** X20. Embedding the same node a second time, when the first call
    replaced its only slot: the call returns the same Instance and
    allocates one more node. Under a property node slot 1 is overwritten
    once more, with the new node; under any other parent the node is no
    longer found among the children, [findIndex] answers -1, and the
    children stay as the first call left them. *)
Theorem asEmbedded_again `{Externals} (σ : Store) (this : JsoncInstance.t)
    (n : NodeId) (nd : Node) (p : NodeId) (parent : Node) (cs : list (option NodeId))
    (index : nat) :
  JsoncInstance.node this = Some n →
  σ !! n = Some nd →
  node_parent nd = Some p →
  n ≠ p →
  σ !! p = Some parent →
  node_children parent = Some cs →
  cs !! index = Some (Some n) →
  (∀ j, cs !! j = Some (Some n) → j = index) →
  (node_type parent = NProperty → index = 1%nat) →
  ∃ emb σ' σ'',
    JsoncInstance.asEmbedded σ this = Ok (emb, σ')
    ∧ JsoncInstance.asEmbedded σ' this = Ok (emb, σ'')
    ∧ length σ'' = S (S (length σ))
    ∧ children_of σ'' p
      = Some (if decide (node_type parent = NProperty)
              then <[1%nat := Some (S (length σ))]> (<[index := Some (length σ)]> cs)
              else <[index := Some (length σ)]> cs).
Proof.
  intros Hnode Hn Hp Hnp Hparent Hcs Hindex Honce Hproperty.
  assert (Hplt : (p < length σ)%nat) by (by eapply lookup_lt_Some).
  assert (Hnlt : (n < length σ)%nat) by (by eapply lookup_lt_Some).
  assert (Hilt : (index < length cs)%nat) by (by eapply lookup_lt_Some).
  destruct (asEmbedded_slot σ this n nd p parent cs index) as [Hrun Hgone]; try done.
  remember (<[index := Some (length σ)]> cs) as cs' eqn:Hcs'.
  remember (<[p := with_children parent cs']> (σ ++ [placeholder (node_offset nd)]))
    as σ' eqn:Hσ'.
  assert (Hlength : length σ' = S (length σ))
    by (rewrite Hσ'; by rewrite length_insert, length_app, Nat.add_1_r).
  assert (Hn' : σ' !! n = Some nd).
  { rewrite Hσ'. rewrite lookup_embedded by done.
    rewrite decide_False by done. by rewrite decide_False by lia. }
  assert (Hparent' : σ' !! p = Some (with_children parent cs')).
  { rewrite Hσ'. rewrite lookup_embedded by done. by rewrite decide_True. }
  pose proof (asEmbedded_run σ' this n nd p (with_children parent cs') cs'
                Hnode Hn' Hp Hparent' eq_refl) as Hagain.
  eexists _, σ', _. split; [exact Hrun|]. split; [exact Hagain|].
  split; [by rewrite length_insert, length_app, Nat.add_1_r, Hlength|].
  unfold children_of. rewrite lookup_embedded by lia. rewrite decide_True by done.
  simpl. f_equal. rewrite Hlength. unfold set_index.
  destruct (decide (node_type parent = NProperty)) as [Htype|Htype].
  - rewrite decide_False by lia. rewrite decide_True; [done|].
    rewrite Hcs', length_insert. rewrite (Hproperty Htype) in Hilt. simpl. lia.
  - unfold findIndex. rewrite findIndex_from_missing by done. by rewrite decide_True.
Qed.

Lemma asEmbedded_again_witness :
  let item := JsoncInstance.new ArrayExamples.list_text (Some 0%nat) (Some 2%nat) (js "/1")
                (Some ∅) in
  ∃ emb σ' σ'',
    JsoncInstance.asEmbedded ArrayExamples.list_tree item = Ok (emb, σ')
    ∧ JsoncInstance.asEmbedded σ' item = Ok (emb, σ'')
    ∧ length σ'' = 6%nat
    ∧ children_of σ'' 0%nat = Some [Some 1%nat; Some 4%nat].
Proof.
  intros item.
  apply (asEmbedded_again ArrayExamples.list_tree item 2
           (Examples.inner NArray 4 4 [3%nat] (Some 0%nat)) 0
           (Examples.inner NArray 0 9 [1; 2]%nat None)
           [Some 1%nat; Some 2%nat] 1);
    try reflexivity; try discriminate.
  intros [|[|[|j]]]; simpl; intros Hj; try discriminate Hj; reflexivity.
Defined.

(** ** Methods that need a node, and positions *)

Section paths.

Lemma foldl_append_encoded (path : list jsstring) pointer :
  foldl (fun pointer segment => JsonPointer.append segment pointer) pointer path
  = pointer ++ encoded path.
Proof.
  revert pointer. induction path as [|segment path IH]; intros pointer.
  - unfold encoded. simpl. by rewrite app_nil_r.
  - simpl. rewrite IH. unfold JsonPointer.append, encoded. simpl.
    by rewrite <- app_assoc.
Qed.

Lemma foldl_segments (path : list Segment) pointer :
  foldl (fun pointer segment => JsonPointer.append (segment_string segment) pointer)
        pointer path
  = foldl (fun pointer segment => JsonPointer.append segment pointer) pointer
      (segment_string <$> path).
Proof. revert pointer. induction path as [|s path IH]; intros pointer; [done|]. apply IH. Qed.

End paths.

(** X21. An Instance without a node cannot be asked for anything that
    reads the node: [parent], [asEmbedded], [startPosition], [endPosition]
    and [textLength] throw a [TypeError] on any tree. *)
Theorem absent_node_raises `{Externals} `{Positions} (σ : Store) (this : JsoncInstance.t) :
  JsoncInstance.node this = None →
  JsoncInstance.parent σ this = Throw TypeError
  ∧ JsoncInstance.asEmbedded σ this = Throw TypeError
  ∧ JsoncInstance.startPosition σ this = Throw TypeError
  ∧ JsoncInstance.endPosition σ this = Throw TypeError
  ∧ JsoncInstance.textLength σ this = Throw TypeError.
Proof.
  intros Hnode.
  unfold JsoncInstance.parent, JsoncInstance.asEmbedded, JsoncInstance.startPosition,
    JsoncInstance.endPosition, JsoncInstance.textLength, JsoncInstance.this_node.
  by rewrite Hnode.
Qed.

Lemma absent_node_raises_witness :
  let missing := absent_instance Examples.nested_root (js "c") in
  JsoncInstance.parent Examples.nested_tree missing = Throw TypeError
  ∧ JsoncInstance.asEmbedded Examples.nested_tree missing = Throw TypeError
  ∧ JsoncInstance.startPosition Examples.nested_tree missing = Throw TypeError
  ∧ JsoncInstance.endPosition Examples.nested_tree missing = Throw TypeError
  ∧ JsoncInstance.textLength Examples.nested_tree missing = Throw TypeError.
Proof.
  exact (absent_node_raises Examples.nested_tree
           (absent_instance Examples.nested_root (js "c")) eq_refl).
Defined.

(** X22. At a node that has no parent, such as the root of a document,
    [parent] returns an Instance without a node that keeps the pointer and
    the annotations, calling [parent] on that Instance throws a
    [TypeError], and so does [asEmbedded] on the node itself: the root of a
    document cannot be embedded. *)
Theorem parentless_node `{Externals} (σ : Store) (this : JsoncInstance.t)
    (n : NodeId) (nd : Node) :
  JsoncInstance.node this = Some n →
  σ !! n = Some nd →
  node_parent nd = None →
  JsoncInstance.parent σ this
  = Ok (JsoncInstance.new (JsoncInstance.textDocument this) (JsoncInstance.root this) None
          (JsoncInstance.pointer this) (JsoncInstance.annotations this))
  ∧ JsoncInstance.parent σ this ≫= JsoncInstance.parent σ = Throw TypeError
  ∧ JsoncInstance.asEmbedded σ this = Throw TypeError.
Proof.
  intros Hnode Hn Hparent.
  unfold JsoncInstance.parent, JsoncInstance.asEmbedded, JsoncInstance.this_node, deref.
  rewrite Hnode. simpl. rewrite Hn. simpl. by rewrite Hparent.
Qed.

Lemma parentless_node_witness :
  JsoncInstance.parent Examples.nested_tree Examples.nested_root
  = Ok (JsoncInstance.new Examples.nested_text (Some 0%nat) None [] (Some ∅))
  ∧ JsoncInstance.parent Examples.nested_tree Examples.nested_root
      ≫= JsoncInstance.parent Examples.nested_tree
    = Throw TypeError
  ∧ JsoncInstance.asEmbedded Examples.nested_tree Examples.nested_root = Throw TypeError.
Proof.
  exact (parentless_node Examples.nested_tree Examples.nested_root 0
           (Examples.inner NObject 0 15 [1%nat] None) eq_refl eq_refl eq_refl).
Defined.

(** X23. The Instance at a position. When a node is found at the offset
    of the position, the Instance holds that node and its pointer decodes
    to the path of the node, every array index written in decimal; when
    none is found, the Instance has no node and the empty pointer. In both
    cases it keeps the text document, the root and the annotations. *)
Theorem getInstanceAtPosition_pointer `{Positions} (σ : Store) (this : JsoncInstance.t)
    (position : Position) :
  let i := JsoncInstance.getInstanceAtPosition σ this position in
  let found :=
    findNodeAtOffset σ (JsoncInstance.root this)
      (offsetAt (JsoncInstance.textDocument this) position) in
  (∀ n, found = Some n →
        JsoncInstance.node i = Some n
        ∧ collect (pointerSegments (JsoncInstance.pointer i))
          = Ok (segment_string <$> getNodePath σ n))
  ∧ (found = None → JsoncInstance.node i = None ∧ JsoncInstance.pointer i = [])
  ∧ JsoncInstance.textDocument i = JsoncInstance.textDocument this
  ∧ JsoncInstance.root i = JsoncInstance.root this
  ∧ JsoncInstance.annotations i = JsoncInstance.annotations this.
Proof.
  intros i found. unfold i, found, JsoncInstance.getInstanceAtPosition.
  destruct (findNodeAtOffset σ _ _) as [n|]; simpl.
  - split; [|by repeat split]. intros ? [= <-]. split; [done|].
    rewrite foldl_segments, foldl_append_encoded. simpl.
    apply collect_segments_encoded.
  - by repeat split.
Qed.

Lemma getInstanceAtPosition_pointer_witness :
  let i := JsoncInstance.getInstanceAtPosition Examples.nested_tree Examples.nested_root
             {| line := 0; character := 12 |} in
  let j := JsoncInstance.getInstanceAtPosition Examples.nested_tree Examples.nested_root
             {| line := 0; character := 15 |} in
  (JsoncInstance.node i = Some 6%nat
   ∧ collect (pointerSegments (JsoncInstance.pointer i)) = Ok [js "a"; js "b"])
  ∧ JsoncInstance.node j = None
  ∧ JsoncInstance.pointer j = [].
Proof.
  split.
  - exact (proj1 (getInstanceAtPosition_pointer Examples.nested_tree Examples.nested_root
                    {| line := 0; character := 12 |}) 6%nat eq_refl).
  - exact (proj1 (proj2 (getInstanceAtPosition_pointer Examples.nested_tree
                           Examples.nested_root {| line := 0; character := 15 |}))
             eq_refl).
Defined.

(** ** The pairs of [entries] on any tree *)

(** X24. Whatever the tree, every pair that [entries] yields before it
    returns or throws has a value node, its key Instance reads a string,
    the name of the property, and both Instances of the pair carry the
    pointer of the object extended by that name, with the root and the
    text document of the object. *)
Theorem entries_yield_named_pairs `{Externals} (σ : Store) (this : JsoncInstance.t) :
  yields (entry_built σ this) (JsoncInstance.entries σ this).
Proof. apply entries_built. Qed.
